(** * just-run: dependency resolution and module-format rewriting

    A shallow embedding of the build pipeline of just-run (the [build]
    function and its helpers, and the module-type classifier of
    [lib/utils/utils.ts]) together with the properties of the design
    document that can be stated over it.

    Conventions.
    - JavaScript strings are modelled by [string]; indices that the source
      compares with [-1] are in [Z].
    - The syntax tree handed around by the source is a plain JavaScript
      object graph; it is modelled by the type [value] below and every
      handler reads it with the same field names as the source.
    - Functions that can throw return [result]; the constructors of [error]
      name the JavaScript exception.
    - The host runtime (node:path/posix, the file system, the parser, the
      transformer, the printer, the package resolver, the UUID source) is
      not part of the repository.  [Posix] models node:path/posix after
      Node's implementation; the other collaborators are fields of the
      record [Host]. *)

From Stdlib Require Import String Ascii List ZArith Arith Lia Bool DecimalString.
Import ListNotations.
Local Open Scope string_scope.
Local Open Scope Z_scope.

(* ================================================================= *)
(** ** JavaScript strings *)

Module Js.

Definition len (s : string) : Z := Z.of_nat (String.length s).

(** [s.slice(start, end)] with JavaScript's treatment of negative and
    out-of-range indices. *)
Definition clampIndex (n i : Z) : Z :=
  if i <? 0 then Z.max (n + i) 0 else Z.min i n.

Definition slice (s : string) (start stop : Z) : string :=
  let n := len s in
  let a := clampIndex n start in
  let b := clampIndex n stop in
  if b <=? a then ""
  else String.substring (Z.to_nat a) (Z.to_nat (b - a)) s.

(** [s.slice(start)] *)
Definition sliceFrom (s : string) (start : Z) : string :=
  slice s start (len s).

Definition startsWith (s p : string) : bool := String.prefix p s.

Definition endsWith (s p : string) : bool :=
  String.eqb (sliceFrom s (len s - len p)) p && (len p <=? len s).

(** [s.indexOf(t)], [-1] when absent. *)
Definition indexOf (s t : string) : Z :=
  match String.index 0 t s with
  | Some i => Z.of_nat i
  | None => -1
  end.

Definition includes (s t : string) : bool := 0 <=? indexOf s t.

(** [s.charCodeAt(i)] as a character; [None] stands for NaN. *)
Definition charAt (s : string) (i : Z) : option ascii :=
  if i <? 0 then None else String.get (Z.to_nat i) s.

Definition isChar (c : ascii) (o : option ascii) : bool :=
  match o with
  | Some d => Ascii.eqb c d
  | None => false
  end.

(** [s.lastIndexOf(c)] for a one-character needle, [-1] when absent. *)
Fixpoint lastIndexOfFrom (c : ascii) (s : string) (i : Z) (found : Z) : Z :=
  match s with
  | EmptyString => found
  | String d s' =>
      lastIndexOfFrom c s' (i + 1) (if Ascii.eqb c d then i else found)
  end.

Definition lastIndexOf (s : string) (c : ascii) : Z :=
  lastIndexOfFrom c s 0 (-1).

Definition lowerChar (c : ascii) : ascii :=
  let n := nat_of_ascii c in
  if (Nat.leb 65 n && Nat.leb n 90)%bool then ascii_of_nat (n + 32) else c.

(** [s.toLowerCase()] on the ASCII range. *)
Fixpoint toLowerCase (s : string) : string :=
  match s with
  | EmptyString => EmptyString
  | String c s' => String (lowerChar c) (toLowerCase s')
  end.

End Js.

(* ================================================================= *)
(** ** node:path/posix

    The functions of Node's [path.posix] that the build uses, written
    after Node's [lib/path.js]: the same loops over character positions
    with the same state variables. *)

Module Posix.

Definition slash : ascii := "/"%char.
Definition dot : ascii := "."%char.

Definition isPosixPathSeparator (c : ascii) : bool := Ascii.eqb c slash.

Record nsState := mkNs {
  res : string;
  lastSegmentLength : Z;
  lastSlash : Z;
  dots : Z
}.

(** One iteration of the body of the [for] loop of [normalizeString] at
    position [i] with character [code]. *)
Definition normalizeString_step (path : string) (allowAboveRoot : bool)
    (i : Z) (code : ascii) (st : nsState) : nsState :=
  let r := res st in
  if isPosixPathSeparator code then
    if (lastSlash st =? i - 1) || (dots st =? 1) then
      mkNs r (lastSegmentLength st) i 0
    else if dots st =? 2 then
      let above :=
        if allowAboveRoot
        then mkNs (if 0 <? Js.len r then r ++ "/.." else "..") 2 i 0
        else mkNs r (lastSegmentLength st) i 0 in
      if (Js.len r <? 2) || negb (lastSegmentLength st =? 2)
         || negb (Js.isChar dot (Js.charAt r (Js.len r - 1)))
         || negb (Js.isChar dot (Js.charAt r (Js.len r - 2)))
      then
        if 2 <? Js.len r then
          let lastSlashIndex := Js.lastIndexOf r slash in
          if lastSlashIndex =? -1 then mkNs "" 0 i 0
          else
            let r' := Js.slice r 0 lastSlashIndex in
            mkNs r' (Js.len r' - 1 - Js.lastIndexOf r' slash) i 0
        else if negb (Js.len r =? 0) then mkNs "" 0 i 0
        else above
      else above
    else
      let seg := Js.slice path (lastSlash st + 1) i in
      mkNs (if 0 <? Js.len r then r ++ "/" ++ seg else seg)
           (i - lastSlash st - 1) i 0
  else if Ascii.eqb code dot && negb (dots st =? -1) then
    mkNs r (lastSegmentLength st) (lastSlash st) (dots st + 1)
  else
    mkNs r (lastSegmentLength st) (lastSlash st) (-1).

(** The loop [for (i = 0; i <= path.length; ++i)]: [rest] is the part of
    the path from position [i] on and [code] the character read last. *)
Fixpoint normalizeString_loop (path : string) (allowAboveRoot : bool)
    (rest : string) (i : Z) (code : ascii) (st : nsState) : nsState :=
  match rest with
  | String c rest' =>
      normalizeString_loop path allowAboveRoot rest' (i + 1) c
        (normalizeString_step path allowAboveRoot i c st)
  | EmptyString =>
      if isPosixPathSeparator code then st
      else normalizeString_step path allowAboveRoot i slash st
  end.

Definition normalizeString (path : string) (allowAboveRoot : bool) : string :=
  res (normalizeString_loop path allowAboveRoot path 0 zero
         (mkNs "" 0 (-1) 0)).

Definition isAbsolute (path : string) : bool :=
  Js.isChar slash (Js.charAt path 0).

Definition normalize (path : string) : string :=
  if Js.len path =? 0 then "."
  else
    let isAbs := isAbsolute path in
    let trailingSeparator := Js.isChar slash (Js.charAt path (Js.len path - 1)) in
    let p := normalizeString path (negb isAbs) in
    if Js.len p =? 0 then
      if isAbs then "/" else if trailingSeparator then "./" else "."
    else
      let p := if trailingSeparator then p ++ "/" else p in
      if isAbs then "/" ++ p else p.

(** [path.join(...args)] *)
Fixpoint joinArgs (joined : option string) (args : list string) : option string :=
  match args with
  | [] => joined
  | arg :: args' =>
      if 0 <? Js.len arg then
        joinArgs (Some match joined with
                       | None => arg
                       | Some j => j ++ "/" ++ arg
                       end) args'
      else joinArgs joined args'
  end.

Definition join (args : list string) : string :=
  match joinArgs None args with
  | None => "."
  | Some joined => normalize joined
  end.

(** [path.resolve(...args)]: the arguments are consumed from the right
    until an absolute one is met; [cwd] is [process.cwd()]. *)
Fixpoint resolveArgs (rargs : list string) (resolvedPath : string)
    : string * bool :=
  match rargs with
  | [] => (resolvedPath, false)
  | p :: rargs' =>
      if Js.len p =? 0 then resolveArgs rargs' resolvedPath
      else
        let resolvedPath := p ++ "/" ++ resolvedPath in
        if isAbsolute p then (resolvedPath, true)
        else resolveArgs rargs' resolvedPath
  end.

Definition resolve (cwd : string) (args : list string) : string :=
  let '(resolvedPath, resolvedAbsolute) := resolveArgs (rev args ++ [cwd]) "" in
  let resolvedPath := normalizeString resolvedPath (negb resolvedAbsolute) in
  if resolvedAbsolute then "/" ++ resolvedPath
  else if 0 <? Js.len resolvedPath then resolvedPath else ".".

(** [path.dirname(path)] *)
Fixpoint dirname_loop (path : string) (n : nat) (matchedSlash : bool) : Z :=
  match n with
  | O => -1
  | S i =>
      (* position [S i], from [path.length - 1] down to [1] *)
      if Js.isChar slash (Js.charAt path (Z.of_nat (S i))) then
        if negb matchedSlash then Z.of_nat (S i)
        else dirname_loop path i matchedSlash
      else dirname_loop path i false
  end.

Definition dirname (path : string) : string :=
  if Js.len path =? 0 then "."
  else
    let hasRoot := isAbsolute path in
    let stop := dirname_loop path (String.length path - 1) true in
    if stop =? -1 then (if hasRoot then "/" else ".")
    else if hasRoot && (stop =? 1) then "//"
    else Js.slice path 0 stop.

(** [path.extname(path)] *)
Record extState := mkExt {
  startDot : Z;
  startPart : Z;
  stop : Z;
  matchedSlash : bool;
  preDotState : Z
}.

Fixpoint extname_loop (path : string) (n : nat) (st : extState) : extState :=
  match n with
  | O => st
  | S i' =>
      (* position [i'], from [path.length - 1] down to [0] *)
      let i := Z.of_nat i' in
      let code := Js.charAt path i in
      if Js.isChar slash code then
        if negb (matchedSlash st)
        then mkExt (startDot st) (i + 1) (stop st) (matchedSlash st) (preDotState st)
        else extname_loop path i' st
      else
        let st :=
          if stop st =? -1
          then mkExt (startDot st) (startPart st) (i + 1) false (preDotState st)
          else st in
        let st :=
          if Js.isChar dot code then
            if startDot st =? -1
            then mkExt i (startPart st) (stop st) (matchedSlash st) (preDotState st)
            else if negb (preDotState st =? 1)
            then mkExt (startDot st) (startPart st) (stop st) (matchedSlash st) 1
            else st
          else if negb (startDot st =? -1)
          then mkExt (startDot st) (startPart st) (stop st) (matchedSlash st) (-1)
          else st in
        extname_loop path i' st
  end.

Definition extname (path : string) : string :=
  let st := extname_loop path (String.length path) (mkExt (-1) 0 (-1) true 0) in
  if (startDot st =? -1) || (stop st =? -1) || (preDotState st =? 0)
     || ((preDotState st =? 1) && (startDot st =? stop st - 1)
         && (startDot st =? startPart st + 1))
  then ""
  else Js.slice path (startDot st) (stop st).

End Posix.

(* ================================================================= *)
(** ** Exceptions *)

Inductive error : Type :=
| ReferenceError (message : string)
| TypeError (message : string)
| Error (message : string)
| SystemError (code : string) (path : string)
| HostError (what : string).

Inductive result (A : Type) : Type :=
| Ok (a : A)
| Threw (e : error).
Arguments Ok {A} a.
Arguments Threw {A} e.

Definition bind {A B : Type} (r : result A) (k : A -> result B) : result B :=
  match r with
  | Ok a => k a
  | Threw e => Threw e
  end.

Notation "x <- e ;; k" := (bind e (fun x => k))
  (at level 61, e at next level, right associativity).
Notation "' p <- e ;; k" := (bind e (fun x => match x with p => k end))
  (at level 61, p pattern, e at next level, right associativity).

Fixpoint mapM {A B : Type} (f : A -> result B) (l : list A) : result (list B) :=
  match l with
  | [] => Ok []
  | a :: l' => b <- f a ;; bs <- mapM f l' ;; Ok (b :: bs)
  end.

Fixpoint filterM {A : Type} (f : A -> result bool) (l : list A) : result (list A) :=
  match l with
  | [] => Ok []
  | a :: l' => b <- f a ;; r <- filterM f l' ;; Ok (if b then a :: r else r)
  end.

(* ================================================================= *)
(** ** JavaScript values and the syntax tree

    The parser's tree is an object graph: every node is an object with a
    [type] field.  The [parent] back-pointers that [traverse] stores in the
    nodes are not fields of the model; a node's parent is the place where it
    sits in the tree. *)

Set Warnings "-register-all".

Inductive value : Type :=
| VUndefined
| VNull
| VBool (b : bool)
| VNum (n : Z)
| VStr (s : string)
| VArr (elems : list value)
| VObj (fields : list (string * value)).

Module Tree.

Definition truthy (v : value) : bool :=
  match v with
  | VUndefined | VNull => false
  | VBool b => b
  | VNum n => negb (n =? 0)
  | VStr s => negb (String.eqb s "")
  | VArr _ | VObj _ => true
  end.

(** [typeof value === "object" && value !== null && !Array.isArray(value)] *)
Definition isObject (v : value) : bool :=
  match v with
  | VObj _ => true
  | _ => false
  end.

Definition isArray (v : value) : bool :=
  match v with
  | VArr _ => true
  | _ => false
  end.

Definition nullish (v : value) : bool :=
  match v with
  | VUndefined | VNull => true
  | _ => false
  end.

Fixpoint lookup (k : string) (fields : list (string * value)) : value :=
  match fields with
  | [] => VUndefined
  | (k', v) :: fields' => if String.eqb k k' then v else lookup k fields'
  end.

(** [o[k] = x] on an object: an existing key keeps its place, a new key
    goes last. *)
Fixpoint assign (k : string) (x : value) (fields : list (string * value))
    : list (string * value) :=
  match fields with
  | [] => [(k, x)]
  | (k', v) :: fields' =>
      if String.eqb k k' then (k, x) :: fields'
      else (k', v) :: assign k x fields'
  end.

(** [v.k]: reading a property of [undefined] or [null] throws. *)
Definition prop (k : string) (v : value) : result value :=
  match v with
  | VUndefined | VNull =>
      Threw (TypeError ("Cannot read properties of undefined (reading '" ++ k ++ "')"))
  | VObj fields => Ok (lookup k fields)
  | VArr elems =>
      Ok (if String.eqb k "length" then VNum (Z.of_nat (List.length elems))
          else VUndefined)
  | VStr s => Ok (if String.eqb k "length" then VNum (Js.len s) else VUndefined)
  | VBool _ | VNum _ => Ok VUndefined
  end.

(** [v[0]] *)
Definition first (v : value) : result value :=
  match v with
  | VUndefined | VNull =>
      Threw (TypeError "Cannot read properties of undefined (reading '0')")
  | VArr elems => Ok (nth 0 elems VUndefined)
  | VObj fields => Ok (lookup "0" fields)
  | VStr s => Ok (if String.eqb s "" then VUndefined else VStr (Js.slice s 0 1))
  | VBool _ | VNum _ => Ok VUndefined
  end.

(** [v.k = x] in strict mode, which is the mode of a module: a primitive
    takes no property.  A named property of an array is not among its
    elements and the model does not keep it; no handler stores one. *)
Definition setProp (k : string) (x : value) (v : value) : result value :=
  match v with
  | VUndefined | VNull =>
      Threw (TypeError ("Cannot set properties of undefined (setting '" ++ k ++ "')"))
  | VObj fields => Ok (VObj (assign k x fields))
  | VArr _ => Ok v
  | VBool _ | VNum _ | VStr _ =>
      Threw (TypeError ("Cannot create property '" ++ k ++ "'"))
  end.

(** [v === "s"] *)
Definition isStr (s : string) (v : value) : bool :=
  match v with
  | VStr s' => String.eqb s s'
  | _ => false
  end.

(** The receiver of a string method: anything but a string has no such
    method and the call throws. *)
Definition str (method : string) (v : value) : result string :=
  match v with
  | VStr s => Ok s
  | VUndefined | VNull =>
      Threw (TypeError ("Cannot read properties of undefined (reading '" ++ method ++ "')"))
  | _ => Threw (TypeError (method ++ " is not a function"))
  end.

End Tree.

Import Tree.

(** Induction on a tree, with the hypothesis for every element of an array
    and every field of an object. *)
Section ValueInduction.

Variable P : value -> Prop.
Hypothesis Hundefined : P VUndefined.
Hypothesis Hnull : P VNull.
Hypothesis Hbool : forall b, P (VBool b).
Hypothesis Hnum : forall n, P (VNum n).
Hypothesis Hstr : forall s, P (VStr s).
Hypothesis Harr : forall elems, Forall P elems -> P (VArr elems).
Hypothesis Hobj : forall fields, Forall (fun kv => P (snd kv)) fields -> P (VObj fields).

Fixpoint value_tree_ind (v : value) : P v :=
  match v with
  | VUndefined => Hundefined
  | VNull => Hnull
  | VBool b => Hbool b
  | VNum n => Hnum n
  | VStr s => Hstr s
  | VArr elems =>
      Harr elems
        ((fix all (l : list value) : Forall P l :=
            match l with
            | [] => Forall_nil P
            | x :: l' => Forall_cons x (value_tree_ind x) (all l')
            end) elems)
  | VObj fields =>
      Hobj fields
        ((fix all (l : list (string * value)) : Forall (fun kv => P (snd kv)) l :=
            match l with
            | [] => Forall_nil _
            | kv :: l' => Forall_cons kv (value_tree_ind (snd kv)) (all l')
            end) fields)
  end.

End ValueInduction.

(** Chained member access, [e.k]. *)
Notation "e @. k" := (bind e (prop k)) (at level 40, left associativity).

(** [traverse(node, perNode)] for a visitor that only reads the tree: the
    visitor's effect is threaded as the state [S].  Nodes are visited before
    their children; array elements that are not objects and fields that are
    falsy or called [parent] are skipped. *)
Fixpoint traverse {S : Type} (perNode : value -> S -> result S)
    (node : value) (s : S) {struct node} : result S :=
  match node with
  | VArr elems =>
      (fix each (l : list value) (s : S) : result S :=
         match l with
         | [] => Ok s
         | key :: l' =>
             s' <- (if isObject key then traverse perNode key s else Ok s) ;;
             each l' s'
         end) elems s
  | VObj fields =>
      s0 <- perNode node s ;;
      (fix entries (l : list (string * value)) (s : S) : result S :=
         match l with
         | [] => Ok s
         | (key, value) :: l' =>
             s' <- (if String.eqb key "parent" || negb (truthy value) then Ok s
                    else traverse perNode value s) ;;
             entries l' s'
         end) fields s0
  | _ => Ok s
  end.

(** Short-circuit conjunction of two conditions that may throw. *)
Definition andThen (a b : result bool) : result bool :=
  x <- a ;; if x then b else Ok false.
Infix "&&&" := andThen (at level 40, left associativity).

Definition truthyR (r : result value) : result bool :=
  v <- r ;; Ok (truthy v).

Definition isStrR (s : string) (r : result value) : result bool :=
  v <- r ;; Ok (isStr s v).

(* ================================================================= *)
(** ** The host

    What the build obtains from outside the repository.  [lstat] gives
    [isFile()] of the entry at a path and throws when there is none;
    [importMetaResolve] stands for [import.meta.resolve] followed by
    [fileURLToPath]; [randomUUID i] is the identifier drawn by the [i]-th
    promise registered during one rewrite; [relative] is [path.relative],
    which only occurs in the message of the resolution error. *)

Record Dirent := mkDirent {
  name : string;
  isFile : bool;
  isDirectory : bool
}.

Record Host := mkHost {
  cwd : string;
  lstat : string -> result bool;
  readdir : string -> result (list Dirent);
  readFile : string -> result string;
  builtinModules : list string;
  transform : string -> list string -> string -> result string;
  parseModule : string -> result value;
  generate : value -> string;
  importMetaResolve : string -> result string;
  randomUUID : nat -> string;
  relative : string -> string -> string
}.

(** JavaScript's [Set] of strings, in insertion order. *)
Module StrSet.
Definition t := list string.
Definition has (s : t) (x : string) : bool := existsb (String.eqb x) s.
Definition add (s : t) (x : string) : t := if has s x then s else (s ++ [x])%list.
Definition size (s : t) : Z := Z.of_nat (List.length s).
(** [s.values().next().value] *)
Definition firstValue (s : t) : string := hd "" s.
End StrSet.

(* ================================================================= *)
(** ** FileResolver: [findActualFilePath] *)

(** The bindings in scope at the [throw] statement of [findActualFilePath]
    whose values are strings.  The other bindings in scope there ([anyExt],
    [hasSub], [subAnyExt], [EXTENSION_ORDER] and the top-level bindings of
    the module) are not called [entryMethod] either: that name is bound only
    inside the loop body of [build]. *)
Definition scopeOfFindActualFilePath (filePath likelyExtension dirname filename : string)
    : list (string * string) :=
  [("filePath", filePath); ("likelyExtension", likelyExtension);
   ("dirname", dirname); ("filename", filename)].

(** Evaluation of an identifier: an unbound one throws. *)
Definition identifier (scope : list (string * string)) (x : string) : result string :=
  match find (fun b => String.eqb (fst b) x) scope with
  | Some b => Ok (snd b)
  | None => Threw (ReferenceError (x ++ " is not defined"))
  end.

Definition scanDir (filename : string) (acc : StrSet.t * bool) (dirContent : Dirent)
    : StrSet.t * bool :=
  let '(anyExt, hasSub) := acc in
  if String.eqb (name dirContent) filename
     || Js.startsWith (name dirContent) (filename ++ ".")
  then
    if isFile dirContent then (StrSet.add anyExt (name dirContent), hasSub)
    else if isDirectory dirContent && String.eqb (name dirContent) filename
    then (anyExt, true)
    else acc
  else acc.

Definition scanSub (subAnyExt : StrSet.t) (dirContent : Dirent) : StrSet.t :=
  if String.eqb (name dirContent) "index"
     || Js.startsWith (name dirContent) "index."
  then
    if isFile dirContent then StrSet.add subAnyExt (name dirContent)
    else subAnyExt
  else subAnyExt.

(** [likelyExtensionArg] is [None] when the caller passes no second
    argument; the parameter then takes its default, the empty string. *)
Definition findActualFilePath (h : Host) (filePath : string)
    (likelyExtensionArg : option string) : result string :=
  let likelyExtension :=
    match likelyExtensionArg with Some e => e | None => "" end in
  if match lstat h filePath with Ok b => b | Threw _ => false end
  then Ok filePath
  else
    let dirname := Posix.dirname filePath in
    let filename := Js.sliceFrom filePath (Js.len dirname + 1) in
    entries <- readdir h dirname ;;
    let '(anyExt, hasSub) := fold_left (scanDir filename) entries ([], false) in
    subAnyExt <-
      (if hasSub
       then subEntries <- readdir h filePath ;;
            Ok (fold_left scanSub subEntries [])
       else Ok []) ;;
    let EXTENSION_ORDER :=
      [likelyExtension; ".tsx"; ".ts"; ".mjs"; ".cjs"; ".jsx"; ".js"] in
    if negb (String.eqb likelyExtension "")
       && StrSet.has anyExt (filename ++ likelyExtension)
    then Ok (filePath ++ likelyExtension)
    else if negb (String.eqb likelyExtension "")
            && StrSet.has subAnyExt ("index" ++ likelyExtension)
    then Ok (filePath ++ "/index" ++ likelyExtension)
    else
      match find (fun EXT => StrSet.has subAnyExt ("index" ++ EXT)) EXTENSION_ORDER with
      | Some EXT => Ok (filePath ++ "/index" ++ EXT)
      | None =>
      match find (fun EXT => StrSet.has anyExt (filename ++ EXT)) EXTENSION_ORDER with
      | Some EXT => Ok (filePath ++ EXT)
      | None =>
          if StrSet.has subAnyExt "index" then Ok (filePath ++ "/index")
          else if StrSet.size subAnyExt =? 1
          then Ok (filePath ++ "/index" ++ StrSet.firstValue subAnyExt)
          else if StrSet.size anyExt =? 1
          then Ok (filePath ++ StrSet.firstValue anyExt)
          else
            entryMethod <-
              identifier
                (scopeOfFindActualFilePath filePath likelyExtension dirname filename)
                "entryMethod" ;;
            Threw (Error ("Bad " ++ entryMethod ++ " target: could not resolve "
                          ++ relative h (cwd h) filePath))
      end
      end.

(* ================================================================= *)
(** ** DependencyExtractor: [readForDependencies] *)

Definition BUILTINS (h : Host) : StrSet.t := builtinModules h.

Definition isNodeBuiltin (h : Host) (dependency : value) : result bool :=
  d <- str "startsWith" dependency ;;
  if Js.startsWith d "node:" then Ok true
  else if String.eqb d "test" then Ok false
  else Ok (StrSet.has (BUILTINS h) d).

(** [tag] is the member expression [String.raw]. *)
Definition isStringRaw (tag : value) : result bool :=
  isStrR "MemberExpression" (Ok tag @. "type")
  &&& isStrR "Identifier" (Ok tag @. "object" @. "type")
  &&& isStrR "String" (Ok tag @. "object" @. "name")
  &&& isStrR "Identifier" (Ok tag @. "property" @. "type")
  &&& isStrR "raw" (Ok tag @. "property" @. "name").

(** [node.source && node.source.value], and the value when it holds. *)
Definition sourceValue (field : string) (node : value) : result (option value) :=
  source <- prop field node ;;
  if truthy source then
    v <- prop "value" source ;;
    Ok (if truthy v then Some v else None)
  else Ok None.

Definition pushDependency (o : option value) (method : string)
    (dependencies : list (value * string)) : list (value * string) :=
  match o with
  | Some v => (dependencies ++ [(v, method)])%list
  | None => dependencies
  end.

(** [c && node.type === "CallExpression" && c.type === "Identifier" &&
    c.name === "require"] for [c = node.callee] *)
Definition isRequire (node : value) : result bool :=
  if negb (truthy node) then Ok false
  else
    c <- prop "callee" node ;;
    Ok (truthy c) &&& isStrR "CallExpression" (prop "type" node)
    &&& isStrR "Identifier" (prop "type" c) &&& isStrR "require" (prop "name" c).

Definition isRequireMainRequire (node : value) : result bool :=
  callee <- prop "callee" node ;;
  Ok (truthy callee) &&& isStrR "CallExpression" (prop "type" node)
  &&& isStrR "MemberExpression" (Ok callee @. "type")
  &&& isStrR "MemberExpression" (Ok callee @. "object" @. "type")
  &&& isStrR "Identifier" (Ok callee @. "object" @. "object" @. "type")
  &&& isStrR "require" (Ok callee @. "object" @. "object" @. "name")
  &&& isStrR "Identifier" (Ok callee @. "object" @. "property" @. "type")
  &&& isStrR "main" (Ok callee @. "object" @. "property" @. "name")
  &&& isStrR "Identifier" (Ok callee @. "property" @. "type")
  &&& isStrR "require" (Ok callee @. "property" @. "name").

(** The visitor of [readForDependencies]. *)
Definition readDependency (node : value) (dependencies : list (value * string))
    : result (list (value * string)) :=
  ty <- prop "type" node ;;
  if isStr "ImportExpression" ty then
    o <- sourceValue "source" node ;; Ok (pushDependency o "import" dependencies)
  else if isStr "ImportDeclaration" ty then
    importKind <- prop "importKind" node ;;
    if isStr "type" importKind then Ok dependencies
    else o <- sourceValue "source" node ;; Ok (pushDependency o "import" dependencies)
  else if isStr "ExportNamedDeclaration" ty || isStr "ExportAllDeclaration" ty then
    o <- sourceValue "source" node ;; Ok (pushDependency o "import" dependencies)
  else if isStr "TSExternalModuleReference" ty then
    o <- sourceValue "expression" node ;; Ok (pushDependency o "import" dependencies)
  else if isStr "CallExpression" ty then
    arguments <- prop "arguments" node ;;
    if negb (truthy arguments) then Ok dependencies
    else
      n <- prop "length" arguments ;;
      match n with
      | VNum 0 => Ok dependencies
      | _ =>
          req <- isRequire node ;;
          if req then
            arg0 <- first arguments ;;
            type <- prop "type" arg0 ;;
            value <- prop "value" arg0 ;;
            quasis <- prop "quasis" arg0 ;;
            tag <- prop "tag" arg0 ;;
            quasi <- prop "quasi" arg0 ;;
            let result := VUndefined in
            let result :=
              if isStr "Literal" type || isStr "StringLiteral" type
              then value else result in
            result <-
              (if isStr "TemplateLiteral" type
               then first quasis @. "value" @. "cooked"
               else Ok result) ;;
            raw <- (Ok (isStr "TaggedTemplateExpression" type) &&& isStringRaw tag) ;;
            result <-
              (if raw
               then (qs <- prop "quasis" quasi ;; first qs @. "value" @. "cooked")
               else Ok result) ;;
            Ok (if truthy result then (dependencies ++ [(result, "require")])%list
                else dependencies)
          else
            rmr <- isRequireMainRequire node ;;
            if rmr then
              v <- first arguments @. "value" ;;
              Ok (dependencies ++ [(v, "require")])%list
            else Ok dependencies
      end
  else Ok dependencies.

Definition readForDependencies (ast : value) : result (list (value * string)) :=
  traverse readDependency ast [].

(* ================================================================= *)
(** ** ModuleGraphBuilder: the traversal of [build] *)

Record Frame := mkFrame {
  filePath : string;
  likelyExtension : string;
  entryMethod : string
}.

Record SourceFile := mkSourceFile {
  rawInputFile : string;
  inputFile : string;
  outputFormat : string
}.

Definition newline : string := String (ascii_of_nat 10) "".

(** [if (code.startsWith("#!")) code = code.slice(code.indexOf("\n") + 1)] *)
Definition stripShebang (code : string) : string :=
  if Js.startsWith code "#!"
  then Js.sliceFrom code (Js.indexOf code newline + 1)
  else code.

Definition isInternal (dependency : string) : bool :=
  Js.startsWith dependency "." || Js.startsWith dependency "/".

(** [a || b] on strings: the empty string is falsy. *)
Definition orElse (a b : string) : string :=
  if String.eqb a "" then b else a.

(** What one iteration of the [while] loop computes for a frame whose path
    has not been explored: steps 1 to 7 of the loop body. *)
Record Visit := mkVisit {
  actualFilePath : string;
  ast : value;
  pushed : list Frame;
  sourceFile : SourceFile
}.

Definition visit (h : Host) (frame : Frame) : result Visit :=
  (* 1. the call passes the path only *)
  actualFilePath <- findActualFilePath h (filePath frame) None ;;
  (* 2. *)
  actualFileString <- readFile h actualFilePath ;;
  (* 3. *)
  code <- transform h actualFileString
            ("typescript" :: (if Js.endsWith actualFilePath ".ts" then [] else ["jsx"]))
            actualFilePath ;;
  let code := stripShebang code in
  (* 4. *)
  ast <- parseModule h code ;;
  (* 5. *)
  found <- readForDependencies ast ;;
  kept <- filterM (fun d => b <- isNodeBuiltin h (fst d) ;; Ok (negb b)) found ;;
  dependencies <- mapM (fun d => s <- str "startsWith" (fst d) ;; Ok (s, snd d)) kept ;;
  (* 6. *)
  let pushed :=
    flat_map (fun d =>
      let '(dependency, entryMethod) := d in
      if isInternal dependency then
        let nextFilePath := Posix.resolve (cwd h) [actualFilePath; ".."; dependency] in
        [mkFrame nextFilePath
                 (orElse (Posix.extname nextFilePath) (likelyExtension frame))
                 entryMethod]
      else []) dependencies in
  let isESM := existsb (fun d => String.eqb (snd d) "import") dependencies in
  let outputFormat :=
    if String.eqb (entryMethod frame) "require"
       || (String.eqb (entryMethod frame) "entry" && negb isESM)
    then ".cjs" else ".mjs" in
  (* 7. *)
  Ok (mkVisit actualFilePath ast pushed
        (mkSourceFile (filePath frame) actualFilePath outputFormat)).

(** [Map.prototype.set] on a map kept as an association list. *)
Fixpoint mapSet {A : Type} (k : string) (x : A) (m : list (string * A))
    : list (string * A) :=
  match m with
  | [] => [(k, x)]
  | (k', y) :: m' =>
      if String.eqb k k' then (k, x) :: m' else (k', y) :: mapSet k x m'
  end.

Fixpoint mapGet {A : Type} (k : string) (m : list (string * A)) : option A :=
  match m with
  | [] => None
  | (k', y) :: m' => if String.eqb k k' then Some y else mapGet k m'
  end.

(** The variables of the loop.  [fileStack] holds the array in reverse: the
    head of the list is the last element of the array, the one [pop]
    removes. *)
Record BuildState := mkState {
  fileStack : list Frame;
  explored : StrSet.t;
  internalSourceFiles : list SourceFile;
  astCache : list (string * value)
}.

Definition firstFilePath (h : Host) (entryFilePath : string) : string :=
  Posix.resolve (cwd h) [cwd h; entryFilePath].

Definition initialState (h : Host) (entryFilePath : string) : BuildState :=
  let first := firstFilePath h entryFilePath in
  mkState [mkFrame first (Posix.extname first) "entry"] [] [] [].

(** The [while (fileStack.length > 0)] loop.  [None]: the loop has not
    finished after [fuel] iterations. *)
Fixpoint traverseFiles (fuel : nat) (h : Host) (st : BuildState)
    : option (result BuildState) :=
  match fuel with
  | O => None
  | S fuel' =>
      match fileStack st with
      | [] => Some (Ok st)
      | frame :: rest =>
          if StrSet.has (explored st) (filePath frame)
          then traverseFiles fuel' h
                 (mkState rest (explored st) (internalSourceFiles st) (astCache st))
          else
            match visit h frame with
            | Threw e => Some (Threw e)
            | Ok v =>
                traverseFiles fuel' h
                  (mkState (rev (pushed v) ++ rest)
                           (StrSet.add (explored st) (filePath frame))
                           (internalSourceFiles st ++ [sourceFile v])
                           (mapSet (filePath frame) (ast v) (astCache st)))
            end
      end
  end.


(** The raw paths of [U] that the traversal has not explored yet. *)
Definition unexplored (U : list string) (ex : StrSet.t) : list string :=
  filter (fun p => negb (StrSet.has ex p)) U.

(** [U] contains every raw path that a file reached through a path of [U]
    refers to. *)
Definition closedUnderDependencies (h : Host) (U : list string) : Prop :=
  forall frame v,
    In (filePath frame) U -> visit h frame = Ok v ->
    forall next, In next (pushed v) -> In (filePath next) U.

(** The invariant of the loop: the records follow the explored set, no raw
    path is recorded twice, and each record holds the resolution of its raw
    path. *)
Definition graphInvariant (h : Host) (st : BuildState) : Prop :=
  map rawInputFile (internalSourceFiles st) = explored st /\
  NoDup (explored st) /\
  forall f, In f (internalSourceFiles st) ->
    findActualFilePath h (rawInputFile f) None = Ok (inputFile f).

(* ================================================================= *)
(** ** ModuleTypeClassifier *)

Definition MODULE_ONLY_NODE_TYPE_SET : StrSet.t :=
  ["ExportAllDeclaration"; "ExportDefaultDeclaration"; "ExportNamedDeclaration";
   "ExportSpecifier"; "ImportAttribute"; "ImportDeclaration";
   "ImportDefaultSpecifier"; "ImportNamespaceSpecifier"; "ImportSpecifier"].

Definition typeIn (types : StrSet.t) (node : value) : bool :=
  match node with
  | VObj fields =>
      match lookup "type" fields with
      | VStr t => StrSet.has types t
      | _ => false
      end
  | _ => false
  end.

(** The visitor of [determineModuleTypeFromString]: the [switch] sets the
    flag on the nine node types of its [case] labels. *)
Definition foundExport (node : value) : bool :=
  typeIn ["ExportAllDeclaration"; "ExportDefaultDeclaration";
          "ExportNamedDeclaration"; "ExportSpecifier"; "ImportAttribute";
          "ImportDeclaration"; "ImportDefaultSpecifier";
          "ImportNamespaceSpecifier"; "ImportSpecifier"] node.

(** The two loops of the local [traverse] of
    [determineModuleTypeFromString]; [found] is the flag [hasFoundExport]. *)
Fixpoint untilFoundElements (rec : value -> bool -> bool) (l : list value)
    (found : bool) : bool :=
  match l with
  | [] => found
  | key :: l' =>
      untilFoundElements rec l' (if isObject key then rec key found else found)
  end.

Fixpoint untilFoundEntries (rec : value -> bool -> bool) (l : list (string * value))
    (found : bool) : bool :=
  match l with
  | [] => found
  | (key, child) :: l' =>
      untilFoundEntries rec l'
        (if String.eqb key "parent" || negb (truthy child) then found
         else rec child found)
  end.

(** The local [traverse] of [determineModuleTypeFromString], which returns
    at once when the flag is set, with the visitor that sets it. *)
Fixpoint traverseUntilFound (node : value) (hasFoundExport : bool) {struct node} : bool :=
  if hasFoundExport then true
  else
    match node with
    | VArr elems => untilFoundElements traverseUntilFound elems hasFoundExport
    | VObj fields => untilFoundEntries traverseUntilFound fields (foundExport node)
    | _ => hasFoundExport
    end.

Definition determineModuleTypeFromString (h : Host) (fileString : string)
    : result string :=
  ast <- parseModule h fileString ;;
  Ok (if traverseUntilFound ast false then ".mjs" else ".cjs").

Definition determineModuleTypeFromPath (h : Host) (dependencyEntryFilePath : string)
    : result string :=
  let lowercaseExtension := Js.sliceFrom (Js.toLowerCase dependencyEntryFilePath) (-4) in
  if String.eqb lowercaseExtension ".cjs" || String.eqb lowercaseExtension ".mjs"
  then Ok lowercaseExtension
  else
    fileString <- readFile h dependencyEntryFilePath ;;
    determineModuleTypeFromString h fileString.

(** [findNodeAt(ast, undefined, undefined, test)] of acorn-walk: with no
    position given it looks for a node of the tree whose type passes
    [test].  The nodes of the tree are its objects, met by a walk that
    descends into every field and array element. *)
Fixpoint findNodeAt (test : string -> bool) (node : value) {struct node} : bool :=
  match node with
  | VArr elems => existsb (findNodeAt test) elems
  | VObj fields =>
      (match lookup "type" fields with
       | VStr t => test t
       | _ => false
       end)
      || existsb (fun kv => findNodeAt test (snd kv)) fields
  | _ => false
  end.

(** [determineModuleType] of [lib/utils/utils.ts]; its [Method] is
    ["import"] or ["require"], and its parser is [parseModule]. *)
Definition determineModuleType (h : Host) (filePath : string) : result string :=
  let lowercaseExtension := Js.toLowerCase (Js.sliceFrom filePath (-4)) in
  if String.eqb lowercaseExtension ".mjs" || String.eqb lowercaseExtension ".mts"
  then Ok "import"
  else if String.eqb lowercaseExtension ".cjs" || String.eqb lowercaseExtension ".cts"
  then Ok "require"
  else
    text <- readFile h filePath ;;
    ast <- parseModule h text ;;
    Ok (if findNodeAt (StrSet.has MODULE_ONLY_NODE_TYPE_SET) ast
        then "import" else "require").

(** [typeOf node] is [node.type]. *)
Definition typeOf (node : value) : value :=
  match node with
  | VObj fields => lookup "type" fields
  | _ => VUndefined
  end.

(** [node] is an object of the tree [ast]. *)
Inductive nodeOf (node : value) : value -> Prop :=
| nodeOf_here fields : node = VObj fields -> nodeOf node (VObj fields)
| nodeOf_field k child fields :
    In (k, child) fields -> nodeOf node child -> nodeOf node (VObj fields)
| nodeOf_element child elems :
    In child elems -> nodeOf node child -> nodeOf node (VArr elems).

(** [node] is an object that [traverse] visits in the tree [ast]: it does
    not look below a field called [parent], nor into an array that is an
    element of an array. *)
Inductive visitedIn (node : value) : value -> Prop :=
| visitedIn_here fields : node = VObj fields -> visitedIn node (VObj fields)
| visitedIn_field k child fields :
    In (k, child) fields -> String.eqb k "parent" = false ->
    visitedIn node child -> visitedIn node (VObj fields)
| visitedIn_element child elems :
    In child elems -> isObject child = true ->
    visitedIn node child -> visitedIn node (VArr elems).

(** The tree holds a node of one of the module-only types. *)
Definition hasModuleOnlyNode (ast : value) : Prop :=
  exists node t, nodeOf node ast /\ typeOf node = VStr t /\
                 In t MODULE_ONLY_NODE_TYPE_SET.

(* ================================================================= *)
(** ** ImportRewriter: [updateImports] *)

Definition ensureMJS (dependencyPath : string) : string :=
  if Js.startsWith dependencyPath "." || Js.startsWith dependencyPath "/" then
    let ext := Posix.extname dependencyPath in
    if negb (String.eqb ext ".mjs") then dependencyPath ++ ".mjs"
    else dependencyPath
  else dependencyPath.

Definition ensureCJS (dependencyPath : string) : string :=
  if Js.startsWith dependencyPath "." || Js.startsWith dependencyPath "/" then
    let ext := Posix.extname dependencyPath in
    if negb (String.eqb ext ".cjs") then dependencyPath ++ ".cjs"
    else dependencyPath
  else dependencyPath.

Definition doubleQuote : string := String (ascii_of_nat 34) "".

(** The [raw] text of a literal: double quotes when the value contains a
    single quote, single quotes otherwise. *)
Definition quote (val : string) : string :=
  if Js.includes val "'" then doubleQuote ++ val ++ doubleQuote
  else "'" ++ val ++ "'".

Definition asLiteral (val : string) : value :=
  VObj [("type", VStr "Literal"); ("value", VStr val); ("raw", VStr (quote val))].

(** The one-element [quasis] array that replaces a template's segments. *)
Definition singleQuasi (val : string) : value :=
  VArr [VObj [("type", VStr "TemplateElement");
              ("value", VObj [("raw", VStr val); ("cooked", VStr val)]);
              ("tail", VBool true)]].

(** The receiver of an array method. *)
Definition arr (method : string) (v : value) : result (list value) :=
  match v with
  | VArr elems => Ok elems
  | VUndefined | VNull =>
      Threw (TypeError ("Cannot read properties of undefined (reading '" ++ method ++ "')"))
  | _ => Threw (TypeError (method ++ " is not a function"))
  end.

(** [a[0] = x], in strict mode *)
Definition setFirst (x : value) (a : value) : result value :=
  match a with
  | VArr (_ :: elems) => Ok (VArr (x :: elems))
  | VArr [] => Ok (VArr [x])
  | VObj fields => Ok (VObj (assign "0" x fields))
  | VUndefined | VNull =>
      Threw (TypeError "Cannot set properties of undefined (setting '0')")
  | VBool _ | VNum _ | VStr _ => Threw (TypeError "Cannot create property '0'")
  end.

(** What a promise pushed by the [ImportDeclaration] case keeps from the
    visit that created it, besides the node itself. *)
Record Promise := mkPromise {
  promisedValue : string;
  promisedDefaultImport : value;
  promisedNamedImports : list (value * value)
}.

(** [specifiers.find((node) => !node.imported)?.local?.name] *)
Fixpoint findDefaultImport (specifiers : list value) : result value :=
  match specifiers with
  | [] => Ok VUndefined
  | node :: rest =>
      imported <- prop "imported" node ;;
      if negb (truthy imported) then
        local <- prop "local" node ;;
        if nullish local then Ok VUndefined else prop "name" local
      else findDefaultImport rest
  end.

(** [specifiers.filter((node) => node.imported)
              .map(({ local, imported }) => [imported.name, local.name])] *)
Definition findNamedImports (specifiers : list value) : result (list (value * value)) :=
  named <- filterM (fun node => truthyR (prop "imported" node)) specifiers ;;
  mapM (fun node =>
          local <- prop "local" node ;;
          imported <- prop "imported" node ;;
          key <- prop "name" imported ;;
          value <- prop "name" local ;;
          Ok (key, value)) named.

(** [node.source = { type: "Literal", value, raw }] *)
Definition setSourceLiteral (val : string) (node : value) : result value :=
  setProp "source"
    (VObj [("type", VStr "Literal"); ("value", VStr val); ("raw", VStr (quote val))])
    node.

(** [value = ensure(template.quasis[0].value.cooked)] followed by
    [template.quasis = [{ type: "TemplateElement", ... }]] *)
Definition replaceQuasis (ensure : string -> string) (template : value)
    : result value :=
  quasis <- prop "quasis" template ;;
  cooked <- first quasis @. "value" @. "cooked" ;;
  s <- str "startsWith" cooked ;;
  setProp "quasis" (singleQuasi (ensure s)) template.

(** The same on [tagged.quasi], for a [String.raw] template. *)
Definition replaceRawQuasis (ensure : string -> string) (tagged : value)
    : result value :=
  quasi <- prop "quasi" tagged ;;
  quasi <- replaceQuasis ensure quasi ;;
  setProp "quasi" quasi tagged.

(** [v.type === "TaggedTemplateExpression"] and [v.tag] is [String.raw]. *)
Definition isStringRawTemplate (v : value) : result bool :=
  isStrR "TaggedTemplateExpression" (prop "type" v)
  &&& (tag <- prop "tag" v ;; isStringRaw tag).

(** The case ["ImportExpression"] of the visitor. *)
Definition updateImportExpression (node : value) : result value :=
  source <- prop "source" node ;;
  if truthy source then
    sv <- prop "value" source ;;
    if truthy sv then
      s <- str "startsWith" sv ;;
      setProp "source" (asLiteral (ensureMJS s)) node
    else
      quasis <- prop "quasis" source ;;
      if truthy quasis then
        source <- replaceQuasis ensureMJS source ;;
        setProp "source" source node
      else
        raw <- isStringRawTemplate source ;;
        if raw then
          source <- replaceRawQuasis ensureMJS source ;;
          setProp "source" source node
        else Ok node
  else Ok node.

(** The case ["ImportDeclaration"]: the node with its source rewritten, and
    the promise pushed when the declaration imports names from an external
    dependency. *)
Definition updateImportDeclaration (h : Host) (node : value)
    : result (value * option Promise) :=
  importKind <- prop "importKind" node ;;
  if isStr "type" importKind then Ok (node, None)
  else
    o <- sourceValue "source" node ;;
    match o with
    | None => Ok (node, None)
    | Some sv =>
        specifiers <- prop "specifiers" node ;;
        specs <- arr "find" specifiers ;;
        defaultImport <- findDefaultImport specs ;;
        namedImports <- findNamedImports specs ;;
        s <- str "startsWith" sv ;;
        let value := ensureMJS s in
        internalOrBuiltin <-
          (if Js.startsWith value "." || Js.startsWith value "/" then Ok true
           else isNodeBuiltin h (VStr value)) ;;
        let isExternalDependency := negb internalOrBuiltin in
        let promise :=
          if (0 <? Z.of_nat (List.length namedImports)) && isExternalDependency
          then Some (mkPromise value defaultImport namedImports)
          else None in
        node <- setSourceLiteral value node ;;
        Ok (node, promise)
    end.

(** The cases ["ExportNamedDeclaration"] and ["ExportAllDeclaration"]. *)
Definition updateExportDeclaration (node : value) : result value :=
  o <- sourceValue "source" node ;;
  match o with
  | None => Ok node
  | Some sv =>
      s <- str "startsWith" sv ;;
      setSourceLiteral (ensureMJS s) node
  end.

(** The three [if] statements of the case ["CallExpression"], each on the
    argument list the one before it leaves. *)
Definition literalArgument (arguments : value) : result value :=
  arg0 <- first arguments ;;
  type <- prop "type" arg0 ;;
  if isStr "Literal" type || isStr "StringLiteral" type then
    v <- prop "value" arg0 ;;
    s <- str "startsWith" v ;;
    setFirst (asLiteral (ensureMJS s)) arguments
  else Ok arguments.

Definition templateArgument (arguments : value) : result value :=
  arg0 <- first arguments ;;
  type <- prop "type" arg0 ;;
  if isStr "TemplateLiteral" type then
    arg0 <- replaceQuasis ensureCJS arg0 ;;
    setFirst arg0 arguments
  else Ok arguments.

Definition rawTemplateArgument (arguments : value) : result value :=
  arg0 <- first arguments ;;
  raw <- isStringRawTemplate arg0 ;;
  if raw then
    arg0 <- replaceRawQuasis ensureMJS arg0 ;;
    setFirst arg0 arguments
  else Ok arguments.

(** The case ["CallExpression"]. *)
Definition updateCallExpression (node : value) : result value :=
  req <- isRequire node ;;
  arguments <- prop "arguments" node ;;
  length0 <- (if req && truthy arguments
              then n <- prop "length" arguments ;;
                   Ok (match n with VNum 0 => true | _ => false end)
              else Ok false) ;;
  if negb req || negb (truthy arguments) || length0 then Ok node
  else
    arguments <- literalArgument arguments ;;
    arguments <- templateArgument arguments ;;
    arguments <- rawTemplateArgument arguments ;;
    setProp "arguments" arguments node.

(** The visitor of [updateImports]: the node after the visit, and the
    promise the visit pushed, if any. *)
Definition updateNode (h : Host) (node : value) : result (value * option Promise) :=
  ty <- prop "type" node ;;
  if isStr "ImportExpression" ty then
    node <- updateImportExpression node ;; Ok (node, None)
  else if isStr "ImportDeclaration" ty then
    updateImportDeclaration h node
  else if isStr "ExportNamedDeclaration" ty || isStr "ExportAllDeclaration" ty then
    node <- updateExportDeclaration node ;; Ok (node, None)
  else if isStr "CallExpression" ty then
    node <- updateCallExpression node ;; Ok (node, None)
  else Ok (node, None).

(** Where a node sits below another: through a field or an array index.
    A promise refers to the node that pushed it; in the tree that reference
    is the node's position. *)
Inductive step : Type :=
| SKey (k : string)
| SIdx (i : nat).

Definition stepEqb (a b : step) : bool :=
  match a, b with
  | SKey k, SKey k' => String.eqb k k'
  | SIdx i, SIdx i' => Nat.eqb i i'
  | _, _ => false
  end.

Definition path := list step.

Definition prefixed {A : Type} (s : step) (ps : list (path * A)) : list (path * A) :=
  map (fun p => (s :: fst p, snd p)) ps.

(** The promises that refer into the child at [s], relative to it. *)
Definition select {A : Type} (s : step) (ps : list (path * A)) : list (path * A) :=
  flat_map (fun p =>
    match fst p with
    | s' :: rest => if stepEqb s s' then [(rest, snd p)] else []
    | [] => []
    end) ps.

(** The promise that refers to the node itself. *)
Definition own {A : Type} (ps : list (path * A)) : option A :=
  match find (fun p => match fst p with [] => true | _ => false end) ps with
  | Some p => Some (snd p)
  | None => None
  end.

Definition bindF {A B : Type} (r : option (result A))
    (k : A -> option (result B)) : option (result B) :=
  match r with
  | None => None
  | Some (Threw e) => Some (Threw e)
  | Some (Ok a) => k a
  end.

Definition Promises := list (path * Promise).

(** The [for (const key of node)] loop of [traverse] on an array. *)
Fixpoint eachElement (rec : value -> option (result (value * Promises)))
    (i : nat) (l : list value) : option (result (list value * Promises)) :=
  match l with
  | [] => Some (Ok ([], []))
  | key :: l' =>
      bindF (if isObject key then rec key else Some (Ok (key, [])))
        (fun r =>
           bindF (eachElement rec (S i) l')
             (fun rs =>
                Some (Ok (fst r :: fst rs,
                          (prefixed (SIdx i) (snd r) ++ snd rs)%list))))
  end.

(** The [for (const [key, value] of Object.entries(node))] loop. *)
Fixpoint eachEntry (rec : value -> option (result (value * Promises)))
    (l : list (string * value)) : option (result (list (string * value) * Promises)) :=
  match l with
  | [] => Some (Ok ([], []))
  | (key, child) :: l' =>
      bindF (if String.eqb key "parent" || negb (truthy child)
             then Some (Ok (child, []))
             else rec child)
        (fun r =>
           bindF (eachEntry rec l')
             (fun rs =>
                Some (Ok ((key, fst r) :: fst rs,
                          (prefixed (SKey key) (snd r) ++ snd rs)%list))))
  end.

(** [traverse(ast, perNode)] with the visitor of [updateImports].  The
    visitor changes the node before its entries are walked, so the walk
    continues in the node the visitor leaves; [fuel] bounds the depth of the
    recursion and [None] means that it was not enough.  The result is the
    tree after the walk with the promises pushed, in the order of the
    pushes. *)
Fixpoint rewriteTree (fuel : nat) (h : Host) (node : value) {struct fuel}
    : option (result (value * Promises)) :=
  match fuel with
  | O => None
  | S fuel' =>
      match node with
      | VArr elems =>
          bindF (eachElement (rewriteTree fuel' h) 0%nat elems)
            (fun r => Some (Ok (VArr (fst r), snd r)))
      | VObj _ =>
          match updateNode h node with
          | Threw e => Some (Threw e)
          | Ok (VObj fields, pushedPromise) =>
              bindF (eachEntry (rewriteTree fuel' h) fields)
                (fun r =>
                   Some (Ok (VObj (fst r),
                             (match pushedPromise with
                              | Some p => [([], p)]
                              | None => []
                              end ++ snd r)%list)))
          | Ok (node', _) => Some (Ok (node', []))
          end
      | _ => Some (Ok (node, []))
      end
  end.

(** The node types that have a case in the visitor of [updateImports]. *)
Definition visitedTypes : StrSet.t :=
  ["ImportExpression"; "ImportDeclaration"; "ExportNamedDeclaration";
   "ExportAllDeclaration"; "CallExpression"].

(** No node of the tree has a case in the visitor. *)
Fixpoint inert (v : value) : bool :=
  match v with
  | VArr elems => forallb inert elems
  | VObj fields =>
      negb (typeIn visitedTypes v) && forallb (fun kv => inert (snd kv)) fields
  | _ => true
  end.

Fixpoint weight (v : value) : nat :=
  match v with
  | VArr elems => S (list_sum (map weight elems))
  | VObj fields => S (list_sum (map (fun kv => weight (snd kv)) fields))
  | _ => 0
  end.

Definition weightOfFields (fields : list (string * value)) : nat :=
  list_sum (map (fun kv => weight (snd kv)) fields).

(** Every promise of [ps] refers into an element with an index from [lo]
    up to, not including, [hi]. *)
Definition indexedWithin {A : Type} (lo hi : nat) (ps : list (path * A)) : Prop :=
  Forall (fun p => exists k rest, fst p = SIdx k :: rest /\ (lo <= k < hi)%nat) ps.

(** Gives each promise its rank in the order of the pushes. *)
Fixpoint numbered {A : Type} (i : nat) (ps : list (path * A)) : list (path * (nat * A)) :=
  match ps with
  | [] => []
  | (p, a) :: ps' => (p, (i, a)) :: numbered (S i) ps'
  end.

Definition identifierNode (name : value) : value :=
  VObj [("type", VStr "Identifier"); ("name", name)].

(** The declaration [const { ...namedImports } = uniqueID] built by the
    promise's last callback. *)
Definition destructuring (namedImports : list (value * value)) (uniqueID : value) : value :=
  VObj [("type", VStr "VariableDeclaration");
        ("declarations",
         VArr [VObj [("type", VStr "VariableDeclarator");
                     ("id", VObj [("type", VStr "ObjectPattern");
                                  ("properties",
                                   VArr (map (fun kv =>
                                     VObj [("type", VStr "Property");
                                           ("key", identifierNode (fst kv));
                                           ("computed", VBool false);
                                           ("value", identifierNode (snd kv));
                                           ("kind", VStr "init");
                                           ("method", VBool false);
                                           ("shorthand", VBool true)]) namedImports))]);
                     ("init", identifierNode uniqueID)]]);
        ("kind", VStr "const")].

Definition defaultSpecifiers (uniqueID : value) : value :=
  VArr [VObj [("type", VStr "ImportDefaultSpecifier");
              ("local", identifierNode uniqueID)]].

(** [defaultImport ?? `xnr_${randomUUID().slice(-12)}`] *)
Definition uniqueIDOf (h : Host) (rank : nat) (defaultImport : value) : value :=
  if nullish defaultImport
  then VStr ("xnr_" ++ Js.sliceFrom (randomUUID h rank) (-12))
  else defaultImport.

(** The chain of callbacks of one promise up to the test
    [dependencyModuleType === ".cjs"]: the new specifiers of the import and
    the declaration to splice in after it, when the dependency is
    dynamic-format. *)
Definition settled (h : Host) (np : nat * Promise) : result (option (value * value)) :=
  let '(rank, p) := np in
  dependencyEntryFilePath <- importMetaResolve h (promisedValue p) ;;
  dependencyModuleType <- determineModuleTypeFromPath h dependencyEntryFilePath ;;
  if String.eqb dependencyModuleType ".cjs" then
    let uniqueID := uniqueIDOf h rank (promisedDefaultImport p) in
    Ok (Some (defaultSpecifiers uniqueID,
              destructuring (promisedNamedImports p) uniqueID))
  else Ok None.

Definition NumberedPromises := list (path * (nat * Promise)).

(** The callback of the promise that refers to an element of an array:
    [index] is never [-1] for a node found in place, the node's specifiers
    are replaced and the declaration is spliced in at [index + 1]. *)
Definition spliceAfter (h : Host) (promise : option (nat * Promise)) (key : value)
    : result (list value) :=
  match promise with
  | Some np =>
      r <- settled h np ;;
      match r with
      | Some (specifiers, cjs) =>
          key <- setProp "specifiers" specifiers key ;;
          Ok [key; cjs]
      | None => Ok [key]
      end
  | None => Ok [key]
  end.

(** The callback of a promise that refers to the value of a field: the
    node's parent is an object, which has no [indexOf]. *)
Definition noIndexOf (h : Host) (promise : option (nat * Promise)) (child : value)
    : result value :=
  match promise with
  | Some np =>
      r <- settled h np ;;
      match r with
      | Some _ => Threw (TypeError "node.parent.indexOf is not a function")
      | None => Ok child
      end
  | None => Ok child
  end.

Fixpoint settleElements (rec : NumberedPromises -> value -> result value)
    (h : Host) (ps : NumberedPromises) (i : nat) (l : list value)
    : result (list value) :=
  match l with
  | [] => Ok []
  | key :: l' =>
      let sub := select (SIdx i) ps in
      key <- rec sub key ;;
      out <- spliceAfter h (own sub) key ;;
      rest <- settleElements rec h ps (S i) l' ;;
      Ok (out ++ rest)%list
  end.

Fixpoint settleEntries (rec : NumberedPromises -> value -> result value)
    (h : Host) (ps : NumberedPromises) (l : list (string * value))
    : result (list (string * value)) :=
  match l with
  | [] => Ok []
  | (key, child) :: l' =>
      let sub := select (SKey key) ps in
      child <- rec sub child ;;
      child <- noIndexOf h (own sub) child ;;
      rest <- settleEntries rec h ps l' ;;
      Ok ((key, child) :: rest)
  end.

(** [await Promise.all(promises)]: every promise has run its callbacks.
    The callback finds its node in [node.parent] with [indexOf], replaces
    the node's specifiers and splices the declaration in at [index + 1];
    here the node is found by its position. *)
Fixpoint settle (h : Host) (ps : NumberedPromises) (node : value) {struct node}
    : result value :=
  match node with
  | VArr elems =>
      elems' <- settleElements (settle h) h ps 0%nat elems ;;
      Ok (VArr elems')
  | VObj fields =>
      fields' <- settleEntries (settle h) h ps fields ;;
      Ok (VObj fields')
  | _ => Ok node
  end.

(** The tree that [updateImports] hands to [generate]. *)
Definition updateImportsTree (h : Host) (ast : value) : option (result value) :=
  bindF (rewriteTree (S (weight ast)) h ast)
    (fun r =>
       let ps := numbered 0 (snd r) in
       Some (tree <- settle h ps (fst r) ;;
             match own ps with
             | Some np =>
                 r <- settled h np ;;
                 match r with
                 | Some _ =>
                     Threw (TypeError "Cannot read properties of undefined (reading 'indexOf')")
                 | None => Ok tree
                 end
             | None => Ok tree
             end)).

Definition updateImports (h : Host) (ast : value) : option (result string) :=
  bindF (updateImportsTree h ast) (fun tree => Some (Ok (generate h tree))).

(* ================================================================= *)
(** ** OutputPathPlanner and the second half of [build] *)

(** The loop that finds the common root.  [None]: not finished after
    [fuel] iterations. *)
Fixpoint findCommonRoot (fuel : nat) (commonRootPath : string)
    (files : list SourceFile) : option string :=
  match fuel with
  | O => None
  | S fuel' =>
      if String.eqb commonRootPath "/" then Some commonRootPath
      else
        let commonRootPath := Posix.join [commonRootPath; ".."] in
        let ensureSlash := commonRootPath ++ "/" in
        let areAllFilePathsDescendants :=
          forallb (fun f => Js.startsWith (inputFile f) ensureSlash) files in
        if areAllFilePathsDescendants then Some commonRootPath
        else findCommonRoot fuel' commonRootPath files
  end.

(** The path a source file is written to. *)
Definition outputFilePathOf (outputDirectory commonRootPath : string)
    (f : SourceFile) : string :=
  let outputPath :=
    outputDirectory ++ "/" ++ Js.sliceFrom (inputFile f) (Js.len commonRootPath + 1) in
  let ext := Posix.extname outputPath in
  let outputPath :=
    if negb (String.eqb ext (outputFormat f))
    then Js.slice outputPath 0 (Js.len outputPath - Js.len ext) ++ outputFormat f
    else outputPath in
  Posix.join [outputDirectory; outputPath].

Definition preludeOf (outputFormat newFile : string) : string :=
  if String.eqb outputFormat ".mjs" && negb (Js.includes newFile "createRequire")
  then "import { createRequire } from 'node:module';" ++ newline ++
       "const require = createRequire(import.meta.url);" ++ newline
  else "#!/usr/bin/env node" ++ newline.

(** One task of the [Promise.all] over [internalSourceFiles]: the file
    written and its text. *)
Definition emitFile (h : Host) (outputDirectory commonRootPath : string)
    (cache : list (string * value)) (f : SourceFile)
    : option (result (string * string)) :=
  let cached := match mapGet (rawInputFile f) cache with
                | Some a => a
                | None => VUndefined
                end in
  bindF (updateImports h cached)
    (fun newFile =>
       Some (Ok (outputFilePathOf outputDirectory commonRootPath f,
                 preludeOf (outputFormat f) newFile ++ newFile))).

Fixpoint emitAll (h : Host) (outputDirectory commonRootPath : string)
    (cache : list (string * value)) (files : list SourceFile)
    : option (result (list (string * string))) :=
  match files with
  | [] => Some (Ok [])
  | f :: files' =>
      bindF (emitFile h outputDirectory commonRootPath cache f)
        (fun w =>
           bindF (emitAll h outputDirectory commonRootPath cache files')
             (fun ws => Some (Ok (w :: ws))))
  end.

(** What a finished build leaves behind: the module graph, the common root
    and the files written, one per record of the graph and in its order.
    The output directory is removed and created anew before the first
    write, so these files are all it holds. *)
Record Built := mkBuilt {
  graph : list SourceFile;
  commonRoot : string;
  written : list (string * string)
}.

(** [build(entryFilePath, outputDirectory)]; [outputDirectoryArg] is [None]
    when the caller leaves the directory to its default. *)
Definition build (fuel : nat) (h : Host) (entryFilePath : string)
    (outputDirectoryArg : option string) : option (result Built) :=
  let outputDirectory :=
    match outputDirectoryArg with
    | Some d => d
    | None => Posix.join [cwd h; ".jbuild"]
    end in
  bindF (traverseFiles fuel h (initialState h entryFilePath))
    (fun st =>
       let first := firstFilePath h entryFilePath in
       match findCommonRoot (S (String.length first)) first (internalSourceFiles st) with
       | None => None
       | Some commonRootPath =>
           bindF (emitAll h outputDirectory commonRootPath (astCache st)
                    (internalSourceFiles st))
             (fun ws => Some (Ok (mkBuilt (internalSourceFiles st) commonRootPath ws)))
       end).

(** The same host with another source of UUIDs: a second run of the
    program on an unchanged file system. *)
Definition withRandomUUID (h : Host) (uuid : nat -> string) : Host :=
  mkHost (cwd h) (lstat h) (readdir h) (readFile h) (builtinModules h)
         (transform h) (parseModule h) (generate h) (importMetaResolve h)
         uuid (relative h).

(** The promise needs no generated identifier: it has a default local
    name, or its dependency does not classify as dynamic-format. *)
Definition suppliesName (h : Host) (p : Promise) : Prop :=
  nullish (promisedDefaultImport p) = true ->
  forall entry, importMetaResolve h (promisedValue p) = Ok entry ->
                determineModuleTypeFromPath h entry <> Ok ".cjs".

Definition allSupplyNames (h : Host) (ps : NumberedPromises) : Prop :=
  Forall (fun p => suppliesName h (snd (snd p))) ps.

(** No promise pushed by the rewrite of [ast] needs a generated
    identifier. *)
Definition needsNoGeneratedName (h : Host) (ast : value) : Prop :=
  forall r, rewriteTree (S (weight ast)) h ast = Some (Ok r) ->
            Forall (fun p => suppliesName h (snd p)) (snd r).

(* ================================================================= *)
(** ** Shapes of the parser's tree

    The nodes that the statements below are about, with the fields the
    parser gives them. *)

Module Estree.

Definition program (body : list value) : value :=
  VObj [("type", VStr "Program"); ("body", VArr body); ("sourceType", VStr "module")].

Definition literal (s : string) : value := asLiteral s.

Definition ident (s : string) : value := identifierNode (VStr s).

(** [import <specifiers> from '<source>';] *)
Definition importDeclaration (specifiers : list value) (source : string) : value :=
  VObj [("type", VStr "ImportDeclaration"); ("specifiers", VArr specifiers);
        ("source", literal source)].

(** [imported as local] between the braces of an import *)
Definition importSpecifier (names : string * string) : value :=
  VObj [("type", VStr "ImportSpecifier"); ("local", ident (snd names));
        ("imported", ident (fst names))].

Definition importDefaultSpecifier (local : string) : value :=
  VObj [("type", VStr "ImportDefaultSpecifier"); ("local", ident local)].

(** The specifiers of [import local, { named... } from '...'], the
    default binding being optional. *)
Definition specifiersOf (default : option string) (named : list (string * string))
    : list value :=
  (match default with
   | Some local => [importDefaultSpecifier local]
   | None => []
   end ++ map importSpecifier named)%list.

(** [import local, { named... } from '<source>';] *)
Definition importOf (default : option string) (named : list (string * string))
    (source : string) : value :=
  importDeclaration (specifiersOf default named) source.

(** What the visitor reads off that declaration: the default local name
    and the named bindings. *)
Definition defaultValue (default : option string) : value :=
  match default with
  | Some local => VStr local
  | None => VUndefined
  end.

Definition namedValues (named : list (string * string)) : list (value * value) :=
  map (fun n => (VStr (fst n), VStr (snd n))) named.

(** [const { named... } = uniqueID;] *)
Definition destructuringOf (named : list (string * string)) (uniqueID : string) : value :=
  destructuring (namedValues named) (VStr uniqueID).

(** The promise the visit of the declaration pushes. *)
Definition promiseOf (default : option string) (named : list (string * string))
    (source : string) : option Promise :=
  match named with
  | [] => None
  | _ => Some (mkPromise source (defaultValue default) (namedValues named))
  end.

Definition ownPromise (p : option Promise) : Promises :=
  match p with
  | Some p => [([], p)]
  | None => []
  end.

End Estree.

(* ================================================================= *)
(** ** The rest of [lib/utils/utils.ts]

    [getKnownExt] asks [node:path] for the extension; on the platforms where
    the build runs that module is the POSIX one modelled above. *)

Definition KNOWN_EXT_SET : StrSet.t :=
  ["js"; "ts"; "jsx"; "tsx"; "cjs"; "cts"; "mjs"; "mts"].

Definition getKnownExt (filePath : string) : option string :=
  let ext := Js.toLowerCase (Js.sliceFrom (Posix.extname filePath) 1) in
  if StrSet.has KNOWN_EXT_SET ext then Some ext else None.

(* ================================================================= *)
(** ** Vocabulary of the statements about the helpers *)

(** Every character of [s] passes [f]. *)
Fixpoint allChars (f : ascii -> bool) (s : string) : bool :=
  match s with
  | EmptyString => true
  | String c s' => f c && allChars f s'
  end.

(** A character that is neither a slash nor a dot. *)
Definition plain (c : ascii) : bool :=
  negb (Ascii.eqb c Posix.slash) && negb (Ascii.eqb c Posix.dot).

(** [entries] lists a file called [n]. *)
Definition listsFile (entries : list Dirent) (n : string) : bool :=
  existsb (fun d => isFile d && String.eqb (name d) n) entries.

(** [entries] lists a directory called [n]. *)
Definition listsDirectory (entries : list Dirent) (n : string) : bool :=
  existsb (fun d => negb (isFile d) && isDirectory d && String.eqb (name d) n) entries.

(** The test of the first loop of [findActualFilePath] on the name [n] of
    an entry: [n === filename || n.startsWith(filename + ".")]. *)
Definition isCandidate (filename n : string) : bool :=
  String.eqb n filename || Js.startsWith n (filename ++ ".").

(** [filePath.slice(dirname.length + 1)], the [filename] of
    [findActualFilePath]. *)
Definition filenameOf (filePath : string) : string :=
  Js.sliceFrom filePath (Js.len (Posix.dirname filePath) + 1).

(** [EXTENSION_ORDER] of [findActualFilePath] when it is given no hint:
    the hint's place is taken by the empty string. *)
Definition EXTENSION_ORDER : list string :=
  [""; ".tsx"; ".ts"; ".mjs"; ".cjs"; ".jsx"; ".js"].

(** A step on a list that only appends to it, or throws whatever the list
    is. *)
Definition appends {A : Type} (f : list A -> result (list A)) : Prop :=
  (exists delta, forall l, f l = Ok (l ++ delta)%list) \/
  (exists e, forall l, f l = Threw e).

(** The visitor of [determineModuleTypeFromString], as a visitor of the
    shared [traverse]: the flag is set at a node of one of the nine
    types. *)
Definition setFoundExport (node : value) (hasFoundExport : bool) : result bool :=
  Ok (hasFoundExport || foundExport node).

(** The record [f] of the graph holds what the visit of its raw path gave,
    and [cache] holds the tree of that visit under the raw path. *)
Definition recordedWithTree (h : Host) (cache : list (string * value)) (f : SourceFile)
    : Prop :=
  exists frame v,
    filePath frame = rawInputFile f /\ visit h frame = Ok v /\
    sourceFile v = f /\ mapGet (rawInputFile f) cache = Some (ast v).

(** More shapes of the parser's tree. *)
Module Expression.

(** [<expression>;] *)
Definition statement (expression : value) : value :=
  VObj [("type", VStr "ExpressionStatement"); ("expression", expression)].

(** [import(<source>)] *)
Definition importExpression (source : value) : value :=
  VObj [("type", VStr "ImportExpression"); ("source", source)].

(** [`<text>`], a template without substitutions *)
Definition templateOf (text : string) : value :=
  VObj [("type", VStr "TemplateLiteral"); ("quasis", singleQuasi text);
        ("expressions", VArr [])].

(** [<object>.<property>] *)
Definition member (object property : value) : value :=
  VObj [("type", VStr "MemberExpression"); ("computed", VBool false);
        ("object", object); ("property", property)].

(** [require.main.require(<arguments>)] *)
Definition requireMainRequire (arguments : list value) : value :=
  VObj [("type", VStr "CallExpression");
        ("callee",
         member (member (Estree.ident "require") (Estree.ident "main"))
                (Estree.ident "require"));
        ("arguments", VArr arguments)].

(** A numeric literal *)
Definition number (n : Z) (raw : string) : value :=
  VObj [("type", VStr "Literal"); ("value", VNum n); ("raw", VStr raw)].

End Expression.

(* ================================================================= *)
(** ** Paths as names *)

(** Paths as lists of names, to state what [normalizeString] computes
    when it may not climb above the root. *)
Module Names.

Definition notSlash (c : ascii) : bool := negb (Ascii.eqb c Posix.slash).
Definition isDot (c : ascii) : bool := Ascii.eqb c Posix.dot.

(** A segment that names an entry: not empty, not [.] and not [..], and
    without a slash. *)
Definition isName (seg : string) : bool :=
  negb (String.eqb seg "") && negb (String.eqb seg ".") && negb (String.eqb seg "..")
  && allChars notSlash seg.

(** The names of a path from the root, the last one first, after one more
    segment: [.] and the empty segment change nothing, [..] drops the last
    name if there is one, a name is added. *)
Definition walk (names : list string) (seg : string) : list string :=
  if String.eqb seg "" || String.eqb seg "." then names
  else if String.eqb seg ".." then tl names
  else seg :: names.

(** The names after the characters of [s], from the names [names] and the
    segment [cur] begun before [s]. *)
Fixpoint walkChars (s : string) (names : list string) (cur : string) : list string :=
  match s with
  | EmptyString => walk names cur
  | String c s' =>
      if Ascii.eqb c Posix.slash then walkChars s' (walk names cur) ""
      else walkChars s' names (cur ++ String c "")
  end.

(** The names, the last one first, written with slashes between them. *)
Fixpoint render (names : list string) : string :=
  match names with
  | [] => ""
  | x :: rest =>
      match rest with
      | [] => x
      | _ :: _ => render rest ++ "/" ++ x
      end
  end.

(** The value of [dots] while the segment [cur] is read. *)
Definition dotsOf (cur : string) : Z :=
  if allChars isDot cur then Js.len cur else -1.

(** The state of the loop of [normalizeString] after the characters [pre],
    of which [cur] is the segment begun, with the names [names] found. *)
Record tracks (pre cur : string) (names : list string) (st : Posix.nsState) : Prop := {
  tracks_res : Posix.res st = render names;
  tracks_names : forallb isName names = true;
  tracks_length : Posix.lastSegmentLength st = Js.len (hd "" names);
  tracks_slash : Posix.lastSlash st = Js.len pre - Js.len cur - 1;
  tracks_dots : Posix.dots st = dotsOf cur;
  tracks_cur : exists u, pre = u ++ cur;
  tracks_plain : allChars notSlash cur = true
}.

End Names.

(* ================================================================= *)
(** ** Concrete hosts

    Small file systems with the trees the parser gives for their files,
    used to run the build.  The transformer leaves the text as it is, the
    printer is a plain serialization of the tree. *)

Module Sample.

Import Estree.

Definition file (n : string) : Dirent := mkDirent n true false.
Definition directory (n : string) : Dirent := mkDirent n false true.

Fixpoint assoc {A : Type} (k : string) (l : list (string * A)) : option A :=
  match l with
  | [] => None
  | (k', a) :: l' => if String.eqb k k' then Some a else assoc k l'
  end.

Fixpoint show (v : value) : string :=
  match v with
  | VUndefined => "undefined"
  | VNull => "null"
  | VBool true => "true"
  | VBool false => "false"
  | VNum n => NilZero.string_of_int (Z.to_int n)
  | VStr s => "<" ++ s ++ ">"
  | VArr elems => "[" ++ String.concat "," (map show elems) ++ "]"
  | VObj fields =>
      "{" ++ String.concat "," (map (fun kv => fst kv ++ ":" ++ show (snd kv)) fields) ++ "}"
  end.

(** A host over the files [files] (path and text), the directories [dirs]
    (path and entries), the parses [trees] (text and tree) and the installed
    packages [packages] (specifier and entry file). *)
Definition host (files : list (string * string)) (dirs : list (string * list Dirent))
    (trees : list (string * value)) (packages : list (string * string))
    (uuid : nat -> string) : Host :=
  mkHost "/w"
    (fun p => match assoc p files, assoc p dirs with
              | Some _, _ => Ok true
              | None, Some _ => Ok false
              | None, None => Threw (SystemError "ENOENT" p)
              end)
    (fun p => match assoc p dirs with
              | Some entries => Ok entries
              | None => Threw (SystemError "ENOENT" p)
              end)
    (fun p => match assoc p files with
              | Some text => Ok text
              | None => Threw (SystemError "ENOENT" p)
              end)
    ["fs"; "path"; "module"]
    (fun code _ _ => Ok code)
    (fun text => match assoc text trees with
                 | Some tree => Ok tree
                 | None => Threw (HostError "Unexpected token")
                 end)
    show
    (fun specifier => match assoc specifier packages with
                      | Some entry => Ok entry
                      | None => Threw (HostError "ERR_MODULE_NOT_FOUND")
                      end)
    uuid
    (fun _ to => to).

Definition uuidA (_ : nat) : string := "3f2b8c1e-7a4d-4e9b-8c2f-0123456789ab".
Definition uuidB (_ : nat) : string := "9d1c7e2a-5b3f-4a8c-9e1d-ba9876543210".

(** [<callee>(<arguments>);] *)
Definition callStatement (callee : value) (arguments : list value) : value :=
  VObj [("type", VStr "ExpressionStatement");
        ("expression",
         VObj [("type", VStr "CallExpression"); ("callee", callee);
               ("arguments", VArr arguments); ("optional", VBool false)])].

(** [export const x = 1;] *)
Definition exportConst : value :=
  VObj [("type", VStr "ExportNamedDeclaration");
        ("declaration",
         VObj [("type", VStr "VariableDeclaration");
               ("declarations",
                VArr [VObj [("type", VStr "VariableDeclarator"); ("id", ident "x");
                            ("init", VObj [("type", VStr "Literal"); ("value", VNum 1);
                                           ("raw", VStr "1")])]]);
               ("kind", VStr "const")]);
        ("specifiers", VArr []);
        ("source", VNull)].

(** [module.exports = 1;] *)
Definition moduleExports : value :=
  VObj [("type", VStr "ExpressionStatement");
        ("expression",
         VObj [("type", VStr "AssignmentExpression"); ("operator", VStr "=");
               ("left", VObj [("type", VStr "MemberExpression"); ("computed", VBool false);
                              ("object", ident "module"); ("property", ident "exports");
                              ("optional", VBool false)]);
               ("right", VObj [("type", VStr "Literal"); ("value", VNum 1);
                               ("raw", VStr "1")])])].

Definition trees : list (string * value) :=
  [("import './a.ts';", program [importDeclaration [] "./a.ts"]);
   ("import './a';", program [importDeclaration [] "./a"]);
   ("import './b';", program [importDeclaration [] "./b"]);
   ("import './missing';", program [importDeclaration [] "./missing"]);
   ("import './a'; import './a.ts';",
    program [importDeclaration [] "./a"; importDeclaration [] "./a.ts"]);
   ("import { a, b } from 'ext';",
    program [importDeclaration [importSpecifier ("a", "a"); importSpecifier ("b", "b")] "ext"]);
   ("import ext, { a } from 'ext';",
    program [importOf (Some "ext") [("a", "a")] "ext"]);
   ("require('./x');", program [callStatement (ident "require") [literal "./x"]]);
   ("import './a'; require('./a.ts');",
    program [importDeclaration [] "./a";
             callStatement (ident "require") [literal "./a.ts"]]);
   ("import '../b/dep.ts';", program [importDeclaration [] "../b/dep.ts"]);
   ("export const x = 1;", program [exportConst]);
   ("module.exports = 1;", program [moduleExports]);
   ("", program [])].

(** /p/main.ts imports ./a.ts, which is /p/a.ts. *)
Definition explicitExtension : Host :=
  host [("/p/main.ts", "import './a.ts';"); ("/p/a.ts", "export const x = 1;")]
       [("/", [directory "p"]); ("/p", [file "main.ts"; file "a.ts"])]
       trees [] uuidA.

(** /p/main.js imports ./a; beside it are a.ts and a.js. *)
Definition twoSiblings : Host :=
  host [("/p/main.js", "import './a';"); ("/p/a.ts", "export const x = 1;");
        ("/p/a.js", "export const x = 1;")]
       [("/", [directory "p"]); ("/p", [file "main.js"; file "a.ts"; file "a.js"])]
       trees [] uuidA.

(** /p/main.ts imports ./missing, and nothing in /p has that stem. *)
Definition missingImport : Host :=
  host [("/p/main.ts", "import './missing';")]
       [("/", [directory "p"]); ("/p", [file "main.ts"])]
       trees [] uuidA.

(** /p/main.ts imports /p/a.ts twice, as ./a and as ./a.ts. *)
Definition twoSpecifiers : Host :=
  host [("/p/main.ts", "import './a'; import './a.ts';");
        ("/p/a.ts", "export const x = 1;")]
       [("/", [directory "p"]); ("/p", [file "main.ts"; file "a.ts"])]
       trees [] uuidA.

(** /p/main.ts imports /p/a.ts as ./a and requires it as ./a.ts. *)
Definition importAndRequire : Host :=
  host [("/p/main.ts", "import './a'; require('./a.ts');");
        ("/p/a.ts", "export const x = 1;")]
       [("/", [directory "p"]); ("/p", [file "main.ts"; file "a.ts"])]
       trees [] uuidA.

(** /a/main.ts imports ../b/dep.ts: the two files share only the root. *)
Definition acrossRoot : Host :=
  host [("/a/main.ts", "import '../b/dep.ts';"); ("/b/dep.ts", "export const x = 1;")]
       [("/", [directory "a"; directory "b"]); ("/a", [file "main.ts"]);
        ("/b", [file "dep.ts"])]
       trees [] uuidA.

(** The package ext has the entry file index.cts, which exports a name. *)
Definition ctsPackage : Host :=
  host [("/w/node_modules/ext/index.cts", "export const x = 1;")]
       [("/w/node_modules/ext", [file "index.cts"])]
       trees [("ext", "/w/node_modules/ext/index.cts")] uuidA.

(** [require(`./x`)] *)
Definition templateLiteral (s : string) : value :=
  VObj [("type", VStr "TemplateLiteral");
        ("quasis", VArr [VObj [("type", VStr "TemplateElement");
                               ("value", VObj [("raw", VStr s); ("cooked", VStr s)]);
                               ("tail", VBool true)]]);
        ("expressions", VArr [])].

(** /p/main.js requires ./x, which is /p/x.ts. *)
Definition requireTs : Host :=
  host [("/p/main.js", "require('./x');"); ("/p/x.ts", "module.exports = 1;")]
       [("/", [directory "p"]); ("/p", [file "main.js"; file "x.ts"])]
       trees [] uuidA.

(** /p/a.ts imports ./b and /p/b.ts imports ./a: a cycle. *)
Definition cycle : Host :=
  host [("/p/a.ts", "import './b';"); ("/p/b.ts", "import './a';")]
       [("/", [directory "p"]); ("/p", [file "a.ts"; file "b.ts"])]
       trees [] uuidA.

(** /p/main.ts imports the names a and b from the package ext, whose entry
    file has no import or export. *)
Definition namedFromCjs (uuid : nat -> string) : Host :=
  host [("/p/main.ts", "import { a, b } from 'ext';");
        ("/w/node_modules/ext/index.js", "module.exports = 1;")]
       [("/", [directory "p"]); ("/p", [file "main.ts"])]
       trees [("ext", "/w/node_modules/ext/index.js")] uuid.

(** /p/main.ts imports the default and the name a from the package ext. *)
Definition namedWithDefault (uuid : nat -> string) : Host :=
  host [("/p/main.ts", "import ext, { a } from 'ext';");
        ("/w/node_modules/ext/index.js", "module.exports = 1;")]
       [("/", [directory "p"]); ("/p", [file "main.ts"])]
       trees [("ext", "/w/node_modules/ext/index.js")] uuid.

End Sample.

(** More hosts, for the helpers. *)
Module Fixture.

Import Estree.

(** /p holds lib.ts and the directory lib, which holds index.js. *)
Definition indexAndSibling : Host :=
  Sample.host [("/p/lib.ts", ""); ("/p/lib/index.js", "")]
              [("/", [Sample.directory "p"]);
               ("/p", [Sample.file "lib.ts"; Sample.directory "lib"]);
               ("/p/lib", [Sample.file "index.js"])]
              Sample.trees [] Sample.uuidA.

(** /p holds a.ts, which is a symbolic link: neither a file nor a
    directory for [lstat] and for the entry's type. *)
Definition symbolicLink : Host :=
  Sample.host [] [("/", [Sample.directory "p"]); ("/p", [mkDirent "a.ts" false false])]
              Sample.trees [] Sample.uuidA.

(** /p holds data.json and nothing else of that stem. *)
Definition unknownExtension : Host :=
  Sample.host [("/p/data.json", "{}")]
              [("/", [Sample.directory "p"]); ("/p", [Sample.file "data.json"])]
              Sample.trees [] Sample.uuidA.

(** /p/main.js is [require(5);]. *)
Definition requireNumber : Host :=
  Sample.host [("/p/main.js", "require(5);")]
              [("/", [Sample.directory "p"]); ("/p", [Sample.file "main.js"])]
              [("require(5);",
                program [Sample.callStatement (ident "require") [Expression.number 5 "5"]])]
              [] Sample.uuidA.

(** /p/main.ts is [import fs from 'fs';], and fs is a builtin module. *)
Definition builtinOnly : Host :=
  Sample.host [("/p/main.ts", "import fs from 'fs';")]
              [("/", [Sample.directory "p"]); ("/p", [Sample.file "main.ts"])]
              [("import fs from 'fs';", program [importOf (Some "fs") [] "fs"])]
              [] Sample.uuidA.

End Fixture.

(* ================================================================= *)
(** ** The path functions on some inputs *)

Example posix_join_normalizes :
  Posix.join ["/p/main.ts"; ".."] = "/p" /\
  Posix.join ["../../x"; "../../x/a.mjs"] = "../../../x/a.mjs".
Proof. split; vm_compute; reflexivity. Qed.

Example posix_resolve_dependency :
  Posix.resolve "/cwd" ["/p/q/main.ts"; ".."; "../b/./c//d"] = "/p/b/c/d".
Proof. vm_compute; reflexivity. Qed.

Example posix_extname_cases :
  Posix.extname "/p/a.ts" = ".ts" /\ Posix.extname "/p/.bashrc" = "" /\
  Posix.extname "./a.ts.mjs" = ".mjs" /\ Posix.extname "/p.d/a" = "".
Proof. repeat apply conj; vm_compute; reflexivity. Qed.

Example posix_dirname_cases :
  Posix.dirname "/p/a" = "/p" /\ Posix.dirname "/a" = "/" /\
  Posix.dirname "/p/q/" = "/p" /\ Posix.dirname "a" = ".".
Proof. repeat apply conj; vm_compute; reflexivity. Qed.

Example posix_join_keeps_absolute_argument :
  Posix.join ["/w/out"; "/w/out/main.cjs"] = "/w/out/w/out/main.cjs".
Proof. vm_compute; reflexivity. Qed.
(* ================================================================= *)
(** ** Properties of the traversal *)

Module StrSetFacts.

Lemma has_In (s : StrSet.t) (x : string) : StrSet.has s x = true <-> In x s.
Proof.
  unfold StrSet.has. rewrite existsb_exists. split.
  - intros [y [Hy Heq]]. apply String.eqb_eq in Heq. now subst.
  - intros Hx. exists x. split; [assumption | apply String.eqb_refl].
Qed.

Lemma has_add (s : StrSet.t) (x y : string) :
  StrSet.has (StrSet.add s x) y = StrSet.has s y || String.eqb y x.
Proof.
  unfold StrSet.add. destruct (StrSet.has s x) eqn:Hx.
  - destruct (String.eqb y x) eqn:Hyx.
    + apply String.eqb_eq in Hyx. subst. rewrite Hx. reflexivity.
    + now rewrite orb_false_r.
  - unfold StrSet.has. rewrite existsb_app. simpl. now rewrite orb_false_r.
Qed.

Lemma add_fresh (s : StrSet.t) (x : string) :
  StrSet.has s x = false -> StrSet.add s x = (s ++ [x])%list.
Proof. unfold StrSet.add. now intros ->. Qed.

End StrSetFacts.

Section Traversal.

Variable h : Host.

Lemma filter_length_lt {A : Type} (f g : A -> bool) (l : list A) (a : A) :
  (forall x, f x = true -> g x = true) ->
  In a l -> g a = true -> f a = false ->
  (List.length (filter f l) < List.length (filter g l))%nat.
Proof.
  intros Hfg. induction l as [|x l IH]; simpl; [tauto|].
  assert (Hle : forall l', (List.length (filter f l') <= List.length (filter g l'))%nat).
  { induction l' as [|y l' IH']; simpl; [lia|].
    destruct (f y) eqn:Hf.
    - rewrite (Hfg _ Hf). simpl. lia.
    - destruct (g y); simpl; lia. }
  intros [->|Hin] Hg Hf.
  - rewrite Hg, Hf. simpl. specialize (Hle l). lia.
  - specialize (IH Hin Hg Hf). destruct (f x) eqn:Hfx.
    + rewrite (Hfg _ Hfx). simpl. lia.
    + destruct (g x); simpl; lia.
Qed.

Lemma unexplored_add_lt (U : list string) (ex : StrSet.t) (p : string) :
  In p U -> StrSet.has ex p = false ->
  (List.length (unexplored U (StrSet.add ex p)) < List.length (unexplored U ex))%nat.
Proof.
  intros Hin Hp. unfold unexplored.
  apply filter_length_lt with (a := p); try assumption.
  - intros x. rewrite StrSetFacts.has_add.
    destruct (StrSet.has ex x); simpl; [discriminate | reflexivity].
  - now rewrite Hp.
  - rewrite StrSetFacts.has_add, String.eqb_refl, orb_true_r. reflexivity.
Qed.

Lemma traverseFiles_finishes (U : list string) :
  closedUnderDependencies h U ->
  forall k stack ex files cache,
    (List.length (unexplored U ex) <= k)%nat ->
    (forall frame, In frame stack -> In (filePath frame) U) ->
    exists fuel r, traverseFiles fuel h (mkState stack ex files cache) = Some r.
Proof.
  intros Hclosed. induction k as [|k IHk].
  - (* nothing of U is left to explore: every frame is skipped *)
    intros stack. induction stack as [|frame rest IHs]; intros ex files cache Hk HU.
    + exists 1%nat, (Ok (mkState [] ex files cache)). reflexivity.
    + destruct (StrSet.has ex (filePath frame)) eqn:Hex.
      * destruct (IHs ex files cache Hk) as [fuel [r Hr]].
        { intros f Hf. apply HU. now right. }
        exists (S fuel), r. simpl. now rewrite Hex.
      * exfalso.
        assert (Hin : In (filePath frame) (unexplored U ex)).
        { unfold unexplored. apply filter_In. split.
          - apply HU. now left.
          - now rewrite Hex. }
        destruct (unexplored U ex); [inversion Hin | simpl in Hk; lia].
  - intros stack. induction stack as [|frame rest IHs]; intros ex files cache Hk HU.
    + exists 1%nat, (Ok (mkState [] ex files cache)). reflexivity.
    + destruct (StrSet.has ex (filePath frame)) eqn:Hex.
      * destruct (IHs ex files cache Hk) as [fuel [r Hr]].
        { intros f Hf. apply HU. now right. }
        exists (S fuel), r. simpl. now rewrite Hex.
      * destruct (visit h frame) as [v|e] eqn:Hv.
        -- destruct (IHk (rev (pushed v) ++ rest)%list
                      (StrSet.add ex (filePath frame))
                      (files ++ [sourceFile v])%list
                      (mapSet (filePath frame) (ast v) cache)) as [fuel [r Hr]].
           { pose proof (unexplored_add_lt U ex (filePath frame)
                           (HU frame (or_introl eq_refl)) Hex). lia. }
           { intros f Hf. apply in_app_or in Hf. destruct Hf as [Hf|Hf].
             - apply in_rev in Hf.
               apply (Hclosed frame v (HU frame (or_introl eq_refl)) Hv f Hf).
             - apply HU. now right. }
           exists (S fuel), r. simpl. now rewrite Hex, Hv.
        -- exists 1%nat, (Threw e). simpl. now rewrite Hex, Hv.
Qed.

(** More fuel does not change the outcome of a finished traversal. *)
Lemma traverseFiles_fuel_mono (fuel : nat) :
  forall st r, traverseFiles fuel h st = Some r ->
  forall fuel', (fuel <= fuel')%nat -> traverseFiles fuel' h st = Some r.
Proof.
  induction fuel as [|fuel IH]; intros st r Hr fuel' Hle; [discriminate|].
  destruct fuel' as [|fuel']; [lia|].
  simpl in *. destruct (fileStack st) as [|frame rest]; [assumption|].
  destruct (StrSet.has (explored st) (filePath frame)).
  - apply IH with (fuel' := fuel') in Hr; [assumption | lia].
  - destruct (visit h frame); [|assumption].
    apply IH with (fuel' := fuel') in Hr; [assumption | lia].
Qed.

Lemma visit_sourceFile (frame : Frame) (v : Visit) :
  visit h frame = Ok v ->
  rawInputFile (sourceFile v) = filePath frame /\
  findActualFilePath h (filePath frame) None = Ok (inputFile (sourceFile v)).
Proof.
  unfold visit. intros Hv.
  destruct (findActualFilePath h (filePath frame) None) as [a|] eqn:Ha; [|discriminate].
  simpl in Hv.
  destruct (readFile h a); [|discriminate]. simpl in Hv.
  destruct (transform h _ _ _); [|discriminate]. simpl in Hv.
  destruct (parseModule h _); [|discriminate]. simpl in Hv.
  destruct (readForDependencies _); [|discriminate]. simpl in Hv.
  destruct (filterM _ _); [|discriminate]. simpl in Hv.
  destruct (mapM _ _); [|discriminate]. simpl in Hv.
  inversion Hv. simpl. split; reflexivity.
Qed.

Lemma traverseFiles_invariant (fuel : nat) :
  forall st st', graphInvariant h st ->
  traverseFiles fuel h st = Some (Ok st') -> graphInvariant h st' /\ fileStack st' = [].
Proof.
  induction fuel as [|fuel IH]; intros st st' Hinv Hrun; [discriminate|].
  simpl in Hrun. destruct (fileStack st) as [|frame rest] eqn:Hstack.
  - inversion Hrun; subst. split; assumption.
  - destruct (StrSet.has (explored st) (filePath frame)) eqn:Hex.
    + apply IH in Hrun; [assumption|]. exact Hinv.
    + destruct (visit h frame) as [v|e] eqn:Hv; [|discriminate].
      apply IH in Hrun; [assumption|].
      destruct Hinv as [Hraw [Hnd Hres]].
      destruct (visit_sourceFile _ _ Hv) as [Hr Ha].
      unfold graphInvariant; simpl.
      rewrite (StrSetFacts.add_fresh _ _ Hex). repeat split.
      * rewrite map_app. simpl. now rewrite Hraw, Hr.
      * apply NoDup_app; [assumption | repeat constructor; simpl; tauto |].
        intros x Hx [<-|[]]. apply StrSetFacts.has_In in Hx. congruence.
      * intros f Hf. apply in_app_or in Hf. destruct Hf as [Hf|[<-|[]]].
        -- now apply Hres.
        -- now rewrite Hr.
Qed.

End Traversal.

(* ================================================================= *)
(** ** The walk of the rewriter: fuel *)

(** Takes a hypothesis [x <- e ;; k = Ok r] apart. *)
Ltac unbind H :=
  match type of H with
  | bind ?e _ = Ok _ =>
      let x := fresh "x" in
      let E := fresh "E" in
      destruct e as [x|] eqn:E; [simpl in H | discriminate H]
  end.

Section RewriteFuel.

Variable h : Host.




(** *** The visitor does not make a node heavier *)

Lemma weight_lookup (k : string) (fields : list (string * value)) :
  (weight (lookup k fields) <= weightOfFields fields)%nat.
Proof.
  unfold weightOfFields.
  induction fields as [|[k' v] fields IH]; simpl; [lia|].
  destruct (String.eqb k k'); lia.
Qed.

Lemma weight_assign (k : string) (x : value) (fields : list (string * value)) :
  (weightOfFields (assign k x fields) + weight (lookup k fields)
   = weightOfFields fields + weight x)%nat.
Proof.
  unfold weightOfFields.
  induction fields as [|[k' v] fields IH]; simpl; [lia|].
  destruct (String.eqb k k'); simpl; lia.
Qed.

Lemma weight_nth (elems : list value) :
  (weight (nth 0 elems VUndefined) <= list_sum (map weight elems))%nat.
Proof. destruct elems; simpl; lia. Qed.

Lemma weight_In (v : value) (elems : list value) :
  In v elems -> (weight v <= list_sum (map weight elems))%nat.
Proof.
  induction elems as [|e elems IH]; simpl; [tauto|].
  intros [->|Hin]; [lia | specialize (IH Hin); lia].
Qed.

Lemma weight_In_fields (k : string) (v : value) (fields : list (string * value)) :
  In (k, v) fields -> (weight v <= weightOfFields fields)%nat.
Proof.
  unfold weightOfFields.
  induction fields as [|[k' e] fields IH]; simpl; [tauto|].
  intros [Heq|Hin]; [injection Heq as -> ->; lia | specialize (IH Hin); lia].
Qed.

(** A property that weighs something is a field of an object, and the
    object weighs more. *)
Lemma prop_weight (k : string) (v c : value) :
  prop k v = Ok c -> (0 < weight c)%nat -> (S (weight c) <= weight v)%nat.
Proof.
  destruct v; simpl; intros Hp Hc; try discriminate;
    try (injection Hp as <-; simpl in Hc; lia).
  - injection Hp as <-. destruct (String.eqb k "length"); simpl in Hc; lia.
  - injection Hp as <-. destruct (String.eqb k "length"); simpl in Hc; lia.
  - injection Hp as <-. pose proof (weight_lookup k fields).
    unfold weightOfFields in *. lia.
Qed.

Lemma first_weight (v c : value) :
  first v = Ok c -> (0 < weight c)%nat -> (S (weight c) <= weight v)%nat.
Proof.
  destruct v; simpl; intros Hp Hc; try discriminate;
    try (injection Hp as <-; simpl in Hc; lia).
  - injection Hp as <-. destruct (String.eqb s ""); simpl in Hc; lia.
  - injection Hp as <-. pose proof (weight_nth elems). lia.
  - injection Hp as <-. pose proof (weight_lookup "0" fields).
    unfold weightOfFields in *. lia.
Qed.

(** Only an object has a property that is a string. *)
Lemma prop_string_weight (k : string) (v c : value) (method s : string) :
  prop k v = Ok c -> str method c = Ok s -> (1 <= weight v)%nat.
Proof.
  destruct v; simpl; intros Hp Hs; try discriminate;
    try (injection Hp as <-; simpl in Hs; discriminate); try lia.
  - injection Hp as <-. destruct (String.eqb k "length"); discriminate.
Qed.

Lemma prop_isStr_weight (k t : string) (v c : value) :
  prop k v = Ok c -> isStr t c = true -> (1 <= weight v)%nat.
Proof.
  destruct v; simpl; intros Hp Hs; try discriminate;
    try (injection Hp as <-; simpl in Hs; discriminate); try lia.
  - injection Hp as <-. destruct (String.eqb k "length"); discriminate.
Qed.

Lemma setProp_weight (k : string) (x v v' old : value) :
  setProp k x v = Ok v' -> prop k v = Ok old ->
  (weight x <= weight old)%nat -> (weight v' <= weight v)%nat.
Proof.
  destruct v; simpl; intros Hs Hp Hx; try discriminate;
    try (injection Hs as <-; simpl; lia).
  injection Hs as <-. injection Hp as <-.
  pose proof (weight_assign k x fields). unfold weightOfFields in *. simpl. lia.
Qed.

Lemma setFirst_weight (x a a' old : value) :
  setFirst x a = Ok a' -> first a = Ok old ->
  (weight x <= weight old)%nat -> (weight a' <= weight a)%nat.
Proof.
  destruct a; simpl; intros Hs Hp Hx; try discriminate;
    try (injection Hs as <-; simpl; lia).
  - injection Hp as <-. destruct elems as [|e elems]; injection Hs as <-; simpl in *; lia.
  - injection Hs as <-. injection Hp as <-.
    pose proof (weight_assign "0" x fields). unfold weightOfFields in *. simpl. lia.
Qed.

Lemma replaceQuasis_weight (ensure : string -> string) (t t' : value) :
  replaceQuasis ensure t = Ok t' -> (weight t' <= weight t)%nat.
Proof.
  unfold replaceQuasis. intros H.
  unbind H. unbind H. unbind H.
  unfold bind in E0.
  destruct (first x) as [q|] eqn:Eq; [|discriminate].
  destruct (prop "value" q) as [v|] eqn:Ev; [|discriminate].
  apply (setProp_weight _ _ _ _ _ H E).
  pose proof (prop_string_weight _ _ _ _ _ E0 E1) as Hv.
  assert (Hq : (2 <= weight q)%nat) by (pose proof (prop_weight _ _ _ Ev); lia).
  pose proof (first_weight _ _ Eq). simpl. lia.
Qed.

Lemma replaceRawQuasis_weight (ensure : string -> string) (t t' : value) :
  replaceRawQuasis ensure t = Ok t' -> (weight t' <= weight t)%nat.
Proof.
  unfold replaceRawQuasis. intros H. unbind H. unbind H.
  apply (setProp_weight _ _ _ _ _ H E).
  now apply replaceQuasis_weight in E0.
Qed.

Lemma asLiteral_weight (s : string) : weight (asLiteral s) = 1%nat.
Proof. reflexivity. Qed.

Lemma updateImportExpression_weight (node node' : value) :
  updateImportExpression node = Ok node' -> (weight node' <= weight node)%nat.
Proof.
  unfold updateImportExpression. intros H. unbind H.
  destruct (truthy x) eqn:Hx; [|injection H as <-; lia].
  unbind H. destruct (truthy x0) eqn:Hx0.
  - unbind H. apply (setProp_weight _ _ _ _ _ H E).
    rewrite asLiteral_weight. exact (prop_string_weight _ _ _ _ _ E0 E1).
  - unbind H. destruct (truthy x1).
    + unbind H. apply (setProp_weight _ _ _ _ _ H E).
      now apply replaceQuasis_weight in E2.
    + unbind H. destruct x2; [|injection H as <-; lia].
      unbind H. apply (setProp_weight _ _ _ _ _ H E).
      now apply replaceRawQuasis_weight in E3.
Qed.

Lemma sourceValue_weight (field method : string) (node source sv : value) (s : string) :
  sourceValue field node = Ok (Some sv) -> str method sv = Ok s ->
  prop field node = Ok source -> (1 <= weight source)%nat.
Proof.
  unfold sourceValue. intros H Hs Hp. rewrite Hp in H. simpl in H.
  destruct (truthy source); [|discriminate].
  unbind H. destruct (truthy x); [|discriminate].
  injection H as <-. exact (prop_string_weight _ _ _ _ _ E Hs).
Qed.

Lemma sourceValue_prop (field : string) (node : value) (o : option value) :
  sourceValue field node = Ok o -> exists source, prop field node = Ok source.
Proof.
  unfold sourceValue. intros H. unbind H. now exists x.
Qed.

Lemma setSourceLiteral_weight (node node' sv : value) (s val : string) :
  sourceValue "source" node = Ok (Some sv) -> str "startsWith" sv = Ok s ->
  setSourceLiteral val node = Ok node' -> (weight node' <= weight node)%nat.
Proof.
  intros Hsv Hs Hset. destruct (sourceValue_prop _ _ _ Hsv) as [source Hp].
  apply (setProp_weight _ _ _ _ _ Hset Hp).
  exact (sourceValue_weight _ _ _ _ _ _ Hsv Hs Hp).
Qed.

Lemma updateImportDeclaration_weight (node node' : value) (p : option Promise) :
  updateImportDeclaration h node = Ok (node', p) -> (weight node' <= weight node)%nat.
Proof.
  unfold updateImportDeclaration. intros H. unbind H.
  destruct (isStr "type" x); [injection H as <- _; lia|].
  unbind H. destruct x0 as [sv|]; [|injection H as <- _; lia].
  unbind H. unbind H. unbind H. unbind H. unbind H. unbind H. unbind H.
  injection H as <- _.
  exact (setSourceLiteral_weight _ _ _ _ _ E0 E5 E7).
Qed.

Lemma updateExportDeclaration_weight (node node' : value) :
  updateExportDeclaration node = Ok node' -> (weight node' <= weight node)%nat.
Proof.
  unfold updateExportDeclaration. intros H. unbind H.
  destruct x as [sv|]; [|injection H as <-; lia].
  unbind H. exact (setSourceLiteral_weight _ _ _ _ _ E E0 H).
Qed.

Lemma literalArgument_weight (a a' : value) :
  literalArgument a = Ok a' -> (weight a' <= weight a)%nat.
Proof.
  unfold literalArgument. intros H. unbind H. unbind H.
  destruct (isStr "Literal" x0 || isStr "StringLiteral" x0) eqn:Ht;
    [|injection H as <-; lia].
  unbind H. unbind H. apply (setFirst_weight _ _ _ _ H E).
  rewrite asLiteral_weight. exact (prop_string_weight _ _ _ _ _ E1 E2).
Qed.

Lemma templateArgument_weight (a a' : value) :
  templateArgument a = Ok a' -> (weight a' <= weight a)%nat.
Proof.
  unfold templateArgument. intros H. unbind H. unbind H.
  destruct (isStr "TemplateLiteral" x0); [|injection H as <-; lia].
  unbind H. apply (setFirst_weight _ _ _ _ H E).
  now apply replaceQuasis_weight in E1.
Qed.

Lemma rawTemplateArgument_weight (a a' : value) :
  rawTemplateArgument a = Ok a' -> (weight a' <= weight a)%nat.
Proof.
  unfold rawTemplateArgument. intros H. unbind H. unbind H.
  destruct x0; [|injection H as <-; lia].
  unbind H. apply (setFirst_weight _ _ _ _ H E).
  now apply replaceRawQuasis_weight in E1.
Qed.

Lemma updateCallExpression_weight (node node' : value) :
  updateCallExpression node = Ok node' -> (weight node' <= weight node)%nat.
Proof.
  unfold updateCallExpression. intros H. unbind H. unbind H. unbind H.
  destruct (negb x || negb (truthy x0) || x1); [injection H as <-; lia|].
  unbind H. unbind H. unbind H.
  apply (setProp_weight _ _ _ _ _ H E0).
  apply literalArgument_weight in E2. apply templateArgument_weight in E3.
  apply rawTemplateArgument_weight in E4. lia.
Qed.

Lemma updateNode_weight (node node' : value) (p : option Promise) :
  updateNode h node = Ok (node', p) -> (weight node' <= weight node)%nat.
Proof.
  unfold updateNode. intros H. unbind H.
  destruct (isStr "ImportExpression" x).
  { unbind H. injection H as <- _. now apply updateImportExpression_weight. }
  destruct (isStr "ImportDeclaration" x).
  { now apply updateImportDeclaration_weight in H. }
  destruct (isStr "ExportNamedDeclaration" x || isStr "ExportAllDeclaration" x).
  { unbind H. injection H as <- _. now apply updateExportDeclaration_weight. }
  destruct (isStr "CallExpression" x).
  { unbind H. injection H as <- _. now apply updateCallExpression_weight. }
  injection H as <- _. lia.
Qed.

(** *** The fuel [updateImports] gives the walk is enough *)

Lemma eachElement_some (rec : value -> option (result (value * Promises)))
    (l : list value) :
  (forall v, In v l -> exists r, rec v = Some r) ->
  forall i, exists r, eachElement rec i l = Some r.
Proof.
  induction l as [|key l IH]; intros Hrec i; simpl; [eexists; reflexivity|].
  destruct (IH (fun v Hv => Hrec v (or_intror Hv)) (S i)) as [[rs|e] Hrs].
  - destruct (isObject key).
    + destruct (Hrec key (or_introl eq_refl)) as [[a|e] Ha]; rewrite Ha; simpl.
      * rewrite Hrs. simpl. eexists; reflexivity.
      * eexists; reflexivity.
    + simpl. rewrite Hrs. simpl. eexists; reflexivity.
  - destruct (isObject key).
    + destruct (Hrec key (or_introl eq_refl)) as [[a|e'] Ha]; rewrite Ha; simpl.
      * rewrite Hrs. simpl. eexists; reflexivity.
      * eexists; reflexivity.
    + simpl. rewrite Hrs. simpl. eexists; reflexivity.
Qed.

Lemma eachEntry_some (rec : value -> option (result (value * Promises)))
    (l : list (string * value)) :
  (forall k v, In (k, v) l -> exists r, rec v = Some r) ->
  exists r, eachEntry rec l = Some r.
Proof.
  induction l as [|[key child] l IH]; intros Hrec; simpl; [eexists; reflexivity|].
  destruct (IH (fun k v Hv => Hrec k v (or_intror Hv))) as [[rs|e] Hrs].
  - destruct (String.eqb key "parent" || negb (truthy child)).
    + simpl. rewrite Hrs. simpl. eexists; reflexivity.
    + destruct (Hrec key child (or_introl eq_refl)) as [[a|e] Ha]; rewrite Ha; simpl.
      * rewrite Hrs. simpl. eexists; reflexivity.
      * eexists; reflexivity.
  - destruct (String.eqb key "parent" || negb (truthy child)).
    + simpl. rewrite Hrs. simpl. eexists; reflexivity.
    + destruct (Hrec key child (or_introl eq_refl)) as [[a|e'] Ha]; rewrite Ha; simpl.
      * rewrite Hrs. simpl. eexists; reflexivity.
      * eexists; reflexivity.
Qed.

Lemma rewriteTree_enough (fuel : nat) :
  forall v, (weight v < fuel)%nat -> exists r, rewriteTree fuel h v = Some r.
Proof.
  induction fuel as [|fuel IH]; intros v Hw; [lia|].
  destruct v; simpl; try (eexists; reflexivity).
  - destruct (eachElement_some (rewriteTree fuel h) elems) with (i := 0%nat)
      as [[r|e] Hr].
    + intros v Hv. apply IH. pose proof (weight_In v elems Hv). simpl in Hw. lia.
    + rewrite Hr. simpl. eexists; reflexivity.
    + rewrite Hr. simpl. eexists; reflexivity.
  - destruct (updateNode h (VObj fields)) as [[node' p]|e] eqn:Hu;
      [|eexists; reflexivity].
    pose proof (updateNode_weight _ _ _ Hu) as Hle.
    destruct node'; try (eexists; reflexivity).
    destruct (eachEntry_some (rewriteTree fuel h) fields0) as [[r|e] Hr].
    + intros k v Hv. apply IH. pose proof (weight_In_fields k v fields0 Hv).
      unfold weightOfFields in *. simpl in Hle, Hw. lia.
    + rewrite Hr. simpl. eexists; reflexivity.
    + rewrite Hr. simpl. eexists; reflexivity.
Qed.

(** [updateImports] always comes to an end: it returns the printed tree
    or throws. *)
Lemma updateImportsTree_total (ast : value) :
  exists r, updateImportsTree h ast = Some r.
Proof.
  unfold updateImportsTree.
  destruct (rewriteTree_enough (S (weight ast)) ast) as [[r|e] Hr]; [lia| |];
    rewrite Hr; simpl; eexists; reflexivity.
Qed.

End RewriteFuel.

(* ================================================================= *)
(** ** Promises and the nodes they refer to *)



Section PromisePaths.

Context {A : Type}.

Lemma stepEqb_refl (s : step) : stepEqb s s = true.
Proof. destruct s; simpl; [apply String.eqb_refl | apply Nat.eqb_refl]. Qed.


Lemma select_prefixed_same (s : step) (ps : list (path * A)) :
  select s (prefixed s ps) = ps.
Proof.
  induction ps as [|[p a] ps IH]; simpl; [reflexivity|].
  rewrite stepEqb_refl. simpl. f_equal. exact IH.
Qed.

Lemma select_prefixed_other (s s' : step) (ps : list (path * A)) :
  stepEqb s s' = false -> select s (prefixed s' ps) = [].
Proof.
  intros Hs. induction ps as [|[p a] ps IH]; simpl; [reflexivity|].
  rewrite Hs. simpl. exact IH.
Qed.

Lemma own_prefixed (s : step) (ps : list (path * A)) : own (prefixed s ps) = None.
Proof.
  unfold own. induction ps as [|[p a] ps IH]; simpl; [reflexivity | exact IH].
Qed.

Lemma indexedWithin_app (lo hi : nat) (p q : list (path * A)) :
  indexedWithin lo hi p -> indexedWithin lo hi q -> indexedWithin lo hi (p ++ q).
Proof. unfold indexedWithin. intros. apply Forall_app. now split. Qed.

Lemma indexedWithin_weaken (lo hi lo' hi' : nat) (ps : list (path * A)) :
  (lo' <= lo)%nat -> (hi <= hi')%nat ->
  indexedWithin lo hi ps -> indexedWithin lo' hi' ps.
Proof.
  intros Hlo Hhi. unfold indexedWithin. apply Forall_impl.
  intros p [k [rest [Hp Hk]]]. exists k, rest. split; [assumption | lia].
Qed.

Lemma indexedWithin_prefixed (i : nat) (ps : list (path * A)) :
  indexedWithin i (S i) (prefixed (SIdx i) ps).
Proof.
  unfold indexedWithin, prefixed. apply Forall_forall. intros p Hp.
  apply in_map_iff in Hp. destruct Hp as [q [<- _]]. simpl.
  exists i, (fst q). split; [reflexivity | lia].
Qed.


Lemma own_indexed (lo hi : nat) (ps : list (path * A)) :
  indexedWithin lo hi ps -> own ps = None.
Proof.
  unfold own. intros Hps.
  induction Hps as [|p ps [j [rest [Hp Hj]]] _ IH]; [reflexivity|].
  simpl. rewrite Hp. exact IH.
Qed.


Lemma numbered_prefixed (n : nat) (s : step) (ps : list (path * A)) :
  numbered n (prefixed s ps) = prefixed s (numbered n ps).
Proof.
  revert n. induction ps as [|[x a] ps IH]; intros n; simpl; [reflexivity|].
  now rewrite IH.
Qed.

Lemma numbered_indexedWithin (lo hi n : nat) (ps : list (path * A)) :
  indexedWithin lo hi ps -> indexedWithin lo hi (numbered n ps).
Proof.
  intros Hps. revert n.
  induction Hps as [|[x a] ps Hp _ IH]; intros n; simpl; constructor.
  - exact Hp.
  - apply IH.
Qed.

End PromisePaths.

Section Settle.

Variable h : Host.



(** Where no promise refers below a node, the node is left as it is. *)
Lemma settle_own_only (v : value) :
  forall ps, (forall p, In p ps -> fst p = []) -> settle h ps v = Ok v.
Proof.
  induction v as [| | | | |elems IH|fields IH] using value_tree_ind;
    intros ps Hps; try reflexivity.
  - assert (Hsel : forall s, select s ps = []).
    { intros s. unfold select. induction ps as [|p ps IHps]; [reflexivity|].
      simpl. rewrite (Hps p (or_introl eq_refl)). apply IHps.
      intros q Hq. apply Hps. now right. }
    simpl.
    assert (Hall : forall i, settleElements (settle h) h ps i elems = Ok elems).
    { induction IH as [|key l Hkey _ IHl]; intros i; simpl; [reflexivity|].
      rewrite Hsel. rewrite Hkey by (intros p []). simpl.
      rewrite IHl. reflexivity. }
    rewrite Hall. reflexivity.
  - assert (Hsel : forall s, select s ps = []).
    { intros s. unfold select. induction ps as [|p ps IHps]; [reflexivity|].
      simpl. rewrite (Hps p (or_introl eq_refl)). apply IHps.
      intros q Hq. apply Hps. now right. }
    simpl.
    assert (Hall : settleEntries (settle h) h ps fields = Ok fields).
    { induction IH as [|[key child] l Hkey _ IHl]; simpl; [reflexivity|].
      rewrite Hsel. simpl in Hkey. rewrite Hkey by (intros p []). simpl.
      rewrite IHl. reflexivity. }
    rewrite Hall. reflexivity.
Qed.

End Settle.

Section Walk.

Variable h : Host.


(** The promises an array's walk returns refer into its elements, and the
    walk keeps the number of elements. *)
Lemma eachElement_range (rec : value -> option (result (value * Promises)))
    (l : list value) :
  forall i r, eachElement rec i l = Some (Ok r) ->
    indexedWithin i (i + List.length l) (snd r) /\
    List.length (fst r) = List.length l.
Proof.
  induction l as [|key l IH]; intros i r Hr; simpl in Hr.
  - injection Hr as <-. split; [constructor | reflexivity].
  - destruct (if isObject key then rec key else Some (Ok (key, [])))
      as [[[k kp]|e]|]; simpl in Hr; try discriminate.
    destruct (eachElement rec (S i) l) as [[[a b]|e]|] eqn:Hl; simpl in Hr;
      try discriminate.
    injection Hr as <-. simpl. destruct (IH _ _ Hl) as [Hb Hlen]. simpl in *. split.
    + apply indexedWithin_app.
      * apply indexedWithin_weaken with (lo := i) (hi := S i); [lia | lia |].
        apply indexedWithin_prefixed.
      * apply indexedWithin_weaken with (lo := S i) (hi := (S i + List.length l)%nat);
          [lia | lia | exact Hb].
    + now rewrite Hlen.
Qed.

End Walk.

Section InertTrees.

Variable h : Host.

Lemma updateNode_inert (fields : list (string * value)) :
  typeIn visitedTypes (VObj fields) = false ->
  updateNode h (VObj fields) = Ok (VObj fields, None).
Proof.
  unfold updateNode, typeIn. cbn -[String.eqb].
  destruct (lookup "type" fields) as [| | | |t| |]; try reflexivity.
  unfold visitedTypes, StrSet.has. cbn -[String.eqb]. intros Ht.
  repeat (apply orb_false_iff in Ht; destruct Ht as [? Ht]).
  rewrite (String.eqb_sym "ImportExpression"), (String.eqb_sym "ImportDeclaration"),
    (String.eqb_sym "ExportNamedDeclaration"), (String.eqb_sym "ExportAllDeclaration"),
    (String.eqb_sym "CallExpression").
  repeat match goal with H : String.eqb t _ = false |- _ => rewrite H; clear H end.
  reflexivity.
Qed.

Lemma eachElement_inert (rec : value -> option (result (value * Promises))) :
  (forall v r, inert v = true -> rec v = Some r -> r = Ok (v, [])) ->
  forall l i r, forallb inert l = true ->
    eachElement rec i l = Some r -> r = Ok (l, []).
Proof.
  intros Hrec. induction l as [|key l IH]; intros i r Hl Hr; simpl in *.
  - now injection Hr as <-.
  - apply andb_prop in Hl. destruct Hl as [Hkey Hl].
    destruct (isObject key).
    + destruct (rec key) as [x|] eqn:Hk; [|discriminate].
      rewrite (Hrec _ _ Hkey Hk) in Hr. simpl in Hr.
      destruct (eachElement rec (S i) l) as [y|] eqn:Hy; [|discriminate].
      rewrite (IH _ _ Hl Hy) in Hr. simpl in Hr. now injection Hr as <-.
    + simpl in Hr.
      destruct (eachElement rec (S i) l) as [y|] eqn:Hy; [|discriminate].
      rewrite (IH _ _ Hl Hy) in Hr. simpl in Hr. now injection Hr as <-.
Qed.

Lemma eachEntry_inert (rec : value -> option (result (value * Promises))) :
  (forall v r, inert v = true -> rec v = Some r -> r = Ok (v, [])) ->
  forall l r, forallb (fun kv => inert (snd kv)) l = true ->
    eachEntry rec l = Some r -> r = Ok (l, []).
Proof.
  intros Hrec. induction l as [|[key child] l IH]; intros r Hl Hr; simpl in *.
  - now injection Hr as <-.
  - apply andb_prop in Hl. destruct Hl as [Hkey Hl].
    destruct (String.eqb key "parent" || negb (truthy child)).
    + simpl in Hr.
      destruct (eachEntry rec l) as [y|] eqn:Hy; [|discriminate].
      rewrite (IH _ Hl eq_refl) in Hr. simpl in Hr. now injection Hr as <-.
    + destruct (rec child) as [x|] eqn:Hk; [|discriminate].
      rewrite (Hrec _ _ Hkey Hk) in Hr. simpl in Hr.
      destruct (eachEntry rec l) as [y|] eqn:Hy; [|discriminate].
      rewrite (IH _ Hl eq_refl) in Hr. simpl in Hr. now injection Hr as <-.
Qed.

(** The walk leaves an inert tree as it is and pushes no promise. *)
Lemma rewriteTree_inert (fuel : nat) :
  forall v r, inert v = true -> rewriteTree fuel h v = Some r -> r = Ok (v, []).
Proof.
  induction fuel as [|fuel IH]; intros v r Hv Hr; [discriminate|].
  destruct v; simpl in Hr; try (now injection Hr as <-).
  - destruct (eachElement (rewriteTree fuel h) 0 elems) as [x|] eqn:Hx; [|discriminate].
    rewrite (eachElement_inert _ IH _ _ _ Hv Hx) in Hr. simpl in Hr.
    now injection Hr as <-.
  - simpl in Hv. apply andb_prop in Hv. destruct Hv as [Hty Hfs].
    apply negb_true_iff in Hty. rewrite (updateNode_inert _ Hty) in Hr.
    destruct (eachEntry (rewriteTree fuel h) fields) as [x|] eqn:Hx; [|discriminate].
    rewrite (eachEntry_inert _ IH _ _ Hfs Hx) in Hr. simpl in Hr.
    now injection Hr as <-.
Qed.

End InertTrees.

Section Programs.

Variable h : Host.

Lemma weight_program (body : list value) :
  weight (Estree.program body) = S (S (list_sum (map weight body))).
Proof. unfold Estree.program. simpl. lia. Qed.

Lemma rewriteTree_program (fuel : nat) (body : list value) :
  rewriteTree (S (S fuel)) h (Estree.program body) =
  bindF (eachElement (rewriteTree fuel h) 0 body)
    (fun r => Some (Ok (Estree.program (fst r), prefixed (SKey "body") (snd r)))).
Proof.
  unfold Estree.program. simpl.
  destruct (eachElement (rewriteTree fuel h) 0 body) as [[[body' ps]|e]|];
    simpl; try reflexivity.
  now rewrite app_nil_r.
Qed.

(** [updateImports] on a program: the statements are walked in order, then
    the promises are settled on the statements the walk leaves. *)
Lemma updateImportsTree_program (body : list value) :
  updateImportsTree h (Estree.program body) =
  bindF (eachElement (rewriteTree (S (list_sum (map weight body))) h) 0 body)
    (fun r =>
       Some (elems <- settleElements (settle h) h (numbered 0 (snd r)) 0 (fst r) ;;
             Ok (Estree.program elems))).
Proof.
  unfold updateImportsTree. rewrite weight_program, rewriteTree_program.
  destruct (eachElement (rewriteTree (S (list_sum (map weight body))) h) 0 body)
    as [[[body' ps]|e]|] eqn:Hwalk; simpl; try reflexivity.
  f_equal.
  destruct (eachElement_range _ _ _ _ Hwalk) as [Hrange _]. simpl in Hrange.
  rewrite numbered_prefixed, own_prefixed.
  unfold Estree.program. cbn [settle settleEntries].
  rewrite (select_prefixed_other (SKey "type") (SKey "body")) by reflexivity.
  rewrite (select_prefixed_other (SKey "sourceType") (SKey "body")) by reflexivity.
  rewrite select_prefixed_same.
  rewrite (own_indexed _ _ _ (numbered_indexedWithin _ _ 0 _ Hrange)).
  cbn [settle own find noIndexOf bind].
  destruct (settleElements (settle h) h (numbered 0 ps) 0 body') as [elems|e];
    reflexivity.
Qed.

End Programs.

Import Estree.

Section Statements.

Variable h : Host.



(** *** The import declaration [import default, { named } from 'source'] *)

Lemma findDefaultImport_named (named : list (string * string)) :
  findDefaultImport (map Estree.importSpecifier named) = Ok VUndefined.
Proof. induction named as [|n named IH]; simpl; [reflexivity | exact IH]. Qed.

Lemma findNamedImports_cons_named (n : string * string) (l : list value)
    (r : list (value * value)) :
  findNamedImports l = Ok r ->
  findNamedImports (Estree.importSpecifier n :: l)
  = Ok ((VStr (fst n), VStr (snd n)) :: r).
Proof.
  unfold findNamedImports. simpl.
  destruct (filterM _ l) as [kept|e]; simpl; [|discriminate].
  now intros ->.
Qed.

Lemma findNamedImports_cons_default (local : string) (l : list value) :
  findNamedImports (Estree.importDefaultSpecifier local :: l) = findNamedImports l.
Proof.
  unfold findNamedImports. simpl.
  destruct (filterM _ l) as [kept|e]; reflexivity.
Qed.

Lemma findNamedImports_named (named : list (string * string)) :
  findNamedImports (map Estree.importSpecifier named) = Ok (namedValues named).
Proof.
  induction named as [|n named IH]; [reflexivity|].
  simpl map. now apply findNamedImports_cons_named.
Qed.

Lemma findDefaultImport_specifiersOf (default : option string)
    (named : list (string * string)) :
  findDefaultImport (specifiersOf default named) = Ok (defaultValue default).
Proof.
  destruct default; simpl; [reflexivity | apply findDefaultImport_named].
Qed.

Lemma findNamedImports_specifiersOf (default : option string)
    (named : list (string * string)) :
  findNamedImports (specifiersOf default named) = Ok (namedValues named).
Proof.
  destruct default as [local|]; unfold specifiersOf.
  - change ([Estree.importDefaultSpecifier local] ++ map Estree.importSpecifier named)%list
      with (Estree.importDefaultSpecifier local :: map Estree.importSpecifier named).
    rewrite findNamedImports_cons_default. apply findNamedImports_named.
  - apply findNamedImports_named.
Qed.

Lemma ensureMJS_external (source : string) :
  isInternal source = false -> ensureMJS source = source.
Proof. unfold ensureMJS, isInternal. now intros ->. Qed.

Lemma updateNode_importOf (default : option string) (named : list (string * string))
    (source : string) :
  source <> "" -> isInternal source = false ->
  isNodeBuiltin h (VStr source) = Ok false ->
  updateNode h (Estree.importOf default named source)
  = Ok (Estree.importOf default named source, promiseOf default named source).
Proof.
  intros Hne Hext Hbuiltin.
  assert (Hs : String.eqb source "" = false) by now apply String.eqb_neq.
  unfold updateNode, updateImportDeclaration, sourceValue, setSourceLiteral,
    importOf, importDeclaration, literal, asLiteral.
  cbn -[findDefaultImport findNamedImports ensureMJS isNodeBuiltin Js.startsWith
        Z.ltb Z.of_nat quote specifiersOf].
  rewrite Hs.
  cbn -[findDefaultImport findNamedImports ensureMJS isNodeBuiltin Js.startsWith
        Z.ltb Z.of_nat quote specifiersOf].
  rewrite findDefaultImport_specifiersOf, findNamedImports_specifiersOf.
  cbn -[ensureMJS isNodeBuiltin Js.startsWith Z.ltb Z.of_nat quote specifiersOf].
  rewrite (ensureMJS_external _ Hext).
  unfold isInternal in Hext. rewrite Hext, Hbuiltin.
  cbn -[Z.ltb Z.of_nat quote specifiersOf].
  unfold promiseOf, namedValues. destruct named; reflexivity.
Qed.

Lemma inert_specifiersOf (default : option string) (named : list (string * string)) :
  forallb inert (specifiersOf default named) = true.
Proof.
  unfold specifiersOf. rewrite forallb_app. apply andb_true_intro. split.
  - destruct default; reflexivity.
  - induction named as [|n named IH]; [reflexivity|]. simpl map.
    change (forallb inert (Estree.importSpecifier n :: map Estree.importSpecifier named))
      with (inert (Estree.importSpecifier n)
            && forallb inert (map Estree.importSpecifier named)).
    rewrite IH. reflexivity.
Qed.

Lemma rewriteTree_importOf (default : option string) (named : list (string * string))
    (source : string) (fuel : nat) (r : result (value * Promises)) :
  source <> "" -> isInternal source = false ->
  isNodeBuiltin h (VStr source) = Ok false ->
  rewriteTree fuel h (Estree.importOf default named source) = Some r ->
  r = Ok (Estree.importOf default named source,
          ownPromise (promiseOf default named source)).
Proof.
  intros Hne Hext Hbuiltin Hr. destruct fuel as [|fuel]; [discriminate|].
  cbn [rewriteTree] in Hr.
  change (Estree.importOf default named source)
    with (VObj [("type", VStr "ImportDeclaration");
                ("specifiers", VArr (specifiersOf default named));
                ("source", Estree.literal source)]) in *.
  assert (Hu := updateNode_importOf default named source Hne Hext Hbuiltin).
  change (Estree.importOf default named source)
    with (VObj [("type", VStr "ImportDeclaration");
                ("specifiers", VArr (specifiersOf default named));
                ("source", Estree.literal source)]) in Hu.
  rewrite Hu in Hr.
  destruct (eachEntry (rewriteTree fuel h) _) as [x|] eqn:Hx in Hr; [|discriminate].
  apply (eachEntry_inert _ (rewriteTree_inert h fuel)) in Hx.
  - subst x. simpl in Hr. injection Hr as <-.
    destruct (promiseOf default named source); reflexivity.
  - cbn [forallb snd inert]. rewrite inert_specifiersOf. reflexivity.
Qed.


End Statements.

(* ================================================================= *)
(** ** Module-type classification by content *)

Lemma findNodeAt_spec (test : string -> bool) (ast : value) :
  findNodeAt test ast = true <->
  exists node t, nodeOf node ast /\ typeOf node = VStr t /\ test t = true.
Proof.
  induction ast as [| | | | |elems IH|fields IH] using value_tree_ind;
    try (split; [discriminate | intros [node [t [Hn _]]]; inversion Hn]).
  - cbn [findNodeAt]. rewrite existsb_exists. split.
    + intros [child [Hin Hfound]].
      rewrite Forall_forall in IH. apply (IH child Hin) in Hfound.
      destruct Hfound as [node [t [Hn Ht]]].
      exists node, t. split; [|exact Ht]. now apply nodeOf_element with child.
    + intros [node [t [Hn Ht]]]. inversion Hn as [| |child elems' Hin Hc]; subst.
      exists child. split; [exact Hin|].
      rewrite Forall_forall in IH. apply (IH child Hin). now exists node, t.
  - cbn [findNodeAt]. rewrite orb_true_iff, existsb_exists. split.
    + intros [Hhere|[[k child] [Hin Hfound]]].
      * destruct (lookup "type" fields) as [| | | |t| |] eqn:Hty; try discriminate.
        exists (VObj fields), t. split; [now constructor|]. now split.
      * rewrite Forall_forall in IH. apply (IH (k, child) Hin) in Hfound.
        destruct Hfound as [node [t [Hn Ht]]].
        exists node, t. split; [|exact Ht]. now apply nodeOf_field with k child.
    + intros [node [t [Hn [Hty Ht]]]].
      inversion Hn as [fields' Heq|k child fields' Hin Hc|]; subst.
      * left. cbn [typeOf] in Hty. now rewrite Hty.
      * right. exists (k, child). split; [exact Hin|].
        rewrite Forall_forall in IH. apply (IH (k, child) Hin). now exists node, t.
Qed.

Lemma has_MODULE_ONLY (t : string) :
  StrSet.has MODULE_ONLY_NODE_TYPE_SET t = true <-> In t MODULE_ONLY_NODE_TYPE_SET.
Proof. apply StrSetFacts.has_In. Qed.

(** [determineModuleType] of [lib/utils/utils.ts]: the four extensions
    decide without a look at the file, whatever the host; any other file is
    read and parsed, and is static-format exactly when its tree holds a
    module-only node.  A dynamic import expression is not one. *)
Lemma determineModuleType_classifies (h : Host) (filePath : string) :
  let ext := Js.toLowerCase (Js.sliceFrom filePath (-4)) in
  (ext = ".mjs" \/ ext = ".mts" -> determineModuleType h filePath = Ok "import") /\
  (ext = ".cjs" \/ ext = ".cts" -> determineModuleType h filePath = Ok "require") /\
  (ext <> ".mjs" -> ext <> ".mts" -> ext <> ".cjs" -> ext <> ".cts" ->
   forall text ast,
     readFile h filePath = Ok text -> parseModule h text = Ok ast ->
     (hasModuleOnlyNode ast -> determineModuleType h filePath = Ok "import") /\
     (~ hasModuleOnlyNode ast -> determineModuleType h filePath = Ok "require")) /\
  ~ In "ImportExpression" MODULE_ONLY_NODE_TYPE_SET.
Proof.
  cbv zeta. unfold determineModuleType.
  set (ext := Js.toLowerCase (Js.sliceFrom filePath (-4))).
  repeat apply conj.
  - intros [->| ->]; reflexivity.
  - intros [->| ->]; reflexivity.
  - intros H1 H2 H3 H4 text ast Hread Hparse.
    apply String.eqb_neq in H1, H2, H3, H4. rewrite H1, H2, H3, H4.
    cbn [orb]. rewrite Hread. cbn [bind]. rewrite Hparse. cbn [bind].
    assert (Hspec : findNodeAt (StrSet.has MODULE_ONLY_NODE_TYPE_SET) ast = true
                    <-> hasModuleOnlyNode ast).
    { rewrite findNodeAt_spec. unfold hasModuleOnlyNode.
      split; intros [node [t [Hn [Hty Ht]]]]; exists node, t;
        (split; [exact Hn|]); (split; [exact Hty|]); now apply has_MODULE_ONLY. }
    split; intros Hm.
    + apply Hspec in Hm. now rewrite Hm.
    + destruct (findNodeAt _ ast) eqn:Hf; [|reflexivity].
      exfalso. apply Hm. now apply Hspec.
  - intros Hin. apply has_MODULE_ONLY in Hin. discriminate Hin.
Qed.

Lemma traverseUntilFound_found (v : value) : traverseUntilFound v true = true.
Proof. destruct v; reflexivity. Qed.

Lemma untilFoundElements_spec (l : list value) (found : bool) :
  untilFoundElements traverseUntilFound l found
  = found || existsb (fun key => isObject key && traverseUntilFound key false) l.
Proof.
  revert found. induction l as [|key l IH]; intros found; cbn [untilFoundElements existsb].
  - now rewrite orb_false_r.
  - rewrite IH. destruct found; cbn [orb].
    + destruct (isObject key); [rewrite traverseUntilFound_found|]; reflexivity.
    + destruct (isObject key); reflexivity.
Qed.

Lemma untilFoundEntries_spec (l : list (string * value)) (found : bool) :
  untilFoundEntries traverseUntilFound l found
  = found || existsb (fun kv => negb (String.eqb (fst kv) "parent")
                                && traverseUntilFound (snd kv) false) l.
Proof.
  revert found. induction l as [|[k child] l IH]; intros found;
    cbn [untilFoundEntries existsb fst snd].
  - now rewrite orb_false_r.
  - rewrite IH. destruct (String.eqb k "parent"); cbn [orb negb andb].
    + reflexivity.
    + destruct found; cbn [orb].
      * destruct (negb (truthy child)); [|rewrite traverseUntilFound_found]; reflexivity.
      * destruct (truthy child) eqn:Htruthy; cbn [negb]; [reflexivity|].
        destruct child; try discriminate Htruthy; reflexivity.
Qed.

(** The scan of [determineModuleTypeFromString] sets the flag exactly when
    the walk visits a node of one of the nine types. *)
Lemma traverseUntilFound_spec (ast : value) :
  traverseUntilFound ast false = true <->
  exists node, visitedIn node ast /\ foundExport node = true.
Proof.
  induction ast as [| | | | |elems IH|fields IH] using value_tree_ind;
    try (split; [discriminate | intros [node [Hn _]]; inversion Hn]).
  - cbn [traverseUntilFound]. rewrite untilFoundElements_spec. cbn [orb].
    rewrite existsb_exists. rewrite Forall_forall in IH. split.
    + intros [child [Hin Hfound]]. apply andb_prop in Hfound.
      destruct Hfound as [Hobj Hfound]. apply (IH child Hin) in Hfound.
      destruct Hfound as [node [Hn Hf]]. exists node. split; [|exact Hf].
      now apply visitedIn_element with child.
    + intros [node [Hn Hf]]. inversion Hn as [| |child elems' Hin Hobj Hc]; subst.
      exists child. split; [exact Hin|]. rewrite Hobj. cbn [andb].
      apply (IH child Hin). now exists node.
  - cbn [traverseUntilFound]. rewrite untilFoundEntries_spec, orb_true_iff.
    rewrite existsb_exists. rewrite Forall_forall in IH. split.
    + intros [Hhere|[[k child] [Hin Hfound]]].
      * exists (VObj fields). split; [now constructor | exact Hhere].
      * cbn [fst snd] in Hfound. apply andb_prop in Hfound.
        destruct Hfound as [Hk Hfound]. apply negb_true_iff in Hk.
        apply (IH (k, child) Hin) in Hfound.
        destruct Hfound as [node [Hn Hf]]. exists node. split; [|exact Hf].
        now apply visitedIn_field with k child.
    + intros [node [Hn Hf]].
      inversion Hn as [fields' Heq|k child fields' Hin Hk Hc|]; subst.
      * now left.
      * right. exists (k, child). split; [exact Hin|]. cbn [fst snd].
        rewrite Hk. cbn [negb andb]. apply (IH (k, child) Hin). now exists node.
Qed.

(** [determineModuleTypeFromPath] decides by the extensions .cjs and .mjs
    only; every other file is read and parsed. *)
Lemma determineModuleTypeFromPath_classifies (h : Host) (path : string) :
  let ext := Js.sliceFrom (Js.toLowerCase path) (-4) in
  (ext = ".mjs" \/ ext = ".cjs" -> determineModuleTypeFromPath h path = Ok ext) /\
  (ext <> ".mjs" -> ext <> ".cjs" ->
   forall text ast,
     readFile h path = Ok text -> parseModule h text = Ok ast ->
     determineModuleTypeFromPath h path
     = Ok (if traverseUntilFound ast false then ".mjs" else ".cjs")).
Proof.
  cbv zeta. unfold determineModuleTypeFromPath, determineModuleTypeFromString.
  set (ext := Js.sliceFrom (Js.toLowerCase path) (-4)). split.
  - intros [->| ->]; reflexivity.
  - intros H1 H2 text ast Hread Hparse.
    apply String.eqb_neq in H1, H2. rewrite H1, H2. cbn [orb].
    rewrite Hread. cbn [bind]. rewrite Hparse. reflexivity.
Qed.

(** Evaluation of closed goals: conjunctions are taken apart and every
    equation is decided by running both sides. *)
Ltac run := vm_compute; reflexivity.
Ltac runs :=
  repeat match goal with
         | |- _ /\ _ => split
         | |- exists _, _ => eexists
         | |- _ = _ => run
         end.

(* ================================================================= *)
(** ** Termination of the traversal and the shape of the module graph *)

(** C10.  The traversal of [build] terminates whenever the raw paths that
    can be reached from the entry file lie in a finite set [U], cycles
    included: with enough fuel the loop either empties the work stack,
    having explored no raw path twice, or stops at the first exception. *)
Theorem build_traversal_terminates (h : Host) (entryFilePath : string)
    (U : list string) :
  In (firstFilePath h entryFilePath) U ->
  closedUnderDependencies h U ->
  exists fuel,
    (exists st, traverseFiles fuel h (initialState h entryFilePath) = Some (Ok st)
                /\ fileStack st = [] /\ NoDup (explored st)
                /\ map rawInputFile (internalSourceFiles st) = explored st)
    \/ (exists e, traverseFiles fuel h (initialState h entryFilePath) = Some (Threw e)).
Proof.
  intros Hentry Hclosed.
  destruct (traverseFiles_finishes h U Hclosed
              (List.length (unexplored U []))
              [mkFrame (firstFilePath h entryFilePath)
                       (Posix.extname (firstFilePath h entryFilePath)) "entry"]
              [] [] []) as [fuel [r Hr]].
  - apply Nat.le_refl.
  - intros frame [<-|[]]. exact Hentry.
  - exists fuel. destruct r as [st|e].
    + left. exists st. split; [exact Hr|].
      assert (Hinit : graphInvariant h (initialState h entryFilePath))
        by (repeat split; simpl; [constructor | tauto]).
      destruct (traverseFiles_invariant h fuel _ st Hinit Hr) as [[Hraw [Hnd _]] Hstack].
      repeat split; assumption.
    + right. exists e. exact Hr.
Qed.

Lemma build_traversal_terminates_witness :
  exists fuel,
    (exists st, traverseFiles fuel Sample.cycle (initialState Sample.cycle "/p/a.ts")
                = Some (Ok st)
                /\ fileStack st = [] /\ NoDup (explored st)
                /\ map rawInputFile (internalSourceFiles st) = explored st)
    \/ (exists e, traverseFiles fuel Sample.cycle (initialState Sample.cycle "/p/a.ts")
                  = Some (Threw e)).
Proof.
  apply (build_traversal_terminates Sample.cycle "/p/a.ts" ["/p/a.ts"; "/p/b"; "/p/a"]).
  - left. reflexivity.
  - intros [p hint m] v Hp Hv next Hnext. simpl in Hp.
    destruct Hp as [<-|[<-|[<-|[]]]];
      vm_compute in Hv; injection Hv as <-; simpl in Hnext;
      destruct Hnext as [<-|[]]; simpl; tauto.
Defined.

(** On the cycle the loop is over after six iterations. *)
Example cycle_graph :
  exists st,
    traverseFiles 6 Sample.cycle (initialState Sample.cycle "/p/a.ts") = Some (Ok st) /\
    internalSourceFiles st =
      [mkSourceFile "/p/a.ts" "/p/a.ts" ".mjs"; mkSourceFile "/p/b" "/p/b.ts" ".mjs";
       mkSourceFile "/p/a" "/p/a.ts" ".mjs"].
Proof. runs. Qed.




(* ================================================================= *)
(** ** Resolution during the traversal *)

(** C7.  The traversal calls [findActualFilePath] with the path alone, so
    the frame's hint takes no part in the resolution: /p/main.js imports
    ./a, the frame pushed for it carries the hint .js, a.ts and a.js lie
    beside it, and the graph records a.ts, where resolving with the hint
    gives a.js. *)
Theorem traversal_resolves_without_hint :
  (exists v, visit Sample.twoSiblings (mkFrame "/p/main.js" ".js" "entry") = Ok v /\
             pushed v = [mkFrame "/p/a" ".js" "import"]) /\
  (exists st,
     traverseFiles 3 Sample.twoSiblings (initialState Sample.twoSiblings "/p/main.js")
       = Some (Ok st) /\
     internalSourceFiles st =
       [mkSourceFile "/p/main.js" "/p/main.js" ".mjs";
        mkSourceFile "/p/a" "/p/a.ts" ".mjs"]) /\
  findActualFilePath Sample.twoSiblings "/p/a" (Some ".js") = Ok "/p/a.js".
Proof. runs. Qed.

(** For every frame the file chosen is the one [findActualFilePath] gives
    with no hint, whatever hint the frame carries. *)
Lemma visit_ignores_hint (h : Host) (frame : Frame) (v : Visit) :
  visit h frame = Ok v ->
  findActualFilePath h (filePath frame) None = Ok (actualFilePath v).
Proof.
  unfold visit. intros Hv.
  destruct (findActualFilePath h (filePath frame) None) as [a|]; [|discriminate].
  cbn [bind] in Hv.
  repeat match type of Hv with
         | bind ?e _ = Ok _ => destruct e; [cbn [bind] in Hv | discriminate Hv]
         end.
  now injection Hv as <-.
Qed.

(** C3.  An unresolvable specifier does stop the build, but the statement
    that should raise the resolution error reads [entryMethod], which is
    not in scope there: the build ends with a ReferenceError that names
    neither the mechanism nor the path. *)
Theorem unresolved_import_throws_ReferenceError :
  findActualFilePath Sample.missingImport "/p/missing" None
    = Threw (ReferenceError "entryMethod is not defined") /\
  build 2 Sample.missingImport "/p/main.ts" (Some "/w/out")
    = Some (Threw (ReferenceError "entryMethod is not defined")).
Proof. runs. Qed.

(** Whatever the file system holds, the resolver never raises the error
    with the message ["Bad ... target: could not resolve ..."] unless the
    host's own [readdir] raised it. *)
Lemma findActualFilePath_never_reports (h : Host) (filePath : string)
    (hint : option string) (message : string) :
  (forall p m, readdir h p <> Threw (Error m)) ->
  findActualFilePath h filePath hint <> Threw (Error message).
Proof.
  intros Hrd. unfold findActualFilePath.
  destruct (match lstat h filePath with Ok b => b | Threw _ => false end);
    [discriminate|].
  destruct (readdir h (Posix.dirname filePath)) as [entries|e] eqn:He; simpl.
  2:{ intros Heq. injection Heq as ->. eapply Hrd. exact He. }
  match goal with
  | |- context [fold_left ?f entries ?a] =>
      destruct (fold_left f entries a) as [anyExt hasSub]
  end.
  destruct hasSub; simpl.
  - destruct (readdir h filePath) as [subEntries|e] eqn:Hs; simpl.
    2:{ intros Heq. injection Heq as ->. eapply Hrd. exact Hs. }
    repeat match goal with
           | |- (if ?c then _ else _) <> _ => destruct c; try discriminate
           | |- match ?c with Some _ => _ | None => _ end <> _ =>
               destruct c; try discriminate
           end.
  - repeat match goal with
           | |- (if ?c then _ else _) <> _ => destruct c; try discriminate
           | |- match ?c with Some _ => _ | None => _ end <> _ =>
               destruct c; try discriminate
           end.
Qed.

(* ================================================================= *)
(** ** Output paths *)

(** C6.  The path a file is written to is the output directory joined
    with the output directory joined with the file's place below the common
    root: for the directory /w/out (and likewise for the default one) the
    entry file goes to /w/out/w/out/main.mjs, not to /w/out/main.mjs.  For
    the relative directory ../../x the written path leaves the output
    directory, and when the common root is / the first directory of every
    file is cut off. *)
Theorem output_path_repeats_output_directory :
  outputFilePathOf "/w/out" "/p" (mkSourceFile "/p/main.ts" "/p/main.ts" ".mjs")
    = "/w/out/w/out/main.mjs" /\
  Posix.join ["/w/out"; "main.mjs"] = "/w/out/main.mjs" /\
  (exists b, build 3 Sample.explicitExtension "/p/main.ts" None = Some (Ok b) /\
             commonRoot b = "/p" /\
             map fst (written b) =
               ["/w/.jbuild/w/.jbuild/main.mjs"; "/w/.jbuild/w/.jbuild/a.mjs"]) /\
  outputFilePathOf "../../x" "/p" (mkSourceFile "/p/main.ts" "/p/main.ts" ".mjs")
    = "../../../x/main.mjs" /\
  (exists b, build 3 Sample.acrossRoot "/a/main.ts" (Some "/w/out") = Some (Ok b) /\
             commonRoot b = "/" /\
             map inputFile (graph b) = ["/a/main.ts"; "/b/dep.ts"] /\
             map fst (written b) = ["/w/out/w/out/main.mjs"; "/w/out/w/out/dep.mjs"]).
Proof. runs. Qed.

(* ================================================================= *)
(** ** Specifiers written by the rewriter *)

(** C1.  /p/main.ts imports ./a.ts.  The rewriter appends .mjs to the
    specifier, which then names a.ts.mjs beside the emitted main.mjs; the
    target is emitted with its extension replaced, as a.mjs, and no file of
    the name the specifier has is written. *)
Theorem import_specifier_misses_emitted_file :
  ensureMJS "./a.ts" = "./a.ts.mjs" /\
  updateImportsTree Sample.explicitExtension
      (program [importDeclaration [] "./a.ts"])
    = Some (Ok (program [importDeclaration [] "./a.ts.mjs"])) /\
  exists b,
    build 3 Sample.explicitExtension "/p/main.ts" (Some "/w/out") = Some (Ok b) /\
    graph b = [mkSourceFile "/p/main.ts" "/p/main.ts" ".mjs";
               mkSourceFile "/p/a.ts" "/p/a.ts" ".mjs"] /\
    map fst (written b) = ["/w/out/w/out/main.mjs"; "/w/out/w/out/a.mjs"] /\
    Posix.resolve "/w" ["/w/out/w/out/main.mjs"; ".."; "./a.ts.mjs"]
      = "/w/out/w/out/a.ts.mjs" /\
    ~ In "/w/out/w/out/a.ts.mjs" (map fst (written b)).
Proof.
  split; [run|]. split; [run|].
  eexists. split; [run|]. split; [run|]. split; [run|]. split; [run|].
  change (~ In "/w/out/w/out/a.ts.mjs" ["/w/out/w/out/main.mjs"; "/w/out/w/out/a.mjs"]).
  intros [H|[H|[]]]; discriminate.
Qed.

(** C2.  A literal argument of [require] goes through [ensureMJS]:
    [require('./x')] becomes [require('./x.mjs')], while /p/x.ts, reached by
    that call, is emitted as x.cjs.  Only the template-literal argument
    goes through [ensureCJS]. *)
Theorem require_literal_gets_static_extension :
  updateImportsTree Sample.requireTs
      (program [Sample.callStatement (ident "require") [literal "./x"]])
    = Some (Ok (program
                  [Sample.callStatement (ident "require") [literal "./x.mjs"]])) /\
  updateImportsTree Sample.requireTs
      (program
         [Sample.callStatement (ident "require") [Sample.templateLiteral "./x"]])
    = Some (Ok (program
                  [Sample.callStatement (ident "require")
                     [Sample.templateLiteral "./x.cjs"]])) /\
  exists b,
    build 3 Sample.requireTs "/p/main.js" (Some "/w/out") = Some (Ok b) /\
    graph b = [mkSourceFile "/p/main.js" "/p/main.js" ".cjs";
               mkSourceFile "/p/x" "/p/x.ts" ".cjs"] /\
    map fst (written b) = ["/w/out/w/out/main.cjs"; "/w/out/w/out/x.cjs"].
Proof. runs. Qed.

(* ================================================================= *)
(** ** Module-type classification *)

(** C9.  [determineModuleTypeFromPath], the classifier the rewriter calls,
    knows the extensions .cjs and .mjs only: the entry file index.cts of a
    package is read and parsed, and since it exports a name it is classified
    as static-format.  [determineModuleType] classifies the same path as
    dynamic-format by its extension. *)
Theorem classifier_parses_cts_file :
  determineModuleTypeFromPath Sample.ctsPackage "/w/node_modules/ext/index.cts"
    = Ok ".mjs" /\
  determineModuleType Sample.ctsPackage "/w/node_modules/ext/index.cts"
    = Ok "require".
Proof. runs. Qed.

(* ================================================================= *)
(** ** The interop shim *)

Section Shim.

Variable h : Host.

(** The local binding of the shim: the default local name, or else xnr_
    and the last twelve characters of the UUID the promise draws. *)
Lemma uniqueIDOf_default (default : option string) (rank : nat) :
  uniqueIDOf h rank (defaultValue default)
  = VStr match default with
         | Some local => local
         | None => "xnr_" ++ Js.sliceFrom (randomUUID h rank) (-12)
         end.
Proof. destruct default; reflexivity. Qed.

(** The promise of [import default, { named } from 'source'] at position
    [n], settled: the dependency being dynamic-format, the declaration gets
    the one default specifier and the destructuring follows it. *)
Lemma settleElements_named_import (default : option string)
    (named : list (string * string)) (source entry : string) (n rank : nat) :
  named <> [] ->
  importMetaResolve h source = Ok entry ->
  determineModuleTypeFromPath h entry = Ok ".cjs" ->
  settleElements (settle h) h
    (numbered rank (prefixed (SIdx n) (ownPromise (promiseOf default named source))))
    n [importOf default named source]
  = Ok [importOf (Some match default with
                       | Some local => local
                       | None => "xnr_" ++ Js.sliceFrom (randomUUID h rank) (-12)
                       end) [] source;
        destructuringOf named
          match default with
          | Some local => local
          | None => "xnr_" ++ Js.sliceFrom (randomUUID h rank) (-12)
          end].
Proof.
  intros Hnamed Hresolve Hclass.
  destruct named as [|n0 named]; [contradiction|].
  cbn [promiseOf ownPromise prefixed map fst snd app numbered].
  cbn [settleElements select flat_map fst snd stepEqb app].
  rewrite Nat.eqb_refl.
  cbn [app own find fst snd].
  rewrite settle_own_only by (intros p [<-|[]]; reflexivity).
  cbn [bind spliceAfter settled promisedValue promisedDefaultImport
       promisedNamedImports].
  rewrite Hresolve. cbn [bind]. rewrite Hclass.
  change (String.eqb ".cjs" ".cjs") with true. cbv iota.
  rewrite uniqueIDOf_default. reflexivity.
Qed.


(** A file that holds nothing but that import is always rewritten, to the
    default import and the destructuring. *)
Lemma named_import_alone_is_rewritten (default : option string)
    (named : list (string * string)) (source entry : string) :
  named <> [] -> source <> "" -> isInternal source = false ->
  isNodeBuiltin h (VStr source) = Ok false ->
  importMetaResolve h source = Ok entry ->
  determineModuleTypeFromPath h entry = Ok ".cjs" ->
  updateImportsTree h (program [importOf default named source])
  = Some (Ok (program
                [importOf (Some match default with
                                | Some local => local
                                | None => "xnr_" ++ Js.sliceFrom (randomUUID h 0) (-12)
                                end) [] source;
                 destructuringOf named
                   match default with
                   | Some local => local
                   | None => "xnr_" ++ Js.sliceFrom (randomUUID h 0) (-12)
                   end])).
Proof.
  intros Hnamed Hne Hext Hbuiltin Hresolve Hclass.
  rewrite updateImportsTree_program. cbn [eachElement].
  change (isObject (importOf default named source)) with true. cbv iota.
  destruct (rewriteTree_enough h
              (S (list_sum (map weight [importOf default named source])))
              (importOf default named source)) as [r Hr].
  { change (list_sum (map weight [importOf default named source]))
      with (weight (importOf default named source) + 0)%nat. lia. }
  rewrite Hr.
  apply (rewriteTree_importOf h default named source _ r Hne Hext Hbuiltin) in Hr.
  subst r. cbn [bindF fst snd]. rewrite app_nil_r.
  rewrite (settleElements_named_import default named source entry 0 0
             Hnamed Hresolve Hclass).
  reflexivity.
Qed.



End Shim.


(* ================================================================= *)
(** ** Two runs of the build *)

Section TwoRuns.

Variable h : Host.
Variable uuid : nat -> string.

















End TwoRuns.




(* ================================================================= *)
(** ** Facts about strings and [path.extname] *)

Module JsFacts.

Lemma length_app (s t : string) :
  String.length (s ++ t) = (String.length s + String.length t)%nat.
Proof. induction s as [|c s IH]; simpl; [reflexivity | now rewrite IH]. Qed.

Lemma append_assoc (s t u : string) : (s ++ t) ++ u = s ++ (t ++ u).
Proof. induction s as [|c s IH]; simpl; [reflexivity | now rewrite IH]. Qed.

Lemma append_nil_r (s : string) : s ++ "" = s.
Proof. induction s as [|c s IH]; simpl; [reflexivity | now rewrite IH]. Qed.

Lemma len_app (s t : string) : Js.len (s ++ t) = Js.len s + Js.len t.
Proof. unfold Js.len. rewrite length_app. lia. Qed.

Lemma substring_zero (n : nat) (s : string) : String.substring n 0 s = "".
Proof.
  revert n. induction s as [|c s IH]; intros [|n]; simpl; try reflexivity. apply IH.
Qed.

Lemma substring_all (s : string) : String.substring 0 (String.length s) s = s.
Proof. induction s as [|c s IH]; simpl; [reflexivity | now rewrite IH]. Qed.

Lemma substring_app_l (s t : string) :
  String.substring 0 (String.length s) (s ++ t) = s.
Proof.
  induction s as [|c s IH]; simpl.
  - destruct t; reflexivity.
  - now rewrite IH.
Qed.

Lemma substring_app_r (s t : string) (n : nat) :
  String.substring (String.length s) n (s ++ t) = String.substring 0 n t.
Proof. induction s as [|c s IH]; simpl; [reflexivity | exact IH]. Qed.

Lemma clampIndex_id (n i : Z) : 0 <= i <= n -> Js.clampIndex n i = i.
Proof.
  intros H. unfold Js.clampIndex.
  destruct (i <? 0) eqn:Hi; [apply Z.ltb_lt in Hi; lia | lia].
Qed.

(** [s.slice(a, b)] for [0 <= a <= b <= s.length] *)
Lemma slice_nat (s : string) (a b : nat) :
  (a <= b <= String.length s)%nat ->
  Js.slice s (Z.of_nat a) (Z.of_nat b) = String.substring a (b - a) s.
Proof.
  intros H. unfold Js.slice, Js.len. rewrite !clampIndex_id by lia.
  destruct (Z.of_nat b <=? Z.of_nat a) eqn:Hle.
  - apply Z.leb_le in Hle. replace (b - a)%nat with 0%nat by lia.
    now rewrite substring_zero.
  - rewrite Nat2Z.id. f_equal. lia.
Qed.

Lemma sliceFrom_nat (s : string) (a : nat) :
  (a <= String.length s)%nat ->
  Js.sliceFrom s (Z.of_nat a) = String.substring a (String.length s - a) s.
Proof. intros H. unfold Js.sliceFrom, Js.len. apply slice_nat. lia. Qed.

Lemma sliceFrom_0 (s : string) : Js.sliceFrom s 0 = s.
Proof.
  change 0 with (Z.of_nat 0). rewrite sliceFrom_nat by lia.
  rewrite Nat.sub_0_r. apply substring_all.
Qed.

Lemma sliceFrom_app (s t : string) : Js.sliceFrom (s ++ t) (Js.len s) = t.
Proof.
  unfold Js.len at 1. rewrite sliceFrom_nat by (rewrite length_app; lia).
  rewrite length_app. replace (String.length s + String.length t - String.length s)%nat
    with (String.length t) by lia.
  rewrite substring_app_r. apply substring_all.
Qed.

Lemma startsWith_app (s t : string) : Js.startsWith (s ++ t) s = true.
Proof.
  unfold Js.startsWith. induction s as [|c s IH]; simpl.
  - destruct t; reflexivity.
  - destruct (ascii_dec c c); [exact IH | congruence].
Qed.

Lemma startsWith_split (s p : string) :
  Js.startsWith s p = true -> exists t, s = p ++ t.
Proof.
  unfold Js.startsWith. revert s. induction p as [|c p IH]; intros s H.
  - now exists s.
  - destruct s as [|d s]; [discriminate|]. simpl in H.
    destruct (ascii_dec c d) as [->|]; [|discriminate].
    destruct (IH s H) as [t ->]. now exists t.
Qed.

End JsFacts.


Module PosixFacts.

Import JsFacts.

Lemma charAt_nat (s : string) (i : nat) : Js.charAt s (Z.of_nat i) = String.get i s.
Proof.
  unfold Js.charAt. destruct (Z.of_nat i <? 0) eqn:H; [apply Z.ltb_lt in H; lia|].
  now rewrite Nat2Z.id.
Qed.

Lemma get_app_r (s t : string) (j : nat) :
  String.get (String.length s + j) (s ++ t) = String.get j t.
Proof. rewrite Nat.add_comm. symmetry. apply append_correct2. Qed.

Lemma get_allChars (f : ascii -> bool) (e : string) :
  allChars f e = true ->
  forall j, (j < String.length e)%nat -> exists x, String.get j e = Some x /\ f x = true.
Proof.
  induction e as [|c e IH]; intros He j Hj; simpl in *; [lia|].
  apply andb_prop in He. destruct He as [Hc He].
  destruct j as [|j]; [now exists c|]. apply IH; [assumption | lia].
Qed.

(** Once the scan of [extname] has met the last dot after a character of
    the name, the rest of the path changes neither the dot nor the end of
    the extension. *)
Lemma extname_loop_keeps (p : string) (n : nat) :
  forall st,
    Posix.startDot st <> -1 -> Posix.stop st <> -1 -> Posix.preDotState st <> 0 ->
    let st' := Posix.extname_loop p n st in
    Posix.startDot st' = Posix.startDot st /\ Posix.stop st' = Posix.stop st /\
    Posix.preDotState st' <> 0.
Proof.
  induction n as [|n IH]; intros st Hd Hs Hp; cbn zeta; [now repeat split|].
  cbn [Posix.extname_loop].
  destruct (Js.isChar Posix.slash (Js.charAt p (Z.of_nat n))).
  - destruct (negb (Posix.matchedSlash st)); [now repeat split | now apply IH].
  - apply Z.eqb_neq in Hs as Hs'. rewrite Hs'.
    destruct (Js.isChar Posix.dot (Js.charAt p (Z.of_nat n))).
    + apply Z.eqb_neq in Hd as Hd'. rewrite Hd'.
      destruct (negb (Posix.preDotState st =? 1)).
      * specialize (IH (Posix.mkExt (Posix.startDot st) (Posix.startPart st)
                          (Posix.stop st) (Posix.matchedSlash st) 1)).
        cbn [Posix.startDot Posix.stop Posix.preDotState] in IH. apply IH; [assumption..|lia].
      * now apply IH.
    + apply Z.eqb_neq in Hd as Hd'. rewrite Hd'. cbn [negb].
      specialize (IH (Posix.mkExt (Posix.startDot st) (Posix.startPart st)
                        (Posix.stop st) (Posix.matchedSlash st) (-1))).
      cbn [Posix.startDot Posix.stop Posix.preDotState] in IH. apply IH; [assumption..|lia].
Qed.

(** One iteration of the scan at a character that is not a slash. *)
Lemma extname_loop_char (p : string) (n : nat) (x : ascii) (st : Posix.extState) :
  String.get n p = Some x -> Ascii.eqb x Posix.slash = false ->
  Posix.extname_loop p (S n) st =
  Posix.extname_loop p n
    (let st1 :=
       if Posix.stop st =? -1
       then Posix.mkExt (Posix.startDot st) (Posix.startPart st) (Z.of_nat n + 1) false
                        (Posix.preDotState st)
       else st in
     if Ascii.eqb x Posix.dot then
       if Posix.startDot st1 =? -1
       then Posix.mkExt (Z.of_nat n) (Posix.startPart st1) (Posix.stop st1)
                        (Posix.matchedSlash st1) (Posix.preDotState st1)
       else if negb (Posix.preDotState st1 =? 1)
       then Posix.mkExt (Posix.startDot st1) (Posix.startPart st1) (Posix.stop st1)
                        (Posix.matchedSlash st1) 1
       else st1
     else if negb (Posix.startDot st1 =? -1)
     then Posix.mkExt (Posix.startDot st1) (Posix.startPart st1) (Posix.stop st1)
                      (Posix.matchedSlash st1) (-1)
     else st1).
Proof.
  intros Hx Hs. cbn [Posix.extname_loop]. rewrite charAt_nat, Hx.
  unfold Js.isChar. rewrite (Ascii.eqb_sym Posix.slash), Hs, (Ascii.eqb_sym Posix.dot).
  reflexivity.
Qed.

Lemma plain_chars (x : ascii) :
  plain x = true -> Ascii.eqb x Posix.slash = false /\ Ascii.eqb x Posix.dot = false.
Proof.
  unfold plain. intros H. apply andb_prop in H. destruct H as [H1 H2].
  now apply negb_true_iff in H1, H2.
Qed.

(** The scan at the last character of the path, a plain one. *)
Lemma extname_loop_last (p : string) (n : nat) (x : ascii) :
  String.get n p = Some x -> plain x = true ->
  Posix.extname_loop p (S n) (Posix.mkExt (-1) 0 (-1) true 0)
  = Posix.extname_loop p n (Posix.mkExt (-1) 0 (Z.of_nat n + 1) false 0).
Proof.
  intros Hx Hp. destruct (plain_chars x Hp) as [H1 H2].
  rewrite (extname_loop_char p n x) by assumption.
  cbn -[Z.of_nat Z.add Posix.extname_loop]. rewrite H2.
  replace (Z.of_nat n + 1 =? -1) with false by (symmetry; apply Z.eqb_neq; lia).
  reflexivity.
Qed.

(** The scan at a plain character before any dot was met. *)
Lemma extname_loop_before_dot (p : string) (n : nat) (x : ascii) (sp e : Z) (ms : bool)
    (pd : Z) :
  String.get n p = Some x -> plain x = true -> e <> -1 ->
  Posix.extname_loop p (S n) (Posix.mkExt (-1) sp e ms pd)
  = Posix.extname_loop p n (Posix.mkExt (-1) sp e ms pd).
Proof.
  intros Hx Hp He. destruct (plain_chars x Hp) as [H1 H2].
  rewrite (extname_loop_char p n x) by assumption.
  apply Z.eqb_neq in He.
  cbn -[Z.of_nat Z.add Posix.extname_loop Z.eqb]. rewrite He.
  cbn -[Z.of_nat Z.add Posix.extname_loop]. rewrite H2. reflexivity.
Qed.

(** The scan at the first dot it meets. *)
Lemma extname_loop_at_dot (p : string) (n : nat) (sp e : Z) (ms : bool) (pd : Z) :
  String.get n p = Some Posix.dot -> e <> -1 ->
  Posix.extname_loop p (S n) (Posix.mkExt (-1) sp e ms pd)
  = Posix.extname_loop p n (Posix.mkExt (Z.of_nat n) sp e ms pd).
Proof.
  intros Hx He.
  rewrite (extname_loop_char p n Posix.dot) by (assumption || reflexivity).
  apply Z.eqb_neq in He.
  cbn -[Z.of_nat Z.add Posix.extname_loop Z.eqb]. rewrite He.
  reflexivity.
Qed.

(** The scan at the character before the dot, when it is not a slash. *)
Lemma extname_loop_after_dot (p : string) (n : nat) (x : ascii) (d sp e : Z) (ms : bool) :
  String.get n p = Some x -> Ascii.eqb x Posix.slash = false -> d <> -1 -> e <> -1 ->
  exists pd, pd <> 0 /\
    Posix.extname_loop p (S n) (Posix.mkExt d sp e ms 0)
    = Posix.extname_loop p n (Posix.mkExt d sp e ms pd).
Proof.
  intros Hx Hs Hd He.
  rewrite (extname_loop_char p n x) by assumption.
  apply Z.eqb_neq in He, Hd.
  cbn -[Z.of_nat Z.add Posix.extname_loop Z.eqb]. rewrite He.
  cbn -[Z.of_nat Z.add Posix.extname_loop Z.eqb]. rewrite Hd.
  destruct (Ascii.eqb x Posix.dot).
  - exists 1. split; [lia | reflexivity].
  - exists (-1). split; [lia | reflexivity].
Qed.

Section Suffix.

Variables (s e : string) (c : ascii).
Hypothesis Hc : Ascii.eqb c Posix.slash = false.
Hypothesis He : allChars plain e = true.

Let p : string := s ++ String c (String Posix.dot e).

Lemma get_ext (j : nat) : String.get (String.length s + 2 + j) p = String.get j e.
Proof.
  unfold p. replace (String.length s + 2 + j)%nat with (String.length s + (S (S j)))%nat by lia.
  rewrite get_app_r. reflexivity.
Qed.

Lemma get_dot : String.get (String.length s + 1) p = Some Posix.dot.
Proof. unfold p. rewrite get_app_r. reflexivity. Qed.

Lemma get_last : String.get (String.length s) p = Some c.
Proof.
  unfold p. replace (String.length s) with (String.length s + 0)%nat at 1 by lia.
  rewrite get_app_r. reflexivity.
Qed.

Lemma extname_loop_plain (j : nat) :
  (j <= String.length e)%nat ->
  forall sp stop ms pd, stop <> -1 ->
    Posix.extname_loop p (String.length s + 2 + j) (Posix.mkExt (-1) sp stop ms pd)
    = Posix.extname_loop p (String.length s + 2) (Posix.mkExt (-1) sp stop ms pd).
Proof.
  induction j as [|j IH]; intros Hj sp stop ms pd Hs.
  - now rewrite Nat.add_0_r.
  - replace (String.length s + 2 + S j)%nat with (S (String.length s + 2 + j)) by lia.
    destruct (get_allChars plain e He j) as [x [Hx Hplain]]; [lia|].
    rewrite (extname_loop_before_dot p _ x) by (rewrite ?get_ext; assumption).
    apply IH; [lia | assumption].
Qed.

Lemma extname_suffix : e <> "" -> Posix.extname p = String Posix.dot e.
Proof.
  intros Hne.
  assert (Hk : exists k, String.length e = S k).
  { destruct e as [|x e']; [congruence | now exists (String.length e')]. }
  destruct Hk as [k Hk].
  assert (Hlen : String.length p = S (String.length s + 2 + k)).
  { unfold p. rewrite length_app. simpl. rewrite Hk. lia. }
  unfold Posix.extname. rewrite Hlen.
  destruct (get_allChars plain e He k) as [y [Hy Hplain]]; [lia|].
  rewrite (extname_loop_last p _ y) by (rewrite ?get_ext; assumption).
  set (N := Z.of_nat (String.length s + 2 + k) + 1).
  assert (HN : N <> -1) by (unfold N; lia).
  rewrite extname_loop_plain by (assumption || lia).
  replace (String.length s + 2)%nat with (S (String.length s + 1)) by lia.
  rewrite extname_loop_at_dot by (rewrite ?get_dot; assumption || reflexivity).
  set (D := Z.of_nat (String.length s + 1)).
  assert (HD : D <> -1) by (unfold D; lia).
  replace (String.length s + 1)%nat with (S (String.length s)) by lia.
  destruct (extname_loop_after_dot p (String.length s) c D 0 N false)
    as [pd [Hpd ->]]; [apply get_last | assumption..|].
  destruct (extname_loop_keeps p (String.length s) (Posix.mkExt D 0 N false pd))
    as [Hd [Hs Hpre]]; [assumption..|].
  cbn [Posix.startDot Posix.stop Posix.preDotState] in Hd, Hs.
  set (st1 := Posix.extname_loop p (String.length s) _) in *.
  rewrite Hd, Hs.
  apply Z.eqb_neq in HD, HN, Hpre. rewrite HD, HN, Hpre.
  replace (D =? N - 1) with false by (symmetry; apply Z.eqb_neq; unfold D, N; lia).
  rewrite andb_false_r. cbn [orb andb].
  unfold D, N.
  replace (Z.of_nat (String.length s + 2 + k) + 1)
    with (Z.of_nat (String.length p)) by (rewrite Hlen; lia).
  rewrite slice_nat by (rewrite Hlen; lia).
  unfold p. replace (String.length s + 1)%nat with (String.length (s ++ String c "")).
  2:{ rewrite length_app. simpl. lia. }
  replace (s ++ String c (String Posix.dot e)) with ((s ++ String c "") ++ String Posix.dot e).
  2:{ rewrite append_assoc. reflexivity. }
  rewrite substring_app_r.
  rewrite length_app.
  replace (String.length (s ++ String c "") + String.length (String Posix.dot e)
           - String.length (s ++ String c ""))%nat
    with (String.length (String Posix.dot e)) by lia.
  apply substring_all.
Qed.

End Suffix.

End PosixFacts.


Module LowerCaseFacts.

Import JsFacts PosixFacts.

Lemma lowerChar_slash (c : ascii) :
  Ascii.eqb (Js.lowerChar c) Posix.slash = Ascii.eqb c Posix.slash.
Proof.
  destruct c as [[] [] [] [] [] [] [] []]; reflexivity.
Qed.

Lemma lowerChar_dot (c : ascii) :
  Ascii.eqb (Js.lowerChar c) Posix.dot = Ascii.eqb c Posix.dot.
Proof.
  destruct c as [[] [] [] [] [] [] [] []]; reflexivity.
Qed.

Lemma lowerChar_idem (c : ascii) : Js.lowerChar (Js.lowerChar c) = Js.lowerChar c.
Proof.
  destruct c as [[] [] [] [] [] [] [] []]; reflexivity.
Qed.

Lemma toLowerCase_idem (s : string) : Js.toLowerCase (Js.toLowerCase s) = Js.toLowerCase s.
Proof. induction s as [|c s IH]; simpl; [reflexivity | now rewrite lowerChar_idem, IH]. Qed.

Lemma toLowerCase_length (s : string) :
  String.length (Js.toLowerCase s) = String.length s.
Proof. induction s as [|c s IH]; simpl; [reflexivity | now rewrite IH]. Qed.

Lemma toLowerCase_get (s : string) (i : nat) :
  String.get i (Js.toLowerCase s) = option_map Js.lowerChar (String.get i s).
Proof.
  revert i. induction s as [|c s IH]; intros [|i]; simpl; try reflexivity. apply IH.
Qed.

Lemma toLowerCase_substring (s : string) (a n : nat) :
  String.substring a n (Js.toLowerCase s) = Js.toLowerCase (String.substring a n s).
Proof.
  revert a n. induction s as [|c s IH]; intros [|a] [|n]; simpl; try reflexivity.
  - now rewrite IH.
  - apply IH.
  - apply IH.
Qed.

Lemma toLowerCase_slice (s : string) (a b : Z) :
  Js.slice (Js.toLowerCase s) a b = Js.toLowerCase (Js.slice s a b).
Proof.
  unfold Js.slice, Js.len. rewrite toLowerCase_length.
  destruct (_ <=? _); [reflexivity | apply toLowerCase_substring].
Qed.

Lemma isChar_lower (c : ascii) (o : option ascii) :
  (c = Posix.slash \/ c = Posix.dot) ->
  Js.isChar c (option_map Js.lowerChar o) = Js.isChar c o.
Proof.
  intros Hc. destruct o as [x|]; [|reflexivity]. unfold Js.isChar, option_map.
  destruct Hc as [-> | ->].
  - now rewrite Ascii.eqb_sym, lowerChar_slash, Ascii.eqb_sym.
  - now rewrite Ascii.eqb_sym, lowerChar_dot, Ascii.eqb_sym.
Qed.

(** The scan of [extname] looks for slashes and dots only, which the
    change of case leaves in place. *)
Lemma extname_loop_lower (p : string) (n : nat) :
  forall st, Posix.extname_loop (Js.toLowerCase p) n st = Posix.extname_loop p n st.
Proof.
  induction n as [|n IH]; intros st; [reflexivity|].
  cbn [Posix.extname_loop]. rewrite !charAt_nat, toLowerCase_get.
  rewrite (isChar_lower Posix.slash) by now left.
  rewrite !(isChar_lower Posix.dot) by now right.
  destruct (Js.isChar Posix.slash (get n p)).
  - destruct (negb (Posix.matchedSlash st)); [reflexivity | apply IH].
  - apply IH.
Qed.

Lemma extname_lower (p : string) :
  Posix.extname (Js.toLowerCase p) = Js.toLowerCase (Posix.extname p).
Proof.
  unfold Posix.extname. rewrite toLowerCase_length, extname_loop_lower.
  destruct (_ || _); [reflexivity | apply toLowerCase_slice].
Qed.

End LowerCaseFacts.


(* ================================================================= *)
(** ** Extensions and the shebang line *)

Section KnownExtensions.

Import JsFacts PosixFacts LowerCaseFacts.

Lemma getKnownExt_lower (p : string) : getKnownExt (Js.toLowerCase p) = getKnownExt p.
Proof.
  unfold getKnownExt. rewrite extname_lower.
  unfold Js.sliceFrom, Js.len. rewrite toLowerCase_length, toLowerCase_slice.
  now rewrite toLowerCase_idem.
Qed.

(** X1.  [getKnownExt] does not depend on the case of the path: two paths
    that differ in case only have the same known extension, or none. *)
Theorem getKnownExt_ignores_case (p q : string) :
  Js.toLowerCase p = Js.toLowerCase q -> getKnownExt p = getKnownExt q.
Proof.
  intros H. rewrite <- (getKnownExt_lower p), <- (getKnownExt_lower q). now rewrite H.
Qed.

Lemma getKnownExt_ignores_case_witness :
  Js.toLowerCase "/p/Main.TSX" = Js.toLowerCase "/P/main.tsx" /\
  getKnownExt "/p/Main.TSX" = getKnownExt "/P/main.tsx".
Proof.
  split; [reflexivity|].
  apply (getKnownExt_ignores_case "/p/Main.TSX" "/P/main.tsx"). reflexivity.
Defined.

(** X2.  For a path that ends in a name, a dot and an extension without
    dot or slash, [getKnownExt] gives the extension in lower case when that
    is one of the eight known ones, and nothing otherwise. *)
Theorem getKnownExt_of_extension (s e : string) (c : ascii) :
  Ascii.eqb c Posix.slash = false -> allChars plain e = true -> e <> "" ->
  getKnownExt (s ++ String c ("." ++ e))
  = if StrSet.has KNOWN_EXT_SET (Js.toLowerCase e)
    then Some (Js.toLowerCase e) else None.
Proof.
  intros Hc He Hne. unfold getKnownExt.
  change ("." ++ e) with (String Posix.dot e).
  rewrite (extname_suffix s e c Hc He Hne).
  change (String Posix.dot e) with ("." ++ e).
  change 1 with (Js.len "."). rewrite sliceFrom_app. reflexivity.
Qed.

Lemma getKnownExt_of_extension_witness :
  Ascii.eqb "n" Posix.slash = false /\ allChars plain "TSX" = true /\ "TSX" <> "" /\
  getKnownExt "/p/Main.TSX" = Some "tsx".
Proof.
  split; [reflexivity|]. split; [reflexivity|]. split; [discriminate|].
  apply (getKnownExt_of_extension "/p/Mai" "TSX" "n"); [reflexivity | reflexivity | discriminate].
Defined.

End KnownExtensions.

Section Ensure.

Import JsFacts PosixFacts.

Lemma last_char (p : string) : p <> "" -> exists s c, p = s ++ String c "".
Proof.
  induction p as [|d p IH]; intros Hne; [congruence|].
  destruct p as [|d' p'].
  - now exists "", d.
  - destruct IH as [s [c Hs]]; [discriminate|]. exists (String d s), c. simpl. now rewrite Hs.
Qed.

Lemma endsWith_slash (s : string) (c : ascii) :
  Js.endsWith (s ++ String c "") "/" = Ascii.eqb c Posix.slash.
Proof.
  unfold Js.endsWith. rewrite len_app.
  replace (Js.len s + Js.len (String c "") - Js.len "/") with (Js.len s)
    by (unfold Js.len; simpl; lia).
  rewrite sliceFrom_app.
  replace (Js.len "/" <=? Js.len s + Js.len (String c "")) with true
    by (symmetry; apply Z.leb_le; unfold Js.len; simpl; lia).
  rewrite andb_true_r. cbn [String.eqb].
  destruct (Ascii.eqb c "/") eqn:E; unfold Posix.slash; rewrite E; reflexivity.
Qed.

Lemma isInternal_app (p t : string) :
  p <> "" -> isInternal (p ++ t) = isInternal p.
Proof.
  intros Hne. destruct p as [|c p]; [congruence|].
  unfold isInternal, Js.startsWith. simpl.
  destruct (ascii_dec "." c), (ascii_dec "/" c); destruct p, t; reflexivity.
Qed.

(** An internal specifier that does not end in a slash has the extension
    that was appended to it. *)
Lemma extname_appended (p e : string) :
  p <> "" -> Js.endsWith p "/" = false -> allChars plain e = true -> e <> "" ->
  Posix.extname (p ++ "." ++ e) = "." ++ e.
Proof.
  intros Hne Hslash He Hee. destruct (last_char p Hne) as [s [c ->]].
  rewrite endsWith_slash in Hslash. rewrite append_assoc.
  exact (extname_suffix s e c Hslash He Hee).
Qed.

Lemma ensure_idempotent (e p : string) :
  allChars plain e = true -> e <> "" -> Js.endsWith p "/" = false ->
  let ensure p :=
    if isInternal p
    then if negb (String.eqb (Posix.extname p) ("." ++ e)) then p ++ "." ++ e else p
    else p in
  ensure (ensure p) = ensure p.
Proof.
  intros He Hee Hslash. cbv beta zeta.
  destruct (isInternal p) eqn:Hint; [|now rewrite Hint].
  destruct (String.eqb (Posix.extname p) ("." ++ e)) eqn:Hext; cbn [negb].
  - now rewrite Hint, Hext.
  - assert (Hne : p <> "") by (intros ->; vm_compute in Hint; discriminate Hint).
    rewrite isInternal_app, Hint by assumption.
    rewrite (extname_appended p e Hne Hslash He Hee), String.eqb_refl. reflexivity.
Qed.

(** X3.  Rewriting a specifier twice is rewriting it once: [ensureMJS] and
    [ensureCJS] are idempotent on every specifier that does not end in a
    slash, so a second pass appends no second extension. *)
Theorem ensure_extension_once (p : string) :
  Js.endsWith p "/" = false ->
  ensureMJS (ensureMJS p) = ensureMJS p /\ ensureCJS (ensureCJS p) = ensureCJS p.
Proof.
  intros Hslash. split.
  - exact (ensure_idempotent "mjs" p eq_refl ltac:(discriminate) Hslash).
  - exact (ensure_idempotent "cjs" p eq_refl ltac:(discriminate) Hslash).
Qed.

Lemma ensure_extension_once_witness :
  Js.endsWith "./a.ts" "/" = false /\
  ensureMJS (ensureMJS "./a.ts") = ensureMJS "./a.ts" /\
  ensureCJS (ensureCJS "./a.ts") = ensureCJS "./a.ts".
Proof.
  split; [reflexivity|]. apply (ensure_extension_once "./a.ts"). reflexivity.
Defined.

End Ensure.


Section Shebang.

Import JsFacts.

(** The first occurrence of a character that [l] does not hold is at the
    end of [l]. *)
Lemma index_char_app (c : ascii) (l t : string) :
  String.index 0 (String c "") l = None ->
  String.index 0 (String c "") (l ++ String c t) = Some (String.length l).
Proof.
  induction l as [|a l IH]; intros Hl.
  - simpl. destruct (ascii_dec c c); [|congruence]. now destruct t.
  - simpl in Hl |- *. destruct (ascii_dec c a).
    + destruct l; discriminate Hl.
    + destruct (String.index 0 (String c "") l); [discriminate|].
      now rewrite IH.
Qed.

Lemma includes_false (s t : string) :
  Js.includes s t = false -> String.index 0 t s = None.
Proof.
  unfold Js.includes, Js.indexOf. destruct (String.index 0 t s); [|reflexivity].
  intros H. apply Z.leb_gt in H. lia.
Qed.

Lemma indexOf_shebang_line (l rest : string) :
  Js.includes l newline = false ->
  Js.indexOf ("#!" ++ l ++ newline ++ rest) newline = Js.len ("#!" ++ l).
Proof.
  intros Hl. apply includes_false in Hl. unfold Js.indexOf, Js.len.
  replace ("#!" ++ l ++ newline ++ rest)
    with (("#!" ++ l) ++ String (ascii_of_nat 10) rest) by (now rewrite append_assoc).
  unfold newline in *.
  rewrite index_char_app; [reflexivity|].
  cbn [append String.index prefix].
  destruct (ascii_dec (ascii_of_nat 10) "#") as [E|_]; [discriminate E|].
  destruct (ascii_dec (ascii_of_nat 10) "!") as [E|_]; [discriminate E|].
  now rewrite Hl.
Qed.

Lemma sliceFrom_shebang_line (l rest : string) :
  Js.sliceFrom ("#!" ++ l ++ newline ++ rest) (Js.len ("#!" ++ l) + 1) = rest.
Proof.
  replace ("#!" ++ l ++ newline ++ rest) with ((("#!" ++ l) ++ newline) ++ rest)
    by (now rewrite !append_assoc).
  replace (Js.len ("#!" ++ l) + 1) with (Js.len (("#!" ++ l) ++ newline))
    by (rewrite len_app; reflexivity).
  apply sliceFrom_app.
Qed.

(** X4.  A first line that starts with [#!] is removed up to and including
    its newline, and nothing else of the text is touched. *)
Theorem stripShebang_removes_first_line (l rest : string) :
  Js.includes l newline = false ->
  stripShebang ("#!" ++ l ++ newline ++ rest) = rest.
Proof.
  intros Hl. unfold stripShebang.
  rewrite startsWith_app, (indexOf_shebang_line l rest Hl).
  apply sliceFrom_shebang_line.
Qed.

Lemma stripShebang_removes_first_line_witness :
  Js.includes "/usr/bin/env tsx" newline = false /\
  stripShebang ("#!" ++ "/usr/bin/env tsx" ++ newline ++ "main();") = "main();".
Proof.
  split; [reflexivity|].
  apply (stripShebang_removes_first_line "/usr/bin/env tsx" "main();"). reflexivity.
Defined.

(** X5.  A text without any newline is left as it is, shebang included:
    the index of the newline is [-1] and the slice starts at [0]. *)
Theorem stripShebang_keeps_single_line (code : string) :
  Js.includes code newline = false -> stripShebang code = code.
Proof.
  intros Hc. unfold stripShebang. destruct (Js.startsWith code "#!"); [|reflexivity].
  unfold Js.indexOf. rewrite (includes_false _ _ Hc). apply sliceFrom_0.
Qed.

Lemma stripShebang_keeps_single_line_witness :
  Js.includes "#!/usr/bin/env node" newline = false /\
  stripShebang "#!/usr/bin/env node" = "#!/usr/bin/env node".
Proof.
  split; [reflexivity|].
  apply (stripShebang_keeps_single_line "#!/usr/bin/env node"). reflexivity.
Defined.

(** X6.  The prelude that [build] writes in front of a file which is not
    given the [createRequire] lines is a shebang line, and it is what
    [stripShebang] removes: the text of such an emitted file, read back by a
    later build, is the rewritten text again. *)
Theorem shebang_prelude_round_trip (outputFormat newFile : string) :
  outputFormat <> ".mjs" \/ Js.includes newFile "createRequire" = true ->
  stripShebang (preludeOf outputFormat newFile ++ newFile) = newFile.
Proof.
  intros H.
  assert (Hp : preludeOf outputFormat newFile = "#!" ++ "/usr/bin/env node" ++ newline).
  { unfold preludeOf. destruct H as [H|H].
    - apply String.eqb_neq in H. now rewrite H.
    - rewrite H. now rewrite andb_false_r. }
  rewrite Hp, !append_assoc. unfold stripShebang.
  rewrite startsWith_app, indexOf_shebang_line by reflexivity.
  apply sliceFrom_shebang_line.
Qed.

Lemma shebang_prelude_round_trip_witness :
  (".cjs" <> ".mjs" \/ Js.includes "module.exports = 1;" "createRequire" = true) /\
  stripShebang (preludeOf ".cjs" "module.exports = 1;" ++ "module.exports = 1;")
  = "module.exports = 1;".
Proof.
  split; [left; discriminate|].
  apply (shebang_prelude_round_trip ".cjs" "module.exports = 1;"). left. discriminate.
Defined.

End Shebang.


(* ================================================================= *)
(** ** The order of resolution in [findActualFilePath] *)

Section Resolver.

Import JsFacts.

Variable h : Host.

Lemma scanDir_has (filename : string) (entries : list Dirent) :
  forall acc x,
    StrSet.has (fst (fold_left (scanDir filename) entries acc)) x
    = StrSet.has (fst acc) x
      || existsb (fun d => isCandidate filename (name d) && isFile d
                           && String.eqb x (name d)) entries.
Proof.
  induction entries as [|d entries IH]; intros [anyExt hasSub] x; cbn [fold_left existsb].
  - now rewrite orb_false_r.
  - rewrite IH. unfold scanDir. unfold isCandidate at 2.
    destruct (String.eqb (name d) filename || Js.startsWith (name d) (filename ++ "."));
      cbn [andb orb fst]; [|reflexivity].
    destruct (isFile d); cbn [andb orb fst].
    + rewrite StrSetFacts.has_add. now rewrite orb_assoc.
    + now destruct (isDirectory d && String.eqb (name d) filename).
Qed.

Lemma scanDir_hasSub (filename : string) (entries : list Dirent) :
  forall acc,
    snd (fold_left (scanDir filename) entries acc)
    = snd acc || listsDirectory entries filename.
Proof.
  unfold listsDirectory.
  induction entries as [|d entries IH]; intros [anyExt hasSub]; cbn [fold_left existsb].
  - now rewrite orb_false_r.
  - rewrite IH. unfold scanDir.
    destruct (String.eqb (name d) filename), (Js.startsWith (name d) (filename ++ ".")),
      (isFile d), (isDirectory d);
      cbn [andb orb negb snd fst]; rewrite ?orb_true_r, ?orb_false_r; reflexivity.
Qed.

Lemma scanSub_has (entries : list Dirent) :
  forall acc x,
    StrSet.has (fold_left scanSub entries acc) x
    = StrSet.has acc x
      || existsb (fun d => isCandidate "index" (name d) && isFile d
                           && String.eqb x (name d)) entries.
Proof.
  induction entries as [|d entries IH]; intros acc x; cbn [fold_left existsb].
  - now rewrite orb_false_r.
  - rewrite IH. unfold scanSub. unfold isCandidate at 2.
    change ("index" ++ ".") with "index.".
    destruct (String.eqb (name d) "index" || Js.startsWith (name d) "index.");
      cbn [andb orb]; [|reflexivity].
    destruct (isFile d); cbn [andb orb]; [|reflexivity].
    rewrite StrSetFacts.has_add. now rewrite orb_assoc.
Qed.

(** A name made of the stem and nothing, or the stem and an extension that
    starts with a dot, passes the test of the loop. *)
Lemma isCandidate_ext (filename E : string) :
  E = "" \/ Js.startsWith E "." = true -> isCandidate filename (filename ++ E) = true.
Proof.
  unfold isCandidate. intros [->|HE].
  - now rewrite append_nil_r, String.eqb_refl.
  - apply startsWith_split in HE. destruct HE as [t ->].
    rewrite <- append_assoc, startsWith_app. apply orb_true_r.
Qed.

Lemma existsb_candidate (filename x : string) (entries : list Dirent) :
  isCandidate filename x = true ->
  existsb (fun d => isCandidate filename (name d) && isFile d && String.eqb x (name d))
          entries
  = listsFile entries x.
Proof.
  intros Hx. unfold listsFile. induction entries as [|d entries IH]; [reflexivity|].
  cbn [existsb]. rewrite IH. f_equal.
  destruct (String.eqb x (name d)) eqn:Hd.
  - apply String.eqb_eq in Hd. subst x. rewrite Hx, String.eqb_refl.
    destruct (isFile d); reflexivity.
  - rewrite String.eqb_sym, Hd. now rewrite !andb_false_r.
Qed.

(** What the first loop leaves in [anyExt] for a name that passes its test,
    and in [hasSub]. *)
Lemma scanDir_listsFile (filename x : string) (entries : list Dirent) :
  isCandidate filename x = true ->
  StrSet.has (fst (fold_left (scanDir filename) entries ([], false))) x
  = listsFile entries x.
Proof. intros Hx. rewrite scanDir_has. cbn [fst StrSet.has existsb orb]. now apply existsb_candidate. Qed.

Lemma scanSub_listsFile (x : string) (entries : list Dirent) :
  isCandidate "index" x = true ->
  StrSet.has (fold_left scanSub entries []) x = listsFile entries x.
Proof. intros Hx. rewrite scanSub_has. cbn [StrSet.has existsb orb]. now apply existsb_candidate. Qed.


Lemma scan_result (filename : string) (entries : list Dirent) (anyExt : StrSet.t)
    (hasSub : bool) :
  fold_left (scanDir filename) entries ([], false) = (anyExt, hasSub) ->
  (forall x, isCandidate filename x = true -> StrSet.has anyExt x = listsFile entries x) /\
  hasSub = listsDirectory entries filename.
Proof.
  intros Hfold. split.
  - intros x Hx. rewrite <- (scanDir_listsFile filename x entries Hx). now rewrite Hfold.
  - rewrite <- (orb_false_l (listsDirectory entries filename)).
    change false with (snd (@nil string, false)) at 1.
    rewrite <- scanDir_hasSub. now rewrite Hfold.
Qed.

Lemma not_a_file (p : string) :
  lstat h p <> Ok true ->
  match lstat h p with Ok b => b | Threw _ => false end = false.
Proof. destruct (lstat h p) as [[]|]; congruence. Qed.

Lemma find_ext {A : Type} (f g : A -> bool) (l : list A) :
  (forall x, In x l -> f x = g x) -> find f l = find g l.
Proof.
  induction l as [|a l IH]; intros H; [reflexivity|]. cbn [find].
  rewrite (H a (or_introl eq_refl)). destruct (g a); [reflexivity|].
  apply IH. intros x Hx. apply H. now right.
Qed.

Lemma EXTENSION_ORDER_dotted (E : string) :
  In E EXTENSION_ORDER -> E = "" \/ Js.startsWith E "." = true.
Proof.
  intros H. repeat (destruct H as [<-|H]; [(now left) || (now right)|]). destruct H.
Qed.

Lemma find_index (subAnyExt : StrSet.t) (sub : list Dirent) :
  (forall x, isCandidate "index" x = true -> StrSet.has subAnyExt x = listsFile sub x) ->
  find (fun EXT => StrSet.has subAnyExt ("index" ++ EXT)) EXTENSION_ORDER
  = find (fun E => listsFile sub ("index" ++ E)) EXTENSION_ORDER.
Proof.
  intros H. apply find_ext. intros E HE. apply H, isCandidate_ext.
  now apply EXTENSION_ORDER_dotted.
Qed.

Lemma find_sibling (filename : string) (anyExt : StrSet.t) (entries : list Dirent) :
  (forall x, isCandidate filename x = true -> StrSet.has anyExt x = listsFile entries x) ->
  find (fun EXT => StrSet.has anyExt (filename ++ EXT)) EXTENSION_ORDER
  = find (fun E => listsFile entries (filename ++ E)) EXTENSION_ORDER.
Proof.
  intros H. apply find_ext. intros E HE. apply H, isCandidate_ext.
  now apply EXTENSION_ORDER_dotted.
Qed.

Lemma find_none {A : Type} (f : A -> bool) (l : list A) :
  (forall x, f x = false) -> find f l = None.
Proof. intros H. induction l as [|a l IH]; [reflexivity|]. cbn [find]. now rewrite H. Qed.

(** X7.  With a hint that starts with a dot, a file beside the path whose
    name is the stem followed by the hint is chosen before anything else is
    looked at; the call can only fail by the listing of a directory of the
    same name. *)
Theorem hint_picks_sibling (p ext : string) (entries : list Dirent) :
  Js.startsWith ext "." = true ->
  lstat h p <> Ok true ->
  readdir h (Posix.dirname p) = Ok entries ->
  listsFile entries (filenameOf p ++ ext) = true ->
  match findActualFilePath h p (Some ext) with
  | Ok q => q = p ++ ext
  | Threw e => listsDirectory entries (filenameOf p) = true /\ readdir h p = Threw e
  end.
Proof.
  intros Hdot Hlstat Hdir Hfile. unfold findActualFilePath.
  rewrite (not_a_file p Hlstat), Hdir. cbn [bind].
  fold (filenameOf p).
  destruct (fold_left (scanDir (filenameOf p)) entries ([], false)) as [anyExt hasSub]
    eqn:Hfold.
  destruct (scan_result _ _ _ _ Hfold) as [Hany Hsub].
  assert (Hne : String.eqb ext "" = false).
  { destruct ext; [discriminate Hdot | reflexivity]. }
  rewrite Hne, (Hany (filenameOf p ++ ext)), Hfile
    by (apply isCandidate_ext; now right).
  cbn [negb andb].
  destruct hasSub.
  - destruct (readdir h p) as [sub|e]; cbn [bind]; [reflexivity | now split].
  - reflexivity.
Qed.

(** X8.  With no hint, an index file in the directory of the path's name
    is chosen before any file beside the path: the result is the index file
    with the first extension, in the order of the source, that the
    directory lists. *)
Theorem index_file_beats_sibling (p : string) (entries sub : list Dirent) (E : string) :
  lstat h p <> Ok true ->
  readdir h (Posix.dirname p) = Ok entries ->
  listsDirectory entries (filenameOf p) = true ->
  readdir h p = Ok sub ->
  find (fun E => listsFile sub ("index" ++ E)) EXTENSION_ORDER = Some E ->
  findActualFilePath h p None = Ok (p ++ "/index" ++ E).
Proof.
  intros Hlstat Hdir Hsubdir Hsub Hfind. unfold findActualFilePath.
  rewrite (not_a_file p Hlstat), Hdir. cbn [bind].
  fold (filenameOf p).
  destruct (fold_left (scanDir (filenameOf p)) entries ([], false)) as [anyExt hasSub]
    eqn:Hfold.
  destruct (scan_result _ _ _ _ Hfold) as [Hany HhasSub].
  rewrite HhasSub, Hsubdir, Hsub. cbn [bind].
  change (String.eqb "" "") with true. cbn [negb andb].
  fold EXTENSION_ORDER.
  rewrite (find_index _ sub); [now rewrite Hfind|].
  intros x Hx. now apply scanSub_listsFile.
Qed.

(** X9.  With no hint and no directory of the path's name, the file beside
    the path is chosen by the order of the extensions in the source: the
    stem itself, then .tsx, .ts, .mjs, .cjs, .jsx, .js. *)
Theorem sibling_by_extension_order (p : string) (entries : list Dirent) (E : string) :
  lstat h p <> Ok true ->
  readdir h (Posix.dirname p) = Ok entries ->
  listsDirectory entries (filenameOf p) = false ->
  find (fun E => listsFile entries (filenameOf p ++ E)) EXTENSION_ORDER = Some E ->
  findActualFilePath h p None = Ok (p ++ E).
Proof.
  intros Hlstat Hdir Hsubdir Hfind. unfold findActualFilePath.
  rewrite (not_a_file p Hlstat), Hdir. cbn [bind].
  fold (filenameOf p).
  destruct (fold_left (scanDir (filenameOf p)) entries ([], false)) as [anyExt hasSub]
    eqn:Hfold.
  destruct (scan_result _ _ _ _ Hfold) as [Hany HhasSub].
  rewrite HhasSub, Hsubdir. cbn [bind].
  change (String.eqb "" "") with true. cbn [negb andb].
  fold EXTENSION_ORDER.
  rewrite find_none by reflexivity.
  rewrite (find_sibling _ _ entries Hany), Hfind. reflexivity.
Qed.


Lemma scanDir_unusable (filename : string) (entries : list Dirent) :
  Forall (fun d => isCandidate filename (name d) = true ->
                   isFile d = false /\ isDirectory d = false) entries ->
  forall acc, fold_left (scanDir filename) entries acc = acc.
Proof.
  induction 1 as [|d entries Hd _ IH]; intros [anyExt hasSub]; [reflexivity|].
  cbn [fold_left]. rewrite <- (IH (anyExt, hasSub)) at 2. f_equal.
  unfold scanDir. unfold isCandidate in Hd.
  destruct (String.eqb (name d) filename || Js.startsWith (name d) (filename ++ "."));
    [|reflexivity].
  destruct (Hd eq_refl) as [-> ->]. reflexivity.
Qed.

(** X10.  When the path is no file and every entry beside it that has its
    stem is neither a file nor a directory (a symbolic link, say: the source
    asks [lstat] and the entry's own type), nothing is resolved and the call
    ends in the ReferenceError of the unbound [entryMethod], whatever the
    hint. *)
Theorem unusable_candidates_throw_ReferenceError (p : string) (hint : option string)
    (entries : list Dirent) :
  lstat h p <> Ok true ->
  readdir h (Posix.dirname p) = Ok entries ->
  Forall (fun d => isCandidate (filenameOf p) (name d) = true ->
                   isFile d = false /\ isDirectory d = false) entries ->
  findActualFilePath h p hint = Threw (ReferenceError "entryMethod is not defined").
Proof.
  intros Hlstat Hdir Hnone. unfold findActualFilePath.
  rewrite (not_a_file p Hlstat), Hdir. cbn [bind].
  fold (filenameOf p). rewrite (scanDir_unusable _ _ Hnone). cbn [bind].
  cbn [StrSet.has existsb]. rewrite !andb_false_r.
  rewrite !find_none by reflexivity.
  reflexivity.
Qed.

Lemma scanDir_single (filename n : string) (entries : list Dirent) :
  Forall (fun d => isCandidate filename (name d) = true -> isFile d = true ->
                   name d = n) entries ->
  forall acc, fst acc = [] \/ fst acc = [n] ->
    fst (fold_left (scanDir filename) entries acc) = []
    \/ fst (fold_left (scanDir filename) entries acc) = [n].
Proof.
  induction 1 as [|d entries Hd _ IH]; intros [anyExt hasSub] Hacc; [exact Hacc|].
  cbn [fold_left]. apply IH. unfold scanDir. unfold isCandidate in Hd.
  destruct (String.eqb (name d) filename || Js.startsWith (name d) (filename ++ "."));
    [|exact Hacc].
  destruct (isFile d).
  - rewrite (Hd eq_refl eq_refl). cbn [fst] in *. right.
    destruct Hacc as [->| ->]; [reflexivity|].
    unfold StrSet.add, StrSet.has. cbn [existsb]. now rewrite String.eqb_refl.
  - destruct (isDirectory d && String.eqb (name d) filename); exact Hacc.
Qed.

(** X11.  When the only file beside the path that has its stem carries an
    extension outside the list, the call does not fail: it returns the path
    followed by the whole name of that file, stem included. *)
Theorem single_candidate_is_appended_whole (p n : string) (entries : list Dirent) :
  lstat h p <> Ok true ->
  readdir h (Posix.dirname p) = Ok entries ->
  listsDirectory entries (filenameOf p) = false ->
  isCandidate (filenameOf p) n = true ->
  listsFile entries n = true ->
  Forall (fun d => isCandidate (filenameOf p) (name d) = true -> isFile d = true ->
                   name d = n) entries ->
  Forall (fun E => n <> filenameOf p ++ E) EXTENSION_ORDER ->
  findActualFilePath h p None = Ok (p ++ n).
Proof.
  intros Hlstat Hdir Hsubdir Hcand Hfile Honly Hunknown. unfold findActualFilePath.
  rewrite (not_a_file p Hlstat), Hdir. cbn [bind].
  fold (filenameOf p).
  destruct (fold_left (scanDir (filenameOf p)) entries ([], false)) as [anyExt hasSub]
    eqn:Hfold.
  destruct (scan_result _ _ _ _ Hfold) as [Hany HhasSub].
  assert (HanyExt : anyExt = [n]).
  { destruct (scanDir_single _ _ _ Honly ([], false) (or_introl eq_refl)) as [H0|H1].
    - rewrite Hfold in H0. cbn [fst] in H0. subst anyExt.
      specialize (Hany n Hcand). rewrite Hfile in Hany. discriminate Hany.
    - rewrite Hfold in H1. exact H1. }
  rewrite HhasSub, Hsubdir. cbn [bind].
  change (String.eqb "" "") with true. cbn [negb andb].
  fold EXTENSION_ORDER.
  rewrite find_none by reflexivity.
  assert (Hnone : find (fun EXT => StrSet.has anyExt (filenameOf p ++ EXT)) EXTENSION_ORDER
                  = None).
  { subst anyExt. clear -Hunknown. induction Hunknown as [|E l HE _ IH]; [reflexivity|].
    cbn [find StrSet.has existsb]. rewrite orb_false_r.
    destruct (String.eqb (filenameOf p ++ E) n) eqn:Heq; [|exact IH].
    apply String.eqb_eq in Heq. congruence. }
  rewrite Hnone. subst anyExt. reflexivity.
Qed.


Lemma scanDir_listed (filename x : string) (entries : list Dirent) (anyExt : StrSet.t)
    (hasSub : bool) :
  fold_left (scanDir filename) entries ([], false) = (anyExt, hasSub) ->
  StrSet.has anyExt x = true -> listsFile entries x = true.
Proof.
  intros Hfold Hx.
  assert (H := scanDir_has filename entries ([], false) x).
  rewrite Hfold in H. cbn [fst] in H. rewrite Hx in H.
  cbn [StrSet.has existsb orb] in H. symmetry in H. apply existsb_exists in H. destruct H as [d [Hd H]].
  apply andb_prop in H. destruct H as [H Hname]. apply andb_prop in H.
  destruct H as [_ Hfile]. unfold listsFile. apply existsb_exists. exists d.
  split; [exact Hd|]. rewrite Hfile, String.eqb_sym. exact Hname.
Qed.

Lemma scanSub_listed (x : string) (sub : list Dirent) :
  StrSet.has (fold_left scanSub sub []) x = true -> listsFile sub x = true.
Proof.
  intros Hx. rewrite scanSub_has in Hx. cbn [StrSet.has existsb orb] in Hx.
  apply existsb_exists in Hx. destruct Hx as [d [Hd H]].
  apply andb_prop in H. destruct H as [H Hname]. apply andb_prop in H.
  destruct H as [_ Hfile]. unfold listsFile. apply existsb_exists. exists d.
  split; [exact Hd|]. rewrite Hfile, String.eqb_sym. exact Hname.
Qed.

Lemma size_one (s : StrSet.t) :
  (StrSet.size s =? 1) = true -> StrSet.has s (StrSet.firstValue s) = true.
Proof.
  destruct s as [|x [|y s]]; intros H; try discriminate H.
  - cbn. now rewrite String.eqb_refl.
  - unfold StrSet.size in H. cbn [List.length] in H. apply Z.eqb_eq in H. lia.
Qed.

(** What the choice among the candidates returns, for the sets the two
    loops have filled. *)
Lemma choice_result (p filename likelyExtension : string) (anyExt subAnyExt : StrSet.t)
    (fallback : result string) (q : string) :
  (if negb (String.eqb likelyExtension "")
      && StrSet.has anyExt (filename ++ likelyExtension)
   then Ok (p ++ likelyExtension)
   else if negb (String.eqb likelyExtension "")
           && StrSet.has subAnyExt ("index" ++ likelyExtension)
   then Ok (p ++ "/index" ++ likelyExtension)
   else
     match find (fun EXT => StrSet.has subAnyExt ("index" ++ EXT))
                [likelyExtension; ".tsx"; ".ts"; ".mjs"; ".cjs"; ".jsx"; ".js"] with
     | Some EXT => Ok (p ++ "/index" ++ EXT)
     | None =>
     match find (fun EXT => StrSet.has anyExt (filename ++ EXT))
                [likelyExtension; ".tsx"; ".ts"; ".mjs"; ".cjs"; ".jsx"; ".js"] with
     | Some EXT => Ok (p ++ EXT)
     | None =>
         if StrSet.has subAnyExt "index" then Ok (p ++ "/index")
         else if StrSet.size subAnyExt =? 1
         then Ok (p ++ "/index" ++ StrSet.firstValue subAnyExt)
         else if StrSet.size anyExt =? 1
         then Ok (p ++ StrSet.firstValue anyExt)
         else fallback
     end
     end) = Ok q ->
  (forall m, fallback <> Ok m) ->
  (exists x, q = p ++ x /\
     (StrSet.has anyExt (filename ++ x) = true \/ StrSet.has anyExt x = true)) \/
  (exists x, q = p ++ "/index" ++ x /\
     (StrSet.has subAnyExt ("index" ++ x) = true \/ StrSet.has subAnyExt x = true)).
Proof.
  intros H Hfallback.
  destruct (negb (String.eqb likelyExtension "")
            && StrSet.has anyExt (filename ++ likelyExtension)) eqn:H1.
  { injection H as <-. apply andb_prop in H1. left. exists likelyExtension.
    split; [reflexivity | now left]. }
  destruct (negb (String.eqb likelyExtension "")
            && StrSet.has subAnyExt ("index" ++ likelyExtension)) eqn:H2.
  { injection H as <-. apply andb_prop in H2. right. exists likelyExtension.
    split; [reflexivity | now left]. }
  destruct (find (fun EXT => StrSet.has subAnyExt ("index" ++ EXT)) _) as [EXT|] eqn:H3.
  { injection H as <-. apply find_some in H3. right. exists EXT.
    split; [reflexivity | now left]. }
  destruct (find (fun EXT => StrSet.has anyExt (filename ++ EXT)) _) as [EXT|] eqn:H4.
  { injection H as <-. apply find_some in H4. left. exists EXT.
    split; [reflexivity | now left]. }
  destruct (StrSet.has subAnyExt "index") eqn:H5.
  { injection H as <-. right. exists "". rewrite !append_nil_r.
    split; [reflexivity | now left]. }
  destruct (StrSet.size subAnyExt =? 1) eqn:H6.
  { injection H as <-. right. exists (StrSet.firstValue subAnyExt).
    split; [reflexivity | right; now apply size_one]. }
  destruct (StrSet.size anyExt =? 1) eqn:H7.
  { injection H as <-. left. exists (StrSet.firstValue anyExt).
    split; [reflexivity | right; now apply size_one]. }
  exfalso. exact (Hfallback q H).
Qed.

(** X12.  Whatever [findActualFilePath] returns starts with the path it was
    given and is backed by a listing: it is the path itself, which [lstat]
    calls a file, or the path followed by a suffix for which the directory
    of the path lists a file (named stem and suffix, or, in the last resort,
    named as the suffix), or the path followed by [/index] and a suffix for
    which the directory at the path lists one in the same way. *)
Theorem findActualFilePath_result (p : string) (hint : option string) (q : string) :
  findActualFilePath h p hint = Ok q ->
  (q = p /\ lstat h p = Ok true) \/
  (exists entries x,
     readdir h (Posix.dirname p) = Ok entries /\ q = p ++ x /\
     (listsFile entries (filenameOf p ++ x) = true \/ listsFile entries x = true)) \/
  (exists sub x,
     readdir h p = Ok sub /\ q = p ++ "/index" ++ x /\
     (listsFile sub ("index" ++ x) = true \/ listsFile sub x = true)).
Proof.
  unfold findActualFilePath. intros H.
  destruct (lstat h p) as [[|]|e] eqn:Hlstat.
  { injection H as <-. now left. }
  all: right.
  all: destruct (readdir h (Posix.dirname p)) as [entries|e'] eqn:Hdir;
    [cbn [bind] in H | discriminate H].
  all: fold (filenameOf p) in H.
  all: destruct (fold_left (scanDir (filenameOf p)) entries ([], false))
         as [anyExt hasSub] eqn:Hfold.
  all: destruct hasSub.
  all: try (destruct (readdir h p) as [sub|e''] eqn:Hsub; [|discriminate H]).
  all: cbn [bind] in H.
  all: apply choice_result in H;
    [|intros m; unfold identifier; cbn [find fst String.eqb Ascii.eqb Bool.eqb andb];
      discriminate].
  all: destruct H as [[x [-> Hx]]|[x [-> Hx]]].
  all: try (left; exists entries, x; split; [reflexivity|]; split; [reflexivity|];
            destruct Hx as [Hx|Hx]; [left|right];
            exact (scanDir_listed _ _ _ _ _ Hfold Hx)).
  all: try (right; exists sub, x; split; [reflexivity|]; split; [reflexivity|];
            destruct Hx as [Hx|Hx]; [left|right]; exact (scanSub_listed _ _ Hx)).
  all: destruct Hx as [Hx|Hx]; discriminate Hx.
Qed.

End Resolver.

Lemma hint_picks_sibling_witness :
  match findActualFilePath Sample.twoSiblings "/p/a" (Some ".js") with
  | Ok q => q = "/p/a" ++ ".js"
  | Threw e =>
      listsDirectory [Sample.file "main.js"; Sample.file "a.ts"; Sample.file "a.js"]
        (filenameOf "/p/a") = true /\
      readdir Sample.twoSiblings "/p/a" = Threw e
  end.
Proof.
  apply (hint_picks_sibling Sample.twoSiblings "/p/a" ".js"
           [Sample.file "main.js"; Sample.file "a.ts"; Sample.file "a.js"]).
  - reflexivity.
  - vm_compute. discriminate.
  - reflexivity.
  - vm_compute. reflexivity.
Defined.

Lemma index_file_beats_sibling_witness :
  findActualFilePath Fixture.indexAndSibling "/p/lib" None = Ok ("/p/lib" ++ "/index" ++ ".js").
Proof.
  apply (index_file_beats_sibling Fixture.indexAndSibling "/p/lib"
           [Sample.file "lib.ts"; Sample.directory "lib"] [Sample.file "index.js"] ".js").
  - vm_compute. discriminate.
  - reflexivity.
  - vm_compute. reflexivity.
  - reflexivity.
  - vm_compute. reflexivity.
Defined.

Lemma sibling_by_extension_order_witness :
  findActualFilePath Sample.twoSiblings "/p/a" None = Ok ("/p/a" ++ ".ts").
Proof.
  apply (sibling_by_extension_order Sample.twoSiblings "/p/a"
           [Sample.file "main.js"; Sample.file "a.ts"; Sample.file "a.js"] ".ts").
  - vm_compute. discriminate.
  - reflexivity.
  - vm_compute. reflexivity.
  - vm_compute. reflexivity.
Defined.

Lemma unusable_candidates_throw_ReferenceError_witness :
  findActualFilePath Fixture.symbolicLink "/p/a.ts" None
  = Threw (ReferenceError "entryMethod is not defined").
Proof.
  apply (unusable_candidates_throw_ReferenceError Fixture.symbolicLink "/p/a.ts" None
           [mkDirent "a.ts" false false]).
  - vm_compute. discriminate.
  - reflexivity.
  - constructor; [|constructor]. intros _. split; reflexivity.
Defined.

Lemma single_candidate_is_appended_whole_witness :
  findActualFilePath Fixture.unknownExtension "/p/data" None = Ok ("/p/data" ++ "data.json").
Proof.
  apply (single_candidate_is_appended_whole Fixture.unknownExtension "/p/data" "data.json"
           [Sample.file "data.json"]).
  - vm_compute. discriminate.
  - reflexivity.
  - vm_compute. reflexivity.
  - vm_compute. reflexivity.
  - vm_compute. reflexivity.
  - constructor; [|constructor]. intros _ _. reflexivity.
  - repeat constructor; vm_compute; discriminate.
Defined.

Lemma findActualFilePath_result_witness :
  ("/p/a.ts" = "/p/a" /\ lstat Sample.twoSiblings "/p/a" = Ok true) \/
  (exists entries x,
     readdir Sample.twoSiblings (Posix.dirname "/p/a") = Ok entries /\
     "/p/a.ts" = "/p/a" ++ x /\
     (listsFile entries (filenameOf "/p/a" ++ x) = true \/ listsFile entries x = true)) \/
  (exists sub x,
     readdir Sample.twoSiblings "/p/a" = Ok sub /\ "/p/a.ts" = "/p/a" ++ "/index" ++ x /\
     (listsFile sub ("index" ++ x) = true \/ listsFile sub x = true)).
Proof.
  apply (findActualFilePath_result Sample.twoSiblings "/p/a" None "/p/a.ts").
  vm_compute. reflexivity.
Defined.


(* ================================================================= *)
(** ** The reader and the graph *)

Section Visit.

Variable h : Host.

Lemma isNodeBuiltin_string (s : string) : exists b, isNodeBuiltin h (VStr s) = Ok b.
Proof.
  unfold isNodeBuiltin. cbn [str bind].
  destruct (Js.startsWith s "node:"); [now exists true|].
  destruct (String.eqb s "test"); [now exists false|]. eauto.
Qed.

Lemma isNodeBuiltin_other (v : value) :
  (forall s, v <> VStr s) -> exists message, isNodeBuiltin h v = Threw (TypeError message).
Proof.
  intros Hv. unfold isNodeBuiltin.
  destruct v as [| | | |s| |]; cbn [str bind]; try (eexists; reflexivity).
  exfalso. now apply (Hv s).
Qed.

Lemma filterM_non_string (found : list (value * string)) :
  Exists (fun d => forall s, fst d <> VStr s) found ->
  exists message,
    filterM (fun d => b <- isNodeBuiltin h (fst d) ;; Ok (negb b)) found
    = Threw (TypeError message).
Proof.
  induction found as [|[v m] found IH]; intros Hex; [inversion Hex|].
  cbn [filterM fst].
  destruct v as [| | | |s| |];
    try (match goal with
         | |- context [isNodeBuiltin h ?v] =>
             destruct (isNodeBuiltin_other v) as [msg ->];
             [intros s; discriminate | exists msg; reflexivity]
         end).
  destruct (isNodeBuiltin_string s) as [b ->]. cbn [bind].
  inversion Hex as [? ? Hhead|? ? Htail]; subst.
  - exfalso. now apply (Hhead s).
  - destruct (IH Htail) as [msg ->]. exists msg. reflexivity.
Qed.

(** X13.  A dependency whose specifier is not a string, as the reader
    records for [require(5)] or for [require.main.require(x)] with an
    argument that is no literal, stops the build: the filter on builtin
    modules calls [startsWith] on it and the visit of the file ends in a
    TypeError. *)
Theorem non_string_dependency_throws_TypeError (frame : Frame)
    (actual text code : string) (tree : value) (found : list (value * string)) :
  findActualFilePath h (filePath frame) None = Ok actual ->
  readFile h actual = Ok text ->
  transform h text ("typescript" :: (if Js.endsWith actual ".ts" then [] else ["jsx"]))
            actual = Ok code ->
  parseModule h (stripShebang code) = Ok tree ->
  readForDependencies tree = Ok found ->
  Exists (fun d => forall s, fst d <> VStr s) found ->
  exists message, visit h frame = Threw (TypeError message).
Proof.
  intros Hfind Hread Htransform Hparse Hdeps Hex. unfold visit.
  rewrite Hfind. cbn [bind]. rewrite Hread. cbn [bind]. rewrite Htransform. cbn [bind].
  rewrite Hparse. cbn [bind]. rewrite Hdeps. cbn [bind].
  destruct (filterM_non_string found Hex) as [message ->]. now exists message.
Qed.

Lemma filterM_kept (found kept : list (value * string)) :
  filterM (fun d => b <- isNodeBuiltin h (fst d) ;; Ok (negb b)) found = Ok kept ->
  forall d m, In (d, m) kept <->
    In (d, m) found /\ exists s, d = VStr s /\ isNodeBuiltin h (VStr s) = Ok false.
Proof.
  revert kept. induction found as [|[v m'] found IH]; intros kept Hk d m.
  - injection Hk as <-. split; [intros [] | intros [[] _]].
  - cbn [filterM fst] in Hk.
    destruct (isNodeBuiltin h v) as [b|e] eqn:Hb; [cbn [bind] in Hk | discriminate Hk].
    destruct (filterM _ found) as [kept'|e] eqn:Hrest; [cbn [bind] in Hk | discriminate Hk].
    injection Hk as <-. specialize (IH kept' eq_refl d m).
    assert (Hv : exists s, v = VStr s).
    { destruct v as [| | | |s| |];
        try (unfold isNodeBuiltin in Hb; cbn in Hb; discriminate Hb). eauto. }
    destruct Hv as [s ->].
    destruct b; cbn [negb].
    + rewrite IH. split.
      * intros [Hin Hs]. split; [now right | exact Hs].
      * intros [[Heq|Hin] [s' [-> Hs']]]; [|split; [exact Hin | eauto]].
        injection Heq as <- <-. congruence.
    + cbn [In]. rewrite IH. split.
      * intros [Heq|[Hin Hs]].
        -- injection Heq as <- <-. split; [now left | eauto].
        -- split; [now right | exact Hs].
      * intros [[Heq|Hin] Hs]; [now left | right; now split].
Qed.

Lemma mapM_strings (kept : list (value * string)) (dependencies : list (string * string)) :
  mapM (fun d => s <- str "startsWith" (fst d) ;; Ok (s, snd d)) kept = Ok dependencies ->
  forall s m, In (s, m) dependencies <-> In (VStr s, m) kept.
Proof.
  revert dependencies. induction kept as [|[v m'] kept IH]; intros dependencies Hd s m.
  - injection Hd as <-. tauto.
  - cbn [mapM fst snd] in Hd.
    destruct v as [| | | |s'| |]; try discriminate Hd. cbn [str bind] in Hd.
    destruct (mapM _ kept) as [deps'|e]; [cbn [bind] in Hd | discriminate Hd].
    injection Hd as <-. specialize (IH deps' eq_refl s m). cbn [In]. rewrite IH.
    split; (intros [Heq|Hin]; [left | now right]).
    + now injection Heq as <- <-.
    + now injection Heq as <- <-.
Qed.

(** X14.  The format of the entry file follows the dependencies the
    traversal keeps, not the text of the file: it is emitted as .mjs exactly
    when the reader has recorded an import of a specifier that names no
    builtin module, and as .cjs otherwise -- also when all it imports are
    builtin modules, or when it only exports. *)
Theorem entry_format_follows_kept_imports (frame : Frame) (v : Visit)
    (found : list (value * string)) :
  visit h frame = Ok v ->
  entryMethod frame = "entry" ->
  readForDependencies (ast v) = Ok found ->
  (outputFormat (sourceFile v) = ".mjs" <->
   exists s, In (VStr s, "import") found /\ isNodeBuiltin h (VStr s) = Ok false) /\
  (outputFormat (sourceFile v) = ".cjs" <->
   ~ exists s, In (VStr s, "import") found /\ isNodeBuiltin h (VStr s) = Ok false).
Proof.
  unfold visit. intros Hv Hentry Hfound.
  destruct (findActualFilePath h (filePath frame) None) as [actual|]; [|discriminate Hv].
  cbn [bind] in Hv.
  destruct (readFile h actual) as [text|]; [|discriminate Hv]. cbn [bind] in Hv.
  destruct (transform h text _ actual) as [code|]; [|discriminate Hv]. cbn [bind] in Hv.
  destruct (parseModule h (stripShebang code)) as [tree|]; [|discriminate Hv].
  cbn [bind] in Hv.
  destruct (readForDependencies tree) as [found'|] eqn:Hread; [|discriminate Hv].
  cbn [bind] in Hv.
  destruct (filterM _ found') as [kept|] eqn:Hkept; [|discriminate Hv]. cbn [bind] in Hv.
  destruct (mapM _ kept) as [dependencies|] eqn:Hdeps; [|discriminate Hv].
  cbn [bind] in Hv. injection Hv as <-. cbn [ast sourceFile outputFormat] in *.
  rewrite Hread in Hfound. injection Hfound as ->.
  rewrite Hentry. change (String.eqb "entry" "require") with false.
  change (String.eqb "entry" "entry") with true. cbn [orb andb].
  set (isESM := existsb (fun d => String.eqb (snd d) "import") dependencies).
  assert (HisESM : isESM = true <->
            exists s, In (VStr s, "import") found /\ isNodeBuiltin h (VStr s) = Ok false).
  { unfold isESM. rewrite existsb_exists. split.
    - intros [[s m] [Hin Hm]]. cbn [snd] in Hm. apply String.eqb_eq in Hm. subst m.
      apply (mapM_strings _ _ Hdeps) in Hin. apply (filterM_kept _ _ Hkept) in Hin.
      destruct Hin as [Hin [s' [Heq Hs']]]. injection Heq as <-. eauto.
    - intros [s [Hin Hs]]. exists (s, "import"). split; [|reflexivity].
      apply (mapM_strings _ _ Hdeps). apply (filterM_kept _ _ Hkept). eauto. }
  destruct isESM; cbn [negb].
  - split; split; try reflexivity; try discriminate.
    + intros _. now apply HisESM.
    + intros Hno. exfalso. apply Hno. now apply HisESM.
  - split; split; try reflexivity; try discriminate.
    + intros Hyes. apply HisESM in Hyes. discriminate Hyes.
    + intros _ Hyes. apply HisESM in Hyes. discriminate Hyes.
Qed.

End Visit.


Section Reader.

Lemma appends_ok {A : Type} : appends (fun l : list A => Ok l).
Proof. left. exists []. intros l. now rewrite app_nil_r. Qed.

Lemma appends_push {A : Type} (x : A) : appends (fun l : list A => Ok (l ++ [x])%list).
Proof. left. now exists [x]. Qed.

Lemma appends_bind {A B : Type} (e : result B) (k : B -> list A -> result (list A)) :
  (forall b, appends (k b)) -> appends (fun l => bind e (fun b => k b l)).
Proof. intros H. destruct e as [b|err]; [apply H | right; now exists err]. Qed.

Lemma appends_if {A : Type} (c : bool) (f g : list A -> result (list A)) :
  appends f -> appends g -> appends (fun l => if c then f l else g l).
Proof. now destruct c. Qed.

Lemma appends_pushDependency (o : option value) (m : string) :
  appends (fun l => Ok (pushDependency o m l)).
Proof. destruct o; [apply appends_push | apply appends_ok]. Qed.

Lemma readDependency_appends (node : value) : appends (readDependency node).
Proof.
  unfold readDependency. cbv zeta.
  repeat first
    [ exact appends_ok
    | apply appends_pushDependency
    | apply appends_push
    | apply appends_bind; intros ?
    | apply appends_if
    | lazymatch goal with
      | |- context [match ?x with VNum _ => _ | _ => _ end] =>
          destruct x as [| |?|[|?|?]|?|?|?]
      | |- context [if ?c then _ else _] => destruct c
      end ].
Qed.

Lemma appends_from_nil {A : Type} (f : list A -> result (list A)) (l : list A) :
  appends f -> f l = (r <- f [] ;; Ok (l ++ r)%list).
Proof.
  intros [[delta H]|[e H]].
  - rewrite (H l), (H []). reflexivity.
  - rewrite (H l), (H []). reflexivity.
Qed.

Lemma appends_compose {A : Type} (f g : list A -> result (list A)) :
  appends f -> appends g -> appends (fun l => bind (f l) g).
Proof.
  intros [[d1 Hf]|[e Hf]] Hg.
  - destruct Hg as [[d2 Hg]|[e Hg]].
    + left. exists (d1 ++ d2)%list. intros l. rewrite Hf. cbn [bind].
      now rewrite Hg, app_assoc.
    + right. exists e. intros l. rewrite Hf. cbn [bind]. apply Hg.
  - right. exists e. intros l. now rewrite Hf.
Qed.

(** [traverse] with a visitor that only appends only appends. *)
Lemma traverse_appends {A : Type} (perNode : value -> list A -> result (list A)) :
  (forall node, appends (perNode node)) ->
  forall node, appends (traverse perNode node).
Proof.
  intros Hvisit node.
  induction node as [| | | | |elems IH|fields IH] using value_tree_ind;
    try exact appends_ok.
  - cbn [traverse].
    induction IH as [|key elems Hkey _ IHelems]; [exact appends_ok|].
    apply (appends_compose (fun s => if isObject key then traverse perNode key s else Ok s));
      [|exact IHelems].
    destruct (isObject key); [exact Hkey | exact appends_ok].
  - cbn [traverse].
    apply (appends_compose (perNode (VObj fields))); [apply Hvisit|].
    induction IH as [|[key child] fields Hchild _ IHfields]; [exact appends_ok|].
    apply (appends_compose
             (fun s => if String.eqb key "parent" || negb (truthy child) then Ok s
                       else traverse perNode child s));
      [|exact IHfields].
    destruct (String.eqb key "parent" || negb (truthy child));
      [exact appends_ok | exact Hchild].
Qed.

(** The statements of a program are read one after the other. *)
Lemma readForDependencies_program (body : list value) :
  readForDependencies (program body) = traverse readDependency (VArr body) [].
Proof.
  unfold readForDependencies, program. cbn [traverse].
  unfold readDependency at 1.
  cbn [prop lookup String.eqb Ascii.eqb Bool.eqb bind isStr andb orb].
  cbn [truthy String.eqb negb orb Ascii.eqb Bool.eqb andb bind].
  match goal with |- bind ?e _ = _ => destruct e; reflexivity end.
Qed.

Lemma traverse_statements_app {S : Type} (perNode : value -> S -> result S)
    (l1 l2 : list value) :
  forall s,
    traverse perNode (VArr (l1 ++ l2)) s
    = (s1 <- traverse perNode (VArr l1) s ;; traverse perNode (VArr l2) s1).
Proof.
  cbn [traverse]. induction l1 as [|key l1 IH]; intros s; [reflexivity|].
  cbn [app]. destruct (if isObject key then traverse perNode key s else Ok s);
    cbn [bind]; [apply IH | reflexivity].
Qed.

(** X15.  The dependencies of a program are those of its first statements
    followed by those of the rest, each read as if it stood alone: the
    reader keeps the order of the source, and what a statement contributes
    does not depend on the statements before it. *)
Theorem dependencies_in_source_order (b1 b2 : list value)
    (d1 d2 : list (value * string)) :
  readForDependencies (program b1) = Ok d1 ->
  readForDependencies (program b2) = Ok d2 ->
  readForDependencies (program (b1 ++ b2)) = Ok (d1 ++ d2)%list.
Proof.
  rewrite !readForDependencies_program, traverse_statements_app. intros -> H2.
  cbn [bind].
  assert (Happ : appends (traverse readDependency (VArr b2)))
    by (apply traverse_appends, readDependency_appends).
  rewrite (appends_from_nil _ d1 Happ), H2. reflexivity.
Qed.

End Reader.


Section EarlyReturn.

Lemma falsy_not_found (v : value) : truthy v = false -> traverseUntilFound v false = false.
Proof. destruct v; try reflexivity; discriminate. Qed.

Lemma traverse_setFoundExport (ast : value) :
  forall found,
    traverse setFoundExport ast found = Ok (found || traverseUntilFound ast false).
Proof.
  induction ast as [| | | | |elems IH|fields IH] using value_tree_ind; intros found;
    try (cbn [traverse traverseUntilFound]; now rewrite orb_false_r).
  - cbn [traverse traverseUntilFound]. rewrite untilFoundElements_spec. cbn [orb].
    revert found. induction IH as [|key elems Hkey _ IHelems]; intros found.
    + cbn [existsb]. now rewrite orb_false_r.
    + cbn [existsb]. destruct (isObject key); cbn [andb orb].
      * rewrite Hkey. cbn [bind]. rewrite IHelems. now rewrite orb_assoc.
      * cbn [bind]. apply IHelems.
  - cbn [traverse traverseUntilFound]. rewrite untilFoundEntries_spec.
    unfold setFoundExport at 1. cbn [bind].
    rewrite orb_assoc. generalize (found || foundExport (VObj fields)). clear found.
    induction IH as [|[key child] fields Hchild _ IHfields]; intros found.
    + cbn [existsb]. now rewrite orb_false_r.
    + cbn [existsb fst snd] in *. destruct (String.eqb key "parent"); cbn [negb andb orb].
      * cbn [bind]. apply IHfields.
      * destruct (truthy child) eqn:Htruthy; cbn [negb bind].
        -- rewrite Hchild. cbn [bind]. rewrite IHfields. now rewrite orb_assoc.
        -- rewrite (falsy_not_found _ Htruthy). cbn [orb]. apply IHfields.
Qed.

(** X16.  The copy of [traverse] inside [determineModuleTypeFromString],
    which returns at once when the flag is set, computes the flag that the
    shared [traverse] computes with the same visitor: the early return
    saves visits and changes no result. *)
Theorem early_return_changes_no_result (ast : value) :
  traverse setFoundExport ast false = Ok (traverseUntilFound ast false).
Proof. rewrite traverse_setFoundExport. reflexivity. Qed.

End EarlyReturn.


Section Graph.

Variable h : Host.

Lemma mapGet_mapSet_same {A : Type} (k : string) (x : A) (m : list (string * A)) :
  mapGet k (mapSet k x m) = Some x.
Proof.
  induction m as [|[k' y] m IH]; cbn [mapSet mapGet].
  - now rewrite String.eqb_refl.
  - destruct (String.eqb k k') eqn:Hk; cbn [mapGet].
    + now rewrite String.eqb_refl.
    + now rewrite Hk.
Qed.

Lemma mapGet_mapSet_other {A : Type} (k k0 : string) (x : A) (m : list (string * A)) :
  k0 <> k -> mapGet k0 (mapSet k x m) = mapGet k0 m.
Proof.
  intros Hne. induction m as [|[k' y] m IH]; cbn [mapSet mapGet].
  - apply String.eqb_neq in Hne. now rewrite Hne.
  - destruct (String.eqb k k') eqn:Hk; cbn [mapGet].
    + apply String.eqb_eq in Hk. subst k'. apply String.eqb_neq in Hne. now rewrite Hne.
    + destruct (String.eqb k0 k'); [reflexivity | exact IH].
Qed.

Lemma traverseFiles_cache (fuel : nat) :
  forall st st',
    graphInvariant h st ->
    Forall (recordedWithTree h (astCache st)) (internalSourceFiles st) ->
    traverseFiles fuel h st = Some (Ok st') ->
    Forall (recordedWithTree h (astCache st')) (internalSourceFiles st').
Proof.
  induction fuel as [|fuel IH]; intros st st' Hinv Hcache Hrun; [discriminate|].
  cbn [traverseFiles] in Hrun. destruct (fileStack st) as [|frame rest] eqn:Hstack.
  - injection Hrun as <-. exact Hcache.
  - destruct (StrSet.has (explored st) (filePath frame)) eqn:Hex.
    + apply IH in Hrun; [exact Hrun | exact Hinv | exact Hcache].
    + destruct (visit h frame) as [v|e] eqn:Hv; [|discriminate].
      destruct (visit_sourceFile h _ _ Hv) as [Hraw Hres].
      assert (Hstep : traverseFiles (S fuel) h st
                      = traverseFiles fuel h
                          (mkState (rev (pushed v) ++ rest)
                             (StrSet.add (explored st) (filePath frame))
                             (internalSourceFiles st ++ [sourceFile v])
                             (mapSet (filePath frame) (ast v) (astCache st)))).
      { cbn [traverseFiles]. now rewrite Hstack, Hex, Hv. }
      assert (Hinv' : graphInvariant h
                        (mkState (rev (pushed v) ++ rest)
                           (StrSet.add (explored st) (filePath frame))
                           (internalSourceFiles st ++ [sourceFile v])
                           (mapSet (filePath frame) (ast v) (astCache st)))).
      { destruct Hinv as [Hmap [Hnd Hfind]]. unfold graphInvariant. cbn.
        rewrite (StrSetFacts.add_fresh _ _ Hex). repeat split.
        - rewrite map_app. cbn. now rewrite Hmap, Hraw.
        - apply NoDup_app; [assumption | repeat constructor; cbn; tauto |].
          intros x Hx [<-|[]]. apply StrSetFacts.has_In in Hx. congruence.
        - intros f Hf. apply in_app_or in Hf. destruct Hf as [Hf|[<-|[]]].
          + now apply Hfind.
          + now rewrite Hraw. }
      apply (IH _ _ Hinv') in Hrun; [exact Hrun|]. cbn [internalSourceFiles astCache].
      apply Forall_app. split.
      * rewrite Forall_forall in *. intros f Hf.
        destruct (Hcache f Hf) as [frame0 [v0 [Hp [Hv0 [Hs Hget]]]]].
        exists frame0, v0. repeat split; try assumption.
        rewrite mapGet_mapSet_other; [exact Hget|].
        intros Heq. destruct Hinv as [Hmap _].
        assert (Hin : In (rawInputFile f) (explored st))
          by (rewrite <- Hmap; now apply in_map).
        apply StrSetFacts.has_In in Hin. congruence.
      * constructor; [|constructor]. exists frame, v.
        repeat split; try assumption; try (now rewrite Hraw).
        rewrite Hraw. apply mapGet_mapSet_same.
Qed.

(** X17.  When the traversal is over, the cache holds a tree for every
    record of the graph, and it is the tree parsed for that record: no
    record reaches [updateImports] with [undefined], and no record's tree
    was overwritten by another file's. *)
Theorem every_record_has_its_tree (entryFilePath : string) (fuel : nat)
    (st : BuildState) :
  traverseFiles fuel h (initialState h entryFilePath) = Some (Ok st) ->
  Forall (recordedWithTree h (astCache st)) (internalSourceFiles st).
Proof.
  intros Hrun. apply (traverseFiles_cache fuel (initialState h entryFilePath)).
  - repeat split; cbn; [constructor | tauto].
  - constructor.
  - exact Hrun.
Qed.




End Graph.


Section Roots.

Import JsFacts.

Variable h : Host.

(** X19.  The common root that the loop of [build] stops at is [/], or a
    directory that every recorded file lies below; in the second case the
    slice the output path is made of is the file's path relative to that
    directory. *)
Theorem common_root_is_a_prefix (fuel : nat) (start : string) (files : list SourceFile)
    (root : string) :
  findCommonRoot fuel start files = Some root ->
  root = "/" \/
  Forall (fun f => exists rest,
            inputFile f = root ++ "/" ++ rest /\
            Js.sliceFrom (inputFile f) (Js.len root + 1) = rest) files.
Proof.
  revert start. induction fuel as [|fuel IH]; intros start Hroot; [discriminate|].
  cbn [findCommonRoot] in Hroot.
  destruct (String.eqb start "/") eqn:Hstart.
  - injection Hroot as <-. apply String.eqb_eq in Hstart. now left.
  - destruct (forallb _ files) eqn:Hall.
    + injection Hroot as <-. right. rewrite forallb_forall in Hall.
      apply Forall_forall. intros f Hf. specialize (Hall f Hf).
      apply startsWith_split in Hall. destruct Hall as [rest Hrest].
      exists rest. rewrite Hrest, append_assoc. split; [reflexivity|].
      rewrite <- append_assoc.
      replace (Js.len (Posix.join [start; ".."]) + 1)
        with (Js.len (Posix.join [start; ".."] ++ "/")) by (rewrite len_app; reflexivity).
      apply sliceFrom_app.
    + exact (IH _ Hroot).
Qed.

Lemma isAbsolute_app (p x : string) :
  Posix.isAbsolute p = true -> Posix.isAbsolute (p ++ x) = true.
Proof. destruct p as [|c p]; [discriminate|]. intros H. exact H. Qed.

Lemma resolveArgs_absolute (l : list string) (c : string) :
  Posix.isAbsolute c = true ->
  forall acc, snd (Posix.resolveArgs (l ++ [c]) acc) = true.
Proof.
  intros Hc. induction l as [|a l IH]; intros acc; cbn [app Posix.resolveArgs].
  - destruct c as [|x c]; [discriminate Hc|].
    replace (Js.len (String x c) =? 0) with false
      by (symmetry; apply Z.eqb_neq; unfold Js.len; cbn [String.length]; lia).
    now rewrite Hc.
  - destruct (Js.len a =? 0); [apply IH|].
    destruct (Posix.isAbsolute a); [reflexivity | apply IH].
Qed.

(** [path.resolve] from an absolute working directory gives an absolute
    path. *)
Lemma resolve_absolute (cwd : string) (args : list string) :
  Posix.isAbsolute cwd = true -> Posix.isAbsolute (Posix.resolve cwd args) = true.
Proof.
  intros Hcwd. unfold Posix.resolve.
  pose proof (resolveArgs_absolute (rev args) cwd Hcwd "") as Habs.
  destruct (Posix.resolveArgs (rev args ++ [cwd]) "") as [resolvedPath resolvedAbsolute].
  cbn [snd] in Habs. subst resolvedAbsolute. reflexivity.
Qed.

Lemma findActualFilePath_extends (p : string) (hint : option string) (q : string) :
  findActualFilePath h p hint = Ok q -> exists x, q = p ++ x.
Proof.
  unfold findActualFilePath. intros H.
  destruct (match lstat h p with Ok b => b | Threw _ => false end).
  { injection H as <-. exists "". now rewrite append_nil_r. }
  destruct (readdir h (Posix.dirname p)) as [entries|e]; [cbn [bind] in H | discriminate H].
  match type of H with
  | context [fold_left ?f entries ?a] => destruct (fold_left f entries a) as [anyExt hasSub]
  end.
  match type of H with
  | bind ?sub _ = _ => destruct sub as [subAnyExt|err]; [cbn [bind] in H | discriminate H]
  end.
  apply choice_result in H;
    [|intros m; unfold identifier; cbn [find fst String.eqb Ascii.eqb Bool.eqb andb];
      discriminate].
  destruct H as [[x [-> _]]|[x [-> _]]]; eauto.
Qed.

Lemma visit_absolute (frame : Frame) (v : Visit) :
  Posix.isAbsolute (cwd h) = true ->
  Posix.isAbsolute (filePath frame) = true ->
  visit h frame = Ok v ->
  Posix.isAbsolute (inputFile (sourceFile v)) = true /\
  Forall (fun next => Posix.isAbsolute (filePath next) = true) (pushed v).
Proof.
  intros Hcwd Hframe Hv. unfold visit in Hv.
  destruct (findActualFilePath h (filePath frame) None) as [actual|] eqn:Hfind;
    [|discriminate Hv].
  cbn [bind] in Hv.
  repeat match type of Hv with
         | bind ?e _ = Ok _ => destruct e; [cbn [bind] in Hv | discriminate Hv]
         end.
  injection Hv as <-. cbn [sourceFile inputFile pushed]. split.
  - apply findActualFilePath_extends in Hfind. destruct Hfind as [x ->].
    now apply isAbsolute_app.
  - apply Forall_forall. intros next Hnext. apply in_flat_map in Hnext.
    destruct Hnext as [[dependency method] [_ Hnext]].
    destruct (isInternal dependency); [|destruct Hnext].
    destruct Hnext as [<-|[]]. cbn [filePath]. now apply resolve_absolute.
Qed.

Lemma traverseFiles_absolute (fuel : nat) :
  Posix.isAbsolute (cwd h) = true ->
  forall st st',
    Forall (fun frame => Posix.isAbsolute (filePath frame) = true) (fileStack st) ->
    Forall (fun f => Posix.isAbsolute (rawInputFile f) = true /\
                     Posix.isAbsolute (inputFile f) = true) (internalSourceFiles st) ->
    traverseFiles fuel h st = Some (Ok st') ->
    Forall (fun f => Posix.isAbsolute (rawInputFile f) = true /\
                     Posix.isAbsolute (inputFile f) = true) (internalSourceFiles st').
Proof.
  intros Hcwd. induction fuel as [|fuel IH]; intros st st' Hstack Hfiles Hrun;
    [discriminate|].
  cbn [traverseFiles] in Hrun. destruct (fileStack st) as [|frame rest].
  - now injection Hrun as <-.
  - inversion Hstack as [|? ? Hframe Hrest]; subst.
    destruct (StrSet.has (explored st) (filePath frame)).
    + apply IH in Hrun; assumption.
    + destruct (visit h frame) as [v|e] eqn:Hv; [|discriminate].
      destruct (visit_absolute frame v Hcwd Hframe Hv) as [Hinput Hpushed].
      destruct (visit_sourceFile h _ _ Hv) as [Hraw _].
      apply IH in Hrun; [exact Hrun | |]; cbn [fileStack internalSourceFiles].
      * apply Forall_app. split; [|exact Hrest]. apply Forall_rev. exact Hpushed.
      * apply Forall_app. split; [exact Hfiles|]. constructor; [|constructor].
        rewrite Hraw. now split.
Qed.

(** X20.  From an absolute working directory every path of the graph is
    absolute: the raw path of each record, which [path.resolve] made, and
    the file it was resolved to, which extends the raw path. *)
Theorem graph_paths_are_absolute (entryFilePath : string) (fuel : nat) (st : BuildState) :
  Posix.isAbsolute (cwd h) = true ->
  traverseFiles fuel h (initialState h entryFilePath) = Some (Ok st) ->
  Forall (fun f => Posix.isAbsolute (rawInputFile f) = true /\
                   Posix.isAbsolute (inputFile f) = true) (internalSourceFiles st).
Proof.
  intros Hcwd Hrun.
  apply (traverseFiles_absolute fuel Hcwd (initialState h entryFilePath)).
  - constructor; [|constructor]. cbn [filePath]. now apply resolve_absolute.
  - constructor.
  - exact Hrun.
Qed.

End Roots.

Lemma non_string_dependency_throws_TypeError_witness :
  exists message,
    visit Fixture.requireNumber (mkFrame "/p/main.js" ".js" "entry")
    = Threw (TypeError message).
Proof.
  apply (non_string_dependency_throws_TypeError Fixture.requireNumber
           (mkFrame "/p/main.js" ".js" "entry") "/p/main.js" "require(5);" "require(5);"
           (program [Sample.callStatement (ident "require") [Expression.number 5 "5"]])
           [(VNum 5, "require")]).
  - vm_compute. reflexivity.
  - reflexivity.
  - reflexivity.
  - reflexivity.
  - vm_compute. reflexivity.
  - constructor. intros s. discriminate.
Defined.

Lemma entry_format_follows_kept_imports_witness :
  let v := mkVisit "/p/main.ts" (program [importOf (Some "fs") [] "fs"]) []
             (mkSourceFile "/p/main.ts" "/p/main.ts" ".cjs") in
  (outputFormat (sourceFile v) = ".mjs" <->
   exists s, In (VStr s, "import") [(VStr "fs", "import")] /\
             isNodeBuiltin Fixture.builtinOnly (VStr s) = Ok false) /\
  (outputFormat (sourceFile v) = ".cjs" <->
   ~ exists s, In (VStr s, "import") [(VStr "fs", "import")] /\
               isNodeBuiltin Fixture.builtinOnly (VStr s) = Ok false).
Proof.
  apply (entry_format_follows_kept_imports Fixture.builtinOnly
           (mkFrame "/p/main.ts" ".ts" "entry")).
  - vm_compute. reflexivity.
  - reflexivity.
  - vm_compute. reflexivity.
Defined.

Lemma dependencies_in_source_order_witness :
  readForDependencies
    (program ([importDeclaration [] "./a"]
              ++ [Sample.callStatement (ident "require") [literal "./x"]]))
  = Ok ([(VStr "./a", "import")] ++ [(VStr "./x", "require")])%list.
Proof.
  apply (dependencies_in_source_order [importDeclaration [] "./a"]
           [Sample.callStatement (ident "require") [literal "./x"]]).
  - vm_compute. reflexivity.
  - vm_compute. reflexivity.
Defined.

Lemma every_record_has_its_tree_witness :
  exists st,
    traverseFiles 6 Sample.cycle (initialState Sample.cycle "/p/a.ts") = Some (Ok st) /\
    Forall (recordedWithTree Sample.cycle (astCache st)) (internalSourceFiles st).
Proof.
  eexists. split; [vm_compute; reflexivity|].
  apply (every_record_has_its_tree Sample.cycle "/p/a.ts" 6). vm_compute. reflexivity.
Defined.


Lemma common_root_is_a_prefix_witness :
  "/p" = "/" \/
  Forall (fun f => exists rest,
            inputFile f = "/p" ++ "/" ++ rest /\
            Js.sliceFrom (inputFile f) (Js.len "/p" + 1) = rest)
         [mkSourceFile "/p/main.ts" "/p/main.ts" ".mjs";
          mkSourceFile "/p/a.ts" "/p/a.ts" ".mjs"].
Proof.
  apply (common_root_is_a_prefix 11 "/p/main.ts"
           [mkSourceFile "/p/main.ts" "/p/main.ts" ".mjs";
            mkSourceFile "/p/a.ts" "/p/a.ts" ".mjs"] "/p").
  vm_compute. reflexivity.
Defined.

Lemma graph_paths_are_absolute_witness :
  exists st,
    traverseFiles 3 Sample.explicitExtension
      (initialState Sample.explicitExtension "../p/main.ts") = Some (Ok st) /\
    Forall (fun f => Posix.isAbsolute (rawInputFile f) = true /\
                     Posix.isAbsolute (inputFile f) = true) (internalSourceFiles st).
Proof.
  eexists. split; [vm_compute; reflexivity|].
  apply (graph_paths_are_absolute Sample.explicitExtension "../p/main.ts" 3).
  - reflexivity.
  - vm_compute. reflexivity.
Defined.


(* ================================================================= *)
(** ** What the rewriter leaves alone *)

Section Rewriter.

Variable h : Host.

Lemma updateImportsTree_inert (ast : value) :
  inert ast = true -> updateImportsTree h ast = Some (Ok ast).
Proof.
  intros Hinert. unfold updateImportsTree.
  destruct (rewriteTree_enough h (S (weight ast)) ast) as [r Hr]; [lia|].
  rewrite Hr. apply (rewriteTree_inert h _ _ _ Hinert) in Hr. subst r.
  cbn [bindF fst snd numbered own find].
  rewrite settle_own_only by (intros p []). reflexivity.
Qed.

(** X21.  A tree that holds no import expression, import declaration,
    export declaration with or without source, or call is handed to the
    printer as the parser gave it: the rewriter touches nothing else. *)
Theorem untouched_tree_is_printed_as_parsed (ast : value) :
  inert ast = true -> updateImports h ast = Some (Ok (generate h ast)).
Proof.
  intros Hinert. unfold updateImports. now rewrite (updateImportsTree_inert ast Hinert).
Qed.








End Rewriter.


Import Expression.

Section Asymmetry.

Variable h : Host.

(** X24.  A dynamic import whose source is a template literal is rewritten
    like one with a string literal, but the reader does not record it: the
    specifier gets the extension while the file it names is not part of the
    graph on its account. *)
Theorem template_import_is_rewritten_but_not_read (s : string) :
  readForDependencies (program [statement (importExpression (templateOf s))]) = Ok [] /\
  updateImportsTree h (program [statement (importExpression (templateOf s))])
  = Some (Ok (program [statement (importExpression (templateOf (ensureMJS s)))])).
Proof.
  split.
  - unfold readForDependencies. cbn. destruct (String.eqb s ""); reflexivity.
  - unfold updateImportsTree. cbn -[ensureMJS].
    destruct (ensureMJS s) as [|c t]; vm_compute; reflexivity.
Qed.

(** X25.  A call of [require.main.require] with a literal is recorded by
    the reader as a dependency reached by require, so the file it names is
    built, but the rewriter, which tests for a call of the identifier
    [require], leaves the call and its specifier as they are. *)
Theorem require_main_require_is_read_but_not_rewritten (s : string) :
  readForDependencies (program [statement (requireMainRequire [literal s])])
  = Ok [(VStr s, "require")] /\
  updateImportsTree h (program [statement (requireMainRequire [literal s])])
  = Some (Ok (program [statement (requireMainRequire [literal s])])).
Proof.
  split.
  - unfold readForDependencies, literal, asLiteral. cbn -[quote].
    destruct (quote s) as [|c q], s as [|d s]; vm_compute; reflexivity.
  - unfold updateImportsTree, literal, asLiteral. cbn -[quote].
    destruct (quote s) as [|c q], s as [|d s]; vm_compute; reflexivity.
Qed.

End Asymmetry.

Lemma untouched_tree_is_printed_as_parsed_witness :
  updateImports Sample.requireTs (program [Sample.moduleExports])
  = Some (Ok (generate Sample.requireTs (program [Sample.moduleExports]))).
Proof.
  apply (untouched_tree_is_printed_as_parsed Sample.requireTs
           (program [Sample.moduleExports])).
  vm_compute. reflexivity.
Defined.



Section Classifier.

Variable h : Host.

(** X26.  For a path that does not end in .mjs or .cjs, in any case,
    [determineModuleTypeFromPath] reads and parses the file and answers
    .mjs exactly when the walk over the tree meets a node of one of the
    nine module-only types, .cjs otherwise; the node types of TypeScript's
    module files (.mts, .cts) get no answer of their own. *)
Theorem classification_by_content (path text : string) (ast : value) :
  Js.sliceFrom (Js.toLowerCase path) (-4) <> ".mjs" ->
  Js.sliceFrom (Js.toLowerCase path) (-4) <> ".cjs" ->
  readFile h path = Ok text -> parseModule h text = Ok ast ->
  (determineModuleTypeFromPath h path = Ok ".mjs" <->
   exists node, visitedIn node ast /\ foundExport node = true) /\
  (determineModuleTypeFromPath h path = Ok ".cjs" <->
   ~ exists node, visitedIn node ast /\ foundExport node = true).
Proof.
  intros Hmjs Hcjs Hread Hparse.
  unfold determineModuleTypeFromPath, determineModuleTypeFromString.
  apply String.eqb_neq in Hmjs, Hcjs. rewrite Hmjs, Hcjs. cbn [orb].
  rewrite Hread. cbn [bind]. rewrite Hparse. cbn [bind].
  pose proof (traverseUntilFound_spec ast) as Hspec.
  destruct (traverseUntilFound ast false).
  - split; split; try reflexivity; try discriminate.
    + intros _. now apply Hspec.
    + intros Hno. exfalso. apply Hno. now apply Hspec.
  - split; split; try reflexivity; try discriminate.
    + intros Hyes. apply Hspec in Hyes. discriminate Hyes.
    + intros _ Hyes. apply Hspec in Hyes. discriminate Hyes.
Qed.

End Classifier.

Lemma classification_by_content_witness :
  (determineModuleTypeFromPath Sample.ctsPackage "/w/node_modules/ext/index.cts"
   = Ok ".mjs" <->
   exists node, visitedIn node (program [Sample.exportConst]) /\ foundExport node = true) /\
  (determineModuleTypeFromPath Sample.ctsPackage "/w/node_modules/ext/index.cts"
   = Ok ".cjs" <->
   ~ exists node, visitedIn node (program [Sample.exportConst]) /\ foundExport node = true).
Proof.
  apply (classification_by_content Sample.ctsPackage "/w/node_modules/ext/index.cts"
           "export const x = 1;").
  - vm_compute. discriminate.
  - vm_compute. discriminate.
  - reflexivity.
  - reflexivity.
Defined.


(* ================================================================= *)
(** ** What [normalizeString] computes, and what follows for [build] *)

Module PathFacts.

Import Names JsFacts PosixFacts.

Lemma allChars_app (f : ascii -> bool) (s t : string) :
  allChars f (s ++ t) = allChars f s && allChars f t.
Proof.
  induction s as [|c s IH]; simpl; [reflexivity|].
  rewrite IH. now rewrite andb_assoc.
Qed.

Lemma slice_app_l (s t : string) : Js.slice (s ++ t) 0 (Js.len s) = s.
Proof.
  change 0 with (Z.of_nat 0). unfold Js.len.
  rewrite slice_nat by (rewrite length_app; lia).
  rewrite Nat.sub_0_r. apply substring_app_l.
Qed.

Lemma slice_mid (u cur rest : string) :
  Js.slice (u ++ cur ++ rest) (Js.len u) (Js.len u + Js.len cur) = cur.
Proof.
  unfold Js.len. rewrite <- Nat2Z.inj_add.
  rewrite slice_nat by (rewrite !length_app; lia).
  rewrite substring_app_r.
  replace (String.length u + String.length cur - String.length u)%nat
    with (String.length cur) by lia.
  apply substring_app_l.
Qed.

Lemma lastIndexOfFrom_plain (x : string) (i f : Z) :
  allChars notSlash x = true -> Js.lastIndexOfFrom Posix.slash x i f = f.
Proof.
  revert i f. induction x as [|c x IH]; intros i f H;
    cbn [Js.lastIndexOfFrom allChars] in *; [reflexivity|].
  apply andb_true_iff in H as [Hc Hx]. unfold notSlash in Hc.
  rewrite Ascii.eqb_sym in Hc. apply negb_true_iff in Hc.
  rewrite Hc. now apply IH.
Qed.

Lemma lastIndexOfFrom_app (c : ascii) (u v : string) (i f : Z) :
  Js.lastIndexOfFrom c (u ++ v) i f
  = Js.lastIndexOfFrom c v (i + Js.len u) (Js.lastIndexOfFrom c u i f).
Proof.
  revert i f. induction u as [|d u IH]; intros i f; simpl.
  - unfold Js.len. simpl. now rewrite Z.add_0_r.
  - rewrite IH. f_equal. unfold Js.len. simpl String.length. lia.
Qed.

Lemma lastIndexOf_plain (x : string) :
  allChars notSlash x = true -> Js.lastIndexOf x Posix.slash = -1.
Proof. intros H. unfold Js.lastIndexOf. now apply lastIndexOfFrom_plain. Qed.

Lemma lastIndexOf_last (u x : string) :
  allChars notSlash x = true -> Js.lastIndexOf (u ++ "/" ++ x) Posix.slash = Js.len u.
Proof.
  intros H. unfold Js.lastIndexOf. rewrite lastIndexOfFrom_app.
  cbn [append Js.lastIndexOfFrom]. change (Ascii.eqb Posix.slash "/") with true.
  cbv iota. now rewrite lastIndexOfFrom_plain.
Qed.

Lemma len_cons (c : ascii) (s : string) : Js.len (String c s) = 1 + Js.len s.
Proof. unfold Js.len. cbn [String.length]. lia. Qed.

Lemma len_nonneg (s : string) : 0 <= Js.len s.
Proof. unfold Js.len. lia. Qed.

Lemma len_zero (s : string) : (Js.len s =? 0) = String.eqb s "".
Proof. destruct s; [reflexivity|]. rewrite len_cons. pose proof (len_nonneg s).
  cbn [String.eqb]. apply Z.eqb_neq. lia. Qed.

Lemma dotsOf_one (cur : string) : (dotsOf cur =? 1) = String.eqb cur ".".
Proof.
  unfold dotsOf. destruct cur as [|a cur]; [reflexivity|].
  cbn [allChars String.eqb]. unfold isDot at 1. unfold Posix.dot.
  destruct (Ascii.eqb a ".").
  - cbn [andb]. destruct cur as [|b cur]; [reflexivity|].
    rewrite !len_cons. pose proof (len_nonneg cur).
    destruct (allChars isDot (String b cur)); cbn [String.eqb]; apply Z.eqb_neq; lia.
  - reflexivity.
Qed.

Lemma dotsOf_two (cur : string) : (dotsOf cur =? 2) = String.eqb cur "..".
Proof.
  unfold dotsOf. destruct cur as [|a cur]; [reflexivity|].
  cbn [allChars String.eqb]. unfold isDot at 1. unfold Posix.dot.
  destruct (Ascii.eqb a "."); [|reflexivity].
  cbn [andb]. destruct cur as [|b cur]; [reflexivity|].
  cbn [allChars String.eqb]. unfold isDot at 1. unfold Posix.dot.
  destruct (Ascii.eqb b "."); [|reflexivity].
  cbn [andb]. destruct cur as [|c cur]; [reflexivity|].
  rewrite !len_cons. pose proof (len_nonneg cur).
  destruct (allChars isDot (String c cur)); cbn [String.eqb]; apply Z.eqb_neq; lia.
Qed.

Lemma dotsOf_snoc (cur : string) (c : ascii) :
  dotsOf (cur ++ String c "")
  = if Ascii.eqb c Posix.dot && negb (dotsOf cur =? -1) then dotsOf cur + 1 else -1.
Proof.
  unfold dotsOf. rewrite allChars_app. cbn [allChars]. unfold isDot at 2.
  rewrite andb_true_r, len_app. change (Js.len (String c "")) with 1.
  pose proof (len_nonneg cur).
  destruct (allChars isDot cur); destruct (Ascii.eqb c Posix.dot); cbn [andb negb];
    try reflexivity.
  destruct (Js.len cur =? -1) eqn:E; [apply Z.eqb_eq in E; lia | reflexivity].
Qed.

Lemma step_char (path pre cur : string) (names : list string) (st : Posix.nsState)
    (c : ascii) :
  Ascii.eqb c Posix.slash = false ->
  tracks pre cur names st ->
  tracks (pre ++ String c "") (cur ++ String c "") names
    (Posix.normalizeString_step path false (Js.len pre) c st).
Proof.
  intros Hc [Hres Hnames Hlen Hslash Hdots [u Hu] Hplain].
  unfold Posix.normalizeString_step, Posix.isPosixPathSeparator. rewrite Hc.
  pose proof (dotsOf_snoc cur c) as Hd. rewrite <- Hdots in Hd.
  assert (Hs : Posix.lastSlash st
               = Js.len (pre ++ String c "") - Js.len (cur ++ String c "") - 1).
  { rewrite !len_app. lia. }
  assert (Hu' : exists u', pre ++ String c "" = u' ++ cur ++ String c "").
  { exists u. now rewrite Hu, append_assoc. }
  assert (Hp : allChars notSlash (cur ++ String c "") = true).
  { rewrite allChars_app, Hplain. cbn [allChars andb]. unfold notSlash. now rewrite Hc. }
  destruct (Ascii.eqb c Posix.dot && negb (Posix.dots st =? -1));
    constructor; cbn [Posix.res Posix.lastSegmentLength Posix.lastSlash Posix.dots];
    auto.
Qed.

Lemma render_cons (x y : string) (rest : list string) :
  render (x :: y :: rest) = render (y :: rest) ++ "/" ++ x.
Proof. reflexivity. Qed.

Lemma isName_inv (x : string) :
  isName x = true ->
  String.eqb x "" = false /\ String.eqb x "." = false /\ String.eqb x ".." = false /\
  allChars notSlash x = true.
Proof.
  unfold isName. intros H.
  apply andb_true_iff in H as [H H4]. apply andb_true_iff in H as [H H3].
  apply andb_true_iff in H as [H1 H2].
  now rewrite negb_true_iff in H1, H2, H3.
Qed.

Lemma render_nonempty (x : string) (rest : list string) :
  String.eqb x "" = false -> 0 < Js.len (render (x :: rest)).
Proof.
  intros H. destruct rest as [|y rest].
  - cbn [render]. pose proof (len_nonneg x). rewrite <- len_zero in H.
    apply Z.eqb_neq in H. lia.
  - rewrite render_cons, !len_app. pose proof (len_nonneg (render (y :: rest))).
    pose proof (len_nonneg x). change (Js.len "/") with 1. lia.
Qed.

Lemma render_suffix (x : string) (rest : list string) :
  exists prefix, render (x :: rest) = prefix ++ x.
Proof.
  destruct rest as [|y rest].
  - now exists "".
  - exists (render (y :: rest) ++ "/"). now rewrite render_cons, append_assoc.
Qed.

Lemma not_two_dots (p x : string) :
  Js.len x = 2 -> String.eqb x ".." = false ->
  negb (Js.isChar Posix.dot (Js.charAt (p ++ x) (Js.len (p ++ x) - 1)))
  || negb (Js.isChar Posix.dot (Js.charAt (p ++ x) (Js.len (p ++ x) - 2))) = true.
Proof.
  intros Hl Hx. destruct x as [|a [|b [|c x]]]; [discriminate | discriminate | |].
  2: { rewrite !len_cons in Hl. pose proof (len_nonneg x). lia. }
  rewrite len_app, !len_cons. change (Js.len "") with 0. unfold Js.len.
  replace (Z.of_nat (String.length p) + (1 + (1 + 0)) - 1)
    with (Z.of_nat (String.length p + 1)) by lia.
  replace (Z.of_nat (String.length p) + (1 + (1 + 0)) - 2)
    with (Z.of_nat (String.length p + 0)) by lia.
  rewrite !charAt_nat, !get_app_r. cbn [String.get Js.isChar].
  cbn [String.eqb] in Hx. unfold Posix.dot.
  rewrite (Ascii.eqb_sym "." a), (Ascii.eqb_sym "." b).
  destruct (Ascii.eqb a "."), (Ascii.eqb b "."); try reflexivity; discriminate.
Qed.

Lemma pop_condition (x : string) (rest : list string) :
  isName x = true ->
  let r := render (x :: rest) in
  (Js.len r <? 2) || negb (Js.len x =? 2)
  || negb (Js.isChar Posix.dot (Js.charAt r (Js.len r - 1)))
  || negb (Js.isChar Posix.dot (Js.charAt r (Js.len r - 2))) = true.
Proof.
  intros Hx r. apply isName_inv in Hx as (_ & _ & H2 & _).
  destruct (Js.len x =? 2) eqn:E.
  - apply Z.eqb_eq in E. subst r. destruct (render_suffix x rest) as [p ->].
    rewrite <- orb_assoc. rewrite (not_two_dots p x E H2). now rewrite orb_true_r.
  - now rewrite orb_true_r.
Qed.

Lemma last_segment_length (y : string) (rest : list string) :
  forallb isName (y :: rest) = true ->
  Js.len (render (y :: rest)) - 1 - Js.lastIndexOf (render (y :: rest)) Posix.slash
  = Js.len y.
Proof.
  cbn [forallb]. intros H. apply andb_true_iff in H as [Hy _].
  apply isName_inv in Hy as (_ & _ & _ & Hy).
  destruct rest as [|z rest].
  - cbn [render]. rewrite lastIndexOf_plain by assumption. lia.
  - rewrite render_cons, lastIndexOf_last by assumption.
    rewrite !len_app. change (Js.len "/") with 1. lia.
Qed.

Lemma step_slash (path pre cur rest : string) (names : list string)
    (st : Posix.nsState) :
  path = pre ++ rest ->
  tracks pre cur names st ->
  tracks (pre ++ "/") "" (walk names cur)
    (Posix.normalizeString_step path false (Js.len pre) Posix.slash st).
Proof.
  intros Hpath [Hres Hnames Hlen Hslash Hdots [u Hu] Hplain].
  assert (Hs : Js.len pre = Js.len (pre ++ "/") - Js.len "" - 1).
  { rewrite len_app. change (Js.len "/") with 1. change (Js.len "") with 0. lia. }
  assert (Hu' : exists u', pre ++ "/" = u' ++ "").
  { exists (pre ++ "/"). now rewrite append_nil_r. }
  assert (E0 : (Posix.lastSlash st =? Js.len pre - 1) = String.eqb cur "").
  { rewrite <- len_zero, Hslash.
    destruct (Z.eqb_spec (Js.len cur) 0) as [E|E]; [apply Z.eqb_eq | apply Z.eqb_neq]; lia. }
  unfold Posix.normalizeString_step.
  change (Posix.isPosixPathSeparator Posix.slash) with true. cbv iota.
  rewrite E0, Hdots, dotsOf_one, dotsOf_two. unfold walk.
  destruct (String.eqb cur "" || String.eqb cur ".") eqn:E1.
  { constructor; cbn [Posix.res Posix.lastSegmentLength Posix.lastSlash Posix.dots]; auto. }
  destruct (String.eqb cur "..") eqn:E2.
  - destruct names as [|x names].
    + rewrite Hres. cbn [render]. change (Js.len "") with 0. cbn.
      constructor; cbn [Posix.res Posix.lastSegmentLength Posix.lastSlash Posix.dots];
        auto.
    + cbn [forallb] in Hnames. apply andb_true_iff in Hnames as [Hx Hnames].
      cbn [hd] in Hlen. rewrite Hres, Hlen, (pop_condition x names Hx). cbn [tl].
      pose proof (isName_inv x Hx) as (Hx1 & _ & _ & Hx4).
      pose proof (render_nonempty x names Hx1) as Hpos.
      destruct names as [|y names].
      * cbn [render] in *. rewrite (lastIndexOf_plain x Hx4). cbn [Z.eqb].
        assert (Hne : negb (Js.len x =? 0) = true).
        { apply negb_true_iff, Z.eqb_neq. lia. }
        rewrite Hne.
        destruct (2 <? Js.len x);
          constructor; cbn [Posix.res Posix.lastSegmentLength Posix.lastSlash Posix.dots];
          auto.
      * pose proof Hnames as Hy. cbn [forallb] in Hy. apply andb_true_iff in Hy as [Hy _].
        pose proof (isName_inv y Hy) as (Hy1 & _).
        pose proof (render_nonempty y names Hy1) as Hposy.
        pose proof (len_nonneg x).
        rewrite render_cons in *.
        assert (Hlong : (2 <? Js.len (render (y :: names) ++ "/" ++ x)) = true).
        { apply Z.ltb_lt. rewrite !len_app. change (Js.len "/") with 1.
          rewrite <- len_zero in Hx1. apply Z.eqb_neq in Hx1. lia. }
        rewrite Hlong, (lastIndexOf_last _ x Hx4).
        assert (Hn1 : (Js.len (render (y :: names)) =? -1) = false).
        { apply Z.eqb_neq. lia. }
        rewrite Hn1, slice_app_l, (last_segment_length y names Hnames).
        constructor; cbn [Posix.res Posix.lastSegmentLength Posix.lastSlash Posix.dots];
          auto.
  - apply orb_false_iff in E1 as [E1 E1'].
    assert (Hseg : Js.slice path (Posix.lastSlash st + 1) (Js.len pre) = cur).
    { rewrite Hslash, Hpath, Hu, append_assoc, len_app.
      replace (Js.len u + Js.len cur - Js.len cur - 1 + 1) with (Js.len u) by lia.
      apply slice_mid. }
    rewrite Hseg.
    assert (Hcur : isName cur = true).
    { unfold isName. now rewrite E1, E1', E2, Hplain. }
    constructor; cbn [Posix.res Posix.lastSegmentLength Posix.lastSlash Posix.dots];
      auto.
    + rewrite Hres. destruct names as [|x names].
      * reflexivity.
      * cbn [forallb] in Hnames. apply andb_true_iff in Hnames as [Hx _].
        pose proof (isName_inv x Hx) as (Hx1 & _).
        pose proof (render_nonempty x names Hx1) as Hpos.
        apply Z.ltb_lt in Hpos. rewrite Hpos. reflexivity.
    + cbn [forallb]. now rewrite Hcur, Hnames.
    + cbn [hd]. rewrite Hslash. lia.
Qed.

(** The loop, from any position on. *)
Lemma normalizeString_loop_spec (path : string) :
  forall rest pre cur names st code,
    path = pre ++ rest ->
    tracks pre cur names st ->
    (Posix.isPosixPathSeparator code = true -> cur = "") ->
    let final := Posix.normalizeString_loop path false rest (Js.len pre) code st in
    Posix.res final = render (walkChars rest names cur) /\
    forallb isName (walkChars rest names cur) = true.
Proof.
  induction rest as [|c rest IH]; intros pre cur names st code Hpath Ht Hcode.
  - cbn [Posix.normalizeString_loop walkChars].
    destruct (Posix.isPosixPathSeparator code) eqn:E.
    + rewrite (Hcode eq_refl). change (walk names "") with names.
      split; [apply (tracks_res _ _ _ _ Ht) | apply (tracks_names _ _ _ _ Ht)].
    + pose proof (step_slash path pre cur "" names st Hpath Ht) as Ht'.
      split; [apply (tracks_res _ _ _ _ Ht') | apply (tracks_names _ _ _ _ Ht')].
  - cbn [Posix.normalizeString_loop walkChars].
    assert (Hpath' : path = (pre ++ String c "") ++ rest).
    { now rewrite append_assoc. }
    assert (Hl : Js.len pre + 1 = Js.len (pre ++ String c "")).
    { rewrite len_app. reflexivity. }
    rewrite Hl.
    destruct (Ascii.eqb c Posix.slash) eqn:Ec.
    + apply Ascii.eqb_eq in Ec. subst c.
      apply (IH (pre ++ "/") "" (walk names cur)); auto.
      apply (step_slash path pre cur (String Posix.slash rest)); assumption.
    + apply (IH (pre ++ String c "") (cur ++ String c "") names); auto.
      * now apply step_char.
      * unfold Posix.isPosixPathSeparator. rewrite Ec. discriminate.
Qed.

(** What [normalizeString] computes when it may not climb above the
    root: the names left after [.], [..] and empty segments are resolved,
    joined by slashes. *)
Lemma normalizeString_spec (path : string) :
  Posix.normalizeString path false = render (walkChars path [] "") /\
  forallb isName (walkChars path [] "") = true.
Proof.
  unfold Posix.normalizeString.
  apply (normalizeString_loop_spec path path "" "" [] (Posix.mkNs "" 0 (-1) 0) zero).
  - reflexivity.
  - constructor; cbn; try reflexivity. now exists "".
  - reflexivity.
Qed.

Lemma walkChars_slash (u v : string) :
  forall names cur,
    walkChars (u ++ String Posix.slash v) names cur
    = walkChars v (walkChars u names cur) "".
Proof.
  induction u as [|c u IH]; intros names cur; cbn [append walkChars].
  - reflexivity.
  - destruct (Ascii.eqb c Posix.slash); apply IH.
Qed.

Lemma walkChars_plain (x : string) :
  allChars notSlash x = true ->
  forall names cur, walkChars x names cur = walk names (cur ++ x).
Proof.
  induction x as [|c x IH]; intros H names cur; cbn [walkChars allChars] in *.
  - now rewrite append_nil_r.
  - apply andb_true_iff in H as [Hc Hx]. unfold notSlash in Hc.
    apply negb_true_iff in Hc. rewrite Hc, (IH Hx), append_assoc. reflexivity.
Qed.

Lemma walk_name (names : list string) (x : string) :
  isName x = true -> walk names x = x :: names.
Proof.
  intros H. apply isName_inv in H as (H1 & H2 & H3 & _).
  unfold walk. now rewrite H1, H2, H3.
Qed.

(** Reading a rendered list of names adds them to the names found. *)
Lemma walkChars_render (names : list string) :
  forallb isName names = true ->
  forall base, walkChars (render names) base "" = (names ++ base)%list.
Proof.
  induction names as [|x names IH]; intros H base.
  - reflexivity.
  - cbn [forallb] in H. apply andb_true_iff in H as [Hx Hn].
    pose proof (isName_inv x Hx) as (_ & _ & _ & Hp).
    destruct names as [|y names].
    + cbn [render]. rewrite (walkChars_plain x Hp). cbn [append app].
      now apply walk_name.
    + rewrite render_cons.
      change (render (y :: names) ++ "/" ++ x)
        with (render (y :: names) ++ String Posix.slash x).
      rewrite walkChars_slash, (IH Hn), (walkChars_plain x Hp). cbn [append].
      now apply walk_name.
Qed.

Lemma charAt_last (s : string) (c : ascii) :
  Js.isChar Posix.slash (Js.charAt (s ++ String c "") (Js.len (s ++ String c "") - 1))
  = Ascii.eqb Posix.slash c.
Proof.
  rewrite len_app. change (Js.len (String c "")) with 1.
  replace (Js.len s + 1 - 1) with (Z.of_nat (String.length s + 0)) by (unfold Js.len; lia).
  rewrite charAt_nat, get_app_r. reflexivity.
Qed.

Lemma render_empty (names : list string) :
  forallb isName names = true -> (Js.len (render names) =? 0) = true -> names = [].
Proof.
  intros H E. destruct names as [|x names]; [reflexivity|].
  cbn [forallb] in H. apply andb_true_iff in H as [Hx _].
  apply isName_inv in Hx as (Hx & _). pose proof (render_nonempty x names Hx).
  apply Z.eqb_eq in E. lia.
Qed.

(** [path.join(p, "..")] of an absolute path made of names drops the last
    name. *)
Lemma join_parent (names : list string) :
  forallb isName names = true ->
  Posix.join ["/" ++ render names; ".."] = "/" ++ render (tl names).
Proof.
  intros H. unfold Posix.join. cbn [Posix.joinArgs].
  assert (Hpos : (0 <? Js.len ("/" ++ render names)) = true).
  { apply Z.ltb_lt. rewrite len_app. pose proof (len_nonneg (render names)).
    change (Js.len "/") with 1. lia. }
  rewrite Hpos. change (0 <? Js.len "..") with true. cbv iota.
  unfold Posix.normalize. cbv zeta.
  remember (("/" ++ render names) ++ "/" ++ "..") as joined eqn:Hj.
  rewrite append_assoc in Hj.
  change ("/" ++ "..") with (String Posix.slash "..") in Hj.
  assert (Hl : (Js.len joined =? 0) = false).
  { apply Z.eqb_neq. rewrite Hj, len_app. pose proof (len_nonneg (render names ++ "/..")).
    change (Js.len "/") with 1. unfold Posix.slash. lia. }
  assert (Ha : Posix.isAbsolute joined = true) by now rewrite Hj.
  rewrite Hl, Ha. cbn [negb].
  destruct (normalizeString_spec joined) as [Hn _]. rewrite Hn.
  assert (Hw : walkChars joined [] "" = tl names).
  { rewrite Hj. change ("/" ++ render names ++ String Posix.slash "..")
      with (String Posix.slash (render names ++ String Posix.slash "..")).
    cbn [walkChars]. change (Ascii.eqb Posix.slash Posix.slash) with true. cbv iota.
    change (walk [] "") with (@nil string).
    rewrite walkChars_slash, (walkChars_render names H), app_nil_r. reflexivity. }
  rewrite Hw.
  assert (Ht : Js.isChar Posix.slash (Js.charAt joined (Js.len joined - 1)) = false).
  { replace joined with (("/" ++ render names ++ "/.") ++ ".")
      by (now rewrite Hj, !append_assoc).
    apply charAt_last. }
  rewrite Ht.
  destruct (Js.len (render (tl names)) =? 0) eqn:E; [|reflexivity].
  assert (Hf : forallb isName (tl names) = true).
  { destruct names; [reflexivity|]. cbn [forallb tl] in *.
    now apply andb_true_iff in H as [_ H]. }
  now rewrite (render_empty _ Hf E).
Qed.

Lemma render_length (names : list string) :
  forallb isName names = true ->
  (List.length names <= String.length (render names))%nat.
Proof.
  induction names as [|x names IH]; intros H; [cbn; lia|].
  cbn [forallb] in H. apply andb_true_iff in H as [Hx Hn].
  apply isName_inv in Hx as (Hx & _).
  destruct x as [|c x]; [discriminate|].
  destruct names as [|y names].
  - cbn. lia.
  - rewrite render_cons, !length_app. specialize (IH Hn). cbn [String.length List.length] in *.
    lia.
Qed.

(** The loop of [build] that looks for the common root ends within as many
    rounds as the start has names, plus one. *)
Lemma findCommonRoot_ends (files : list SourceFile) (names : list string) :
  forallb isName names = true ->
  forall fuel, (List.length names < fuel)%nat ->
    exists root, findCommonRoot fuel ("/" ++ render names) files = Some root.
Proof.
  induction names as [|x names IH]; intros H fuel Hfuel.
  - destruct fuel as [|fuel]; [lia|]. now exists "/".
  - destruct fuel as [|fuel]; [cbn in Hfuel; lia|].
    cbn [findCommonRoot].
    assert (Hne : String.eqb ("/" ++ render (x :: names)) "/" = false).
    { cbn [forallb] in H. apply andb_true_iff in H as [Hx _].
      apply isName_inv in Hx as (Hx & _). pose proof (render_nonempty x names Hx) as Hp.
      destruct (render (x :: names)); [cbn in Hp; lia | reflexivity]. }
    rewrite Hne, (join_parent _ H). cbn [tl].
    destruct (forallb _ files); [eauto|].
    cbn [forallb] in H. apply andb_true_iff in H as [_ Hn].
    apply (IH Hn). cbn [List.length] in Hfuel. lia.
Qed.

(** [path.resolve] from an absolute working directory gives a slash
    followed by names. *)
Lemma resolve_names (cwd : string) (args : list string) :
  Posix.isAbsolute cwd = true ->
  exists names, forallb isName names = true /\
                Posix.resolve cwd args = "/" ++ render names.
Proof.
  intros Hcwd. unfold Posix.resolve.
  pose proof (resolveArgs_absolute (rev args) cwd Hcwd "") as Habs.
  destruct (Posix.resolveArgs (rev args ++ [cwd]) "") as [resolvedPath resolvedAbsolute].
  cbn [snd] in Habs. subst resolvedAbsolute. cbn [negb].
  destruct (normalizeString_spec resolvedPath) as [Hn Hf].
  exists (walkChars resolvedPath [] ""). now rewrite Hn.
Qed.

Lemma concat_snoc (l : list string) (x : string) :
  String.concat "/" (l ++ [x])
  = match l with [] => x | _ :: _ => String.concat "/" l ++ "/" ++ x end.
Proof.
  induction l as [|a l IH]; [reflexivity|].
  destruct l as [|b l]; [reflexivity|].
  change (String.concat "/" ((a :: b :: l) ++ [x]))
    with (a ++ "/" ++ String.concat "/" ((b :: l) ++ [x])).
  rewrite IH.
  change (String.concat "/" (a :: b :: l)) with (a ++ "/" ++ String.concat "/" (b :: l)).
  now rewrite !append_assoc.
Qed.

Lemma render_rev (l : list string) : render (rev l) = String.concat "/" l.
Proof.
  induction l as [|x l IH] using rev_ind; [reflexivity|].
  rewrite rev_app_distr, concat_snoc. cbn [rev app].
  destruct l as [|a l]; [reflexivity|].
  destruct (rev (a :: l)) as [|y r] eqn:E.
  { apply (f_equal (@List.length string)) in E. rewrite length_rev in E. discriminate. }
  rewrite render_cons, IH. reflexivity.
Qed.

Lemma forallb_rev {A : Type} (f : A -> bool) (l : list A) :
  forallb f (rev l) = forallb f l.
Proof.
  induction l as [|x l IH]; [reflexivity|].
  cbn [rev forallb]. rewrite forallb_app, IH. cbn [forallb].
  rewrite andb_true_r. apply andb_comm.
Qed.

Lemma walkChars_concat (l base : list string) :
  forallb isName l = true ->
  walkChars (String.concat "/" l) base "" = (rev l ++ base)%list.
Proof.
  intros H. rewrite <- render_rev. apply walkChars_render. now rewrite forallb_rev.
Qed.

Lemma concat_app (l1 l2 : list string) :
  l1 <> [] -> l2 <> [] ->
  String.concat "/" (l1 ++ l2) = String.concat "/" l1 ++ "/" ++ String.concat "/" l2.
Proof.
  intros H1 H2. induction l1 as [|a l1 IH]; [congruence|].
  destruct l1 as [|b l1].
  - cbn [app]. destruct l2; [congruence | reflexivity].
  - change (String.concat "/" ((a :: b :: l1) ++ l2))
      with (a ++ "/" ++ String.concat "/" ((b :: l1) ++ l2)).
    rewrite IH by discriminate.
    change (String.concat "/" (a :: b :: l1))
      with (a ++ "/" ++ String.concat "/" (b :: l1)).
    now rewrite !append_assoc.
Qed.

Lemma plain_notSlash (s : string) : allChars plain s = true -> allChars notSlash s = true.
Proof.
  induction s as [|c s IH]; [reflexivity|]. cbn [allChars]. intros H.
  apply andb_true_iff in H as [Hc Hs]. rewrite (IH Hs), andb_true_r.
  unfold plain in Hc. now apply andb_true_iff in Hc as [Hc _].
Qed.

(** A name that begins with a plain character and goes on without a
    slash. *)
Lemma isName_plain (c : ascii) (s : string) :
  plain c = true -> allChars notSlash s = true -> isName (String c s) = true.
Proof.
  intros Hc Hs. unfold plain in Hc. apply andb_true_iff in Hc as [Hc1 Hc2].
  unfold isName. cbn [String.eqb allChars]. unfold notSlash at 1.
  rewrite Hc1, Hs. apply negb_true_iff in Hc2. unfold Posix.dot in Hc2.
  rewrite Hc2. reflexivity.
Qed.

Lemma join_below (dirs rel : list string) :
  forallb isName dirs = true -> dirs <> [] ->
  forallb isName rel = true -> rel <> [] ->
  forall last : ascii, Ascii.eqb Posix.slash last = false ->
  forall body, String.concat "/" rel = body ++ String last "" ->
  let out := "/" ++ String.concat "/" dirs in
  Posix.join [out; out ++ "/" ++ String.concat "/" rel]
  = out ++ out ++ "/" ++ String.concat "/" rel.
Proof.
  intros Hd Hdne Hr Hrne last Hlast body Hbody out.
  assert (Hout : (0 <? Js.len out) = true).
  { apply Z.ltb_lt. unfold out. rewrite len_app. change (Js.len "/") with 1.
    pose proof (len_nonneg (String.concat "/" dirs)). lia. }
  unfold Posix.join. cbn [Posix.joinArgs]. rewrite Hout.
  assert (Hout2 : (0 <? Js.len (out ++ "/" ++ String.concat "/" rel)) = true).
  { apply Z.ltb_lt. rewrite len_app. apply Z.ltb_lt in Hout.
    pose proof (len_nonneg ("/" ++ String.concat "/" rel)). lia. }
  rewrite Hout2.
  remember (out ++ "/" ++ out ++ "/" ++ String.concat "/" rel) as joined eqn:Hj.
  unfold Posix.normalize. cbv zeta.
  assert (Hl : (Js.len joined =? 0) = false).
  { apply Z.eqb_neq. rewrite Hj, len_app. apply Z.ltb_lt in Hout.
    pose proof (len_nonneg ("/" ++ out ++ "/" ++ String.concat "/" rel)). lia. }
  assert (Ha : Posix.isAbsolute joined = true) by now rewrite Hj.
  rewrite Hl, Ha. cbn [negb].
  destruct (normalizeString_spec joined) as [Hn _]. rewrite Hn.
  assert (Hw : walkChars joined [] "" = (rev rel ++ rev dirs ++ rev dirs)%list).
  { rewrite Hj. unfold out.
    change (("/" ++ String.concat "/" dirs) ++ "/"
            ++ ("/" ++ String.concat "/" dirs) ++ "/" ++ String.concat "/" rel)
      with (String Posix.slash
              (String.concat "/" dirs
               ++ String Posix.slash
                    (String Posix.slash
                       (String.concat "/" dirs
                        ++ String Posix.slash (String.concat "/" rel))))).
    cbn [walkChars]. change (Ascii.eqb Posix.slash Posix.slash) with true. cbv iota.
    change (walk [] "") with (@nil string).
    rewrite walkChars_slash, (walkChars_concat dirs [] Hd), app_nil_r.
    cbn [walkChars]. change (Ascii.eqb Posix.slash Posix.slash) with true. cbv iota.
    change (walk (rev dirs) "") with (rev dirs).
    rewrite walkChars_slash, (walkChars_concat dirs _ Hd), (walkChars_concat rel _ Hr).
    reflexivity. }
  rewrite Hw.
  assert (Hrender : render (rev rel ++ rev dirs ++ rev dirs)
                    = String.concat "/" dirs ++ "/" ++ String.concat "/" dirs ++ "/"
                      ++ String.concat "/" rel).
  { rewrite <- !rev_app_distr, render_rev, <- app_assoc.
    rewrite concat_app; [|assumption|].
    - rewrite concat_app by assumption. reflexivity.
    - destruct dirs; [congruence | discriminate]. }
  rewrite Hrender.
  assert (Ht : Js.isChar Posix.slash (Js.charAt joined (Js.len joined - 1)) = false).
  { replace joined with ((out ++ "/" ++ out ++ "/" ++ body) ++ String last "")
      by (now rewrite Hj, Hbody, !append_assoc).
    rewrite charAt_last. exact Hlast. }
  rewrite Ht.
  match goal with
  | |- (if ?b then _ else _) = _ => assert (Hz : b = false)
  end.
  { apply Z.eqb_neq. rewrite len_app.
    pose proof (len_nonneg (String.concat "/" dirs)).
    pose proof (len_nonneg (String.concat "/" dirs ++ "/" ++ String.concat "/" rel)).
    rewrite (len_app "/"). change (Js.len "/") with 1. lia. }
  rewrite Hz. unfold out. now rewrite !append_assoc.
Qed.

Lemma concat_last (l : list string) :
  exists pre, forall x, String.concat "/" (l ++ [x]) = pre ++ x.
Proof.
  destruct l as [|a l].
  - now exists "".
  - exists (String.concat "/" (a :: l) ++ "/"). intros x.
    now rewrite concat_snoc, append_assoc.
Qed.

End PathFacts.

Section SecondHalf.

Import Names JsFacts PathFacts.

Variable h : Host.

Lemma emitAll_total (outputDirectory commonRootPath : string)
    (cache : list (string * value)) (files : list SourceFile) :
  exists r, emitAll h outputDirectory commonRootPath cache files = Some r.
Proof.
  induction files as [|f files [r IH]]; cbn [emitAll]; [eauto|].
  unfold emitFile, updateImports.
  match goal with
  | |- context [updateImportsTree h ?a] => destruct (updateImportsTree_total h a) as [t Ht]
  end.
  rewrite Ht, IH. destruct t as [tree|e]; cbn [bindF]; [|eauto].
  destruct r as [ws|e]; cbn [bindF]; eauto.
Qed.

(** X27.  When the working directory is absolute, everything of [build]
    after the traversal comes to an end: the loop that looks for the common
    root stops within the rounds the entry path has names for, and every
    tree is rewritten.  So [build] returns or throws whenever its traversal
    does. *)
Theorem build_ends_when_traversal_ends (fuel : nat) (entryFilePath : string)
    (outputDirectoryArg : option string) (t : result BuildState) :
  Posix.isAbsolute (cwd h) = true ->
  traverseFiles fuel h (initialState h entryFilePath) = Some t ->
  exists r, build fuel h entryFilePath outputDirectoryArg = Some r.
Proof.
  intros Hcwd Ht. unfold build. rewrite Ht.
  destruct t as [st|e]; cbn [bindF]; [|eauto].
  unfold firstFilePath.
  destruct (resolve_names (cwd h) [cwd h; entryFilePath] Hcwd) as (names & Hn & ->).
  destruct (findCommonRoot_ends (internalSourceFiles st) names Hn
              (S (String.length ("/" ++ render names)))) as [root ->].
  { pose proof (render_length names Hn). cbn [append String.length]. lia. }
  match goal with
  | |- context [emitAll h ?o ?c ?a ?f] => destruct (emitAll_total o c a f) as [[ws|e] ->]
  end; cbn [bindF]; eauto.
Qed.

End SecondHalf.

Section WrittenPath.

Import Names JsFacts PosixFacts PathFacts.

(** X28.  With an absolute output directory made of names, a file whose
    stem and extension hold neither slash nor dot is written below the
    output directory repeated, at the place it has below the common root
    and with its extension replaced by the output format. *)
Theorem written_path_repeats_directory (root : string) (f : SourceFile)
    (dirs subs : list string) (c d : ascii) (stem e : string) :
  forallb isName dirs = true -> dirs <> [] ->
  forallb isName subs = true ->
  allChars plain (String c stem) = true -> allChars plain (String d e) = true ->
  outputFormat f = ".mjs" \/ outputFormat f = ".cjs" ->
  inputFile f
  = root ++ "/" ++ String.concat "/" (subs ++ [String c stem ++ "." ++ String d e]) ->
  let out := "/" ++ String.concat "/" dirs in
  outputFilePathOf out root f
  = out ++ out ++ "/" ++ String.concat "/" (subs ++ [String c stem ++ outputFormat f]).
Proof.
  intros Hd Hdne Hs Hstem He Hfmt Hin out.
  destruct (concat_last subs) as [pre Hpre].
  unfold outputFilePathOf. rewrite Hin, !Hpre.
  replace (Js.sliceFrom (root ++ "/" ++ pre ++ String c stem ++ "." ++ String d e)
             (Js.len root + 1))
    with (pre ++ String c stem ++ "." ++ String d e).
  2: { rewrite <- (append_assoc root "/").
       replace (Js.len root + 1) with (Js.len (root ++ "/"))
         by (rewrite len_app; reflexivity).
       now rewrite sliceFrom_app. }
  destruct (last_char (String c stem)) as (s0 & c0 & Hlast); [discriminate|].
  assert (Hc0 : Ascii.eqb c0 Posix.slash = false).
  { rewrite Hlast, allChars_app in Hstem. apply andb_true_iff in Hstem as [_ Hc0].
    cbn [allChars] in Hc0. rewrite andb_true_r in Hc0. unfold plain in Hc0.
    apply andb_true_iff in Hc0 as [Hc0 _]. now apply negb_true_iff in Hc0. }
  set (X := out ++ "/" ++ pre ++ String c stem).
  set (ext := String Posix.dot (String d e)).
  assert (Hpath : out ++ "/" ++ pre ++ String c stem ++ "." ++ String d e = X ++ ext).
  { unfold X, ext. now rewrite !append_assoc. }
  assert (Hext : Posix.extname (X ++ ext) = ext).
  { unfold X. rewrite Hlast.
    replace ((out ++ "/" ++ pre ++ s0 ++ String c0 "") ++ ext)
      with ((out ++ "/" ++ pre ++ s0) ++ String c0 (String Posix.dot (String d e)))
      by (unfold ext; now rewrite !append_assoc).
    apply extname_suffix; [assumption | assumption | discriminate]. }
  rewrite Hpath, Hext.
  assert (Hnew : (if negb (String.eqb ext (outputFormat f))
                  then Js.slice (X ++ ext) 0 (Js.len (X ++ ext) - Js.len ext)
                       ++ outputFormat f
                  else X ++ ext) = X ++ outputFormat f).
  { destruct (String.eqb_spec ext (outputFormat f)) as [<-|_]; [reflexivity|].
    cbn [negb]. rewrite len_app.
    replace (Js.len X + Js.len ext - Js.len ext) with (Js.len X) by lia.
    now rewrite slice_app_l. }
  rewrite Hnew. unfold X. rewrite !append_assoc.
  change (String c stem ++ outputFormat f) with (String c (stem ++ outputFormat f)).
  rewrite <- Hpre.
  assert (Hname : isName (String c (stem ++ outputFormat f)) = true).
  { cbn [allChars] in Hstem. apply andb_true_iff in Hstem as [Hc Hst].
    apply isName_plain; [assumption|]. rewrite allChars_app, (plain_notSlash _ Hst).
    destruct Hfmt as [-> | ->]; reflexivity. }
  assert (Hrel : forallb isName (subs ++ [String c (stem ++ outputFormat f)]) = true).
  { rewrite forallb_app, Hs. cbn [forallb]. now rewrite Hname. }
  assert (Hend : exists body, String.concat "/" (subs ++ [String c (stem ++ outputFormat f)])
                              = body ++ "s").
  { destruct Hfmt as [-> | ->]; rewrite Hpre.
    - exists (pre ++ String c (stem ++ ".mj")).
      rewrite append_assoc. cbn [append]. now rewrite append_assoc.
    - exists (pre ++ String c (stem ++ ".cj")).
      rewrite append_assoc. cbn [append]. now rewrite append_assoc. }
  destruct Hend as [body Hbody].
  apply (join_below dirs _ Hd Hdne Hrel) with (last := "s"%char) (body := body).
  - destruct subs; discriminate.
  - reflexivity.
  - exact Hbody.
Qed.

End WrittenPath.

Section RawPaths.

Import Names JsFacts PathFacts.

Variable h : Host.

(** [path.resolve] from an absolute working directory gives a slash
    followed by names with single slashes between them. *)
Lemma resolve_normal (args : list string) :
  Posix.isAbsolute (cwd h) = true ->
  exists names, forallb isName names = true /\
                Posix.resolve (cwd h) args = "/" ++ String.concat "/" names.
Proof.
  intros Hcwd. destruct (resolve_names (cwd h) args Hcwd) as (names & Hn & ->).
  exists (rev names). now rewrite forallb_rev, <- render_rev, rev_involutive.
Qed.

Lemma visit_pushed_normal (frame : Frame) (v : Visit) :
  Posix.isAbsolute (cwd h) = true ->
  visit h frame = Ok v ->
  Forall (fun next => exists names, forallb isName names = true /\
                                    filePath next = "/" ++ String.concat "/" names)
         (pushed v).
Proof.
  intros Hcwd Hv. unfold visit in Hv.
  repeat match type of Hv with
         | bind ?e _ = Ok _ => destruct e; [cbn [bind] in Hv | discriminate Hv]
         end.
  injection Hv as <-. cbn [pushed].
  apply Forall_forall. intros next Hnext. apply in_flat_map in Hnext.
  destruct Hnext as [[dependency method] [_ Hnext]].
  destruct (isInternal dependency); [|destruct Hnext].
  destruct Hnext as [<-|[]]. cbn [filePath]. now apply resolve_normal.
Qed.

Lemma traverseFiles_normal (fuel : nat) :
  Posix.isAbsolute (cwd h) = true ->
  forall st st',
    Forall (fun frame => exists names, forallb isName names = true /\
                                       filePath frame = "/" ++ String.concat "/" names)
           (fileStack st) ->
    Forall (fun f => exists names, forallb isName names = true /\
                                   rawInputFile f = "/" ++ String.concat "/" names)
           (internalSourceFiles st) ->
    traverseFiles fuel h st = Some (Ok st') ->
    Forall (fun f => exists names, forallb isName names = true /\
                                   rawInputFile f = "/" ++ String.concat "/" names)
           (internalSourceFiles st').
Proof.
  intros Hcwd. induction fuel as [|fuel IH]; intros st st' Hstack Hfiles Hrun;
    [discriminate|].
  cbn [traverseFiles] in Hrun. destruct (fileStack st) as [|frame rest].
  - now injection Hrun as <-.
  - inversion Hstack as [|? ? Hframe Hrest]; subst.
    destruct (StrSet.has (explored st) (filePath frame)).
    + apply IH in Hrun; assumption.
    + destruct (visit h frame) as [v|e] eqn:Hv; [|discriminate].
      pose proof (visit_pushed_normal frame v Hcwd Hv) as Hpushed.
      destruct (visit_sourceFile h _ _ Hv) as [Hraw _].
      apply IH in Hrun; [exact Hrun | |]; cbn [fileStack internalSourceFiles].
      * apply Forall_app. split; [|exact Hrest]. apply Forall_rev. exact Hpushed.
      * apply Forall_app. split; [exact Hfiles|]. constructor; [|constructor].
        now rewrite Hraw.
Qed.

(** X29.  From an absolute working directory the raw path of every record
    of the graph is in normal form: a slash followed by names with single
    slashes between them, without any empty, [.] or [..] segment and
    without a slash at the end.  Specifiers that spell one place in
    different ways therefore lead to one raw path. *)
Theorem raw_paths_are_normalized (entryFilePath : string) (fuel : nat) (st : BuildState) :
  Posix.isAbsolute (cwd h) = true ->
  traverseFiles fuel h (initialState h entryFilePath) = Some (Ok st) ->
  Forall (fun f => exists names, forallb isName names = true /\
                                 rawInputFile f = "/" ++ String.concat "/" names)
         (internalSourceFiles st).
Proof.
  intros Hcwd Hrun.
  apply (traverseFiles_normal fuel Hcwd (initialState h entryFilePath)).
  - constructor; [|constructor]. cbn [filePath]. now apply resolve_normal.
  - constructor.
  - exact Hrun.
Qed.

End RawPaths.

Lemma build_ends_when_traversal_ends_witness :
  exists r, build 8 Sample.cycle "/p/a.ts" None = Some r.
Proof.
  eapply (build_ends_when_traversal_ends Sample.cycle 8 "/p/a.ts" None).
  - reflexivity.
  - vm_compute. reflexivity.
Defined.

Lemma written_path_repeats_directory_witness :
  outputFilePathOf "/w/.jbuild" "/p" (mkSourceFile "/p/lib/a.ts" "/p/lib/a.ts" ".mjs")
  = "/w/.jbuild/w/.jbuild/lib/a.mjs".
Proof.
  apply (written_path_repeats_directory "/p"
           (mkSourceFile "/p/lib/a.ts" "/p/lib/a.ts" ".mjs")
           ["w"; ".jbuild"] ["lib"] "a" "t" "" "s").
  - reflexivity.
  - discriminate.
  - reflexivity.
  - reflexivity.
  - reflexivity.
  - now left.
  - reflexivity.
Defined.

Lemma raw_paths_are_normalized_witness :
  exists st,
    traverseFiles 3 Sample.acrossRoot
      (initialState Sample.acrossRoot "../a/./main.ts") = Some (Ok st) /\
    Forall (fun f => exists names, forallb Names.isName names = true /\
                                   rawInputFile f = "/" ++ String.concat "/" names)
           (internalSourceFiles st).
Proof.
  eexists. split; [vm_compute; reflexivity|].
  apply (raw_paths_are_normalized Sample.acrossRoot "../a/./main.ts" 3).
  - reflexivity.
  - vm_compute. reflexivity.
Defined.
